(** * RuntimeModule: the module binding of the Hermes VM

    A shallow embedding of [lib/VM/RuntimeModule.cpp]: the binding's record,
    string interning, lazy function materialisation, root marking, the
    literal hidden-class cache, construction and teardown. *)

From Stdlib Require Import NArith Lia.
From stdpp Require Import base option list gmap.

Local Open Scope N_scope.

(** ** Machine integers and pointers *)

(** [uint32_t] arithmetic wraps around modulo 2^32. *)
Definition wrap32 (n : N) : N := n mod 2 ^ 32.

(** Addresses of heap objects; a null pointer is [None]. *)
Definition RMPtr := N.
Definition CBPtr := N.
Definition HiddenClassPtr := N.
Definition JSObjectPtr := N.
Definition DomainPtr := N.

(** [SymbolID]: a wrapper around a raw 32-bit identifier. *)
Record SymbolID := unsafeCreate { unsafeGetRaw : N }.

#[global] Instance SymbolID_eq_dec : EqDecision SymbolID.
Proof. solve_decision. Defined.

(** ** The binding's record (the data members of [RuntimeModule])

    [flags_] is kept as its [persistent] bit; [runtime_] is the state the
    methods run on, and [sourceURL_] is read by nothing below. *)

Inductive StringKind := KString | KIdentifier | KPredefined.

#[global] Instance StringKind_eq_dec : EqDecision StringKind.
Proof. solve_decision. Defined.

Record StringKindEntry := { kind : StringKind; count : N }.

Record StringTableEntry := { isUTF16 : bool; getOffset : N; getLength : N }.

(** What the binding reads from its [hbc::BCProvider]. *)
Record BCProvider := {
  getStringCount : N;
  getStringKinds : list StringKindEntry;
  getIdentifierTranslations : list N;
  getStringTable : list StringTableEntry;
  getStringStorage : list N;
  getFunctionCount : N;
  isFunctionLazy : N -> bool;
  getGlobalFunctionIndex : N;
  getCJSModuleOffset : N
}.

Record RuntimeModule := {
  domain_ : DomainPtr;
  persistent : bool;
  bcProvider_ : option BCProvider;
  stringIDMap_ : list SymbolID;
  functionMap_ : list (option CBPtr);
  objectLiteralHiddenClasses_ : gmap N (option HiddenClassPtr);
  templateMap_ : list (N * JSObjectPtr)
}.

Definition set_bcProvider (p : option BCProvider) (rm : RuntimeModule) :=
  {| domain_ := domain_ rm; persistent := persistent rm; bcProvider_ := p;
     stringIDMap_ := stringIDMap_ rm; functionMap_ := functionMap_ rm;
     objectLiteralHiddenClasses_ := objectLiteralHiddenClasses_ rm;
     templateMap_ := templateMap_ rm |}.

Definition set_stringIDMap (m : list SymbolID) (rm : RuntimeModule) :=
  {| domain_ := domain_ rm; persistent := persistent rm;
     bcProvider_ := bcProvider_ rm;
     stringIDMap_ := m; functionMap_ := functionMap_ rm;
     objectLiteralHiddenClasses_ := objectLiteralHiddenClasses_ rm;
     templateMap_ := templateMap_ rm |}.

Definition set_functionMap (m : list (option CBPtr)) (rm : RuntimeModule) :=
  {| domain_ := domain_ rm; persistent := persistent rm;
     bcProvider_ := bcProvider_ rm;
     stringIDMap_ := stringIDMap_ rm; functionMap_ := m;
     objectLiteralHiddenClasses_ := objectLiteralHiddenClasses_ rm;
     templateMap_ := templateMap_ rm |}.

Definition set_templateMap (m : list (N * JSObjectPtr)) (rm : RuntimeModule) :=
  {| domain_ := domain_ rm; persistent := persistent rm;
     bcProvider_ := bcProvider_ rm;
     stringIDMap_ := stringIDMap_ rm; functionMap_ := functionMap_ rm;
     objectLiteralHiddenClasses_ := objectLiteralHiddenClasses_ rm;
     templateMap_ := m |}.

Definition set_objectLiteralHiddenClasses
    (m : gmap N (option HiddenClassPtr)) (rm : RuntimeModule) :=
  {| domain_ := domain_ rm; persistent := persistent rm;
     bcProvider_ := bcProvider_ rm;
     stringIDMap_ := stringIDMap_ rm; functionMap_ := functionMap_ rm;
     objectLiteralHiddenClasses_ := m;
     templateMap_ := templateMap_ rm |}.

(** ** The literal hidden-class cache *)

(** The two key helpers are declared in the class header; the cache code
    below only relies on their signatures. *)
Class LiteralCacheKey := {
  canGenerateLiteralHiddenClassCacheKey : N -> N -> bool;
  getLiteralHiddenClassCacheHashKey : N -> N -> N
}.

Section LiteralCache.
Context {K : LiteralCacheKey}.
(** [HiddenClass::getNumProperties], read through the class pointer. *)
Variable getNumProperties : HiddenClassPtr -> N.

Definition findCachedLiteralHiddenClass
    (keyBufferIndex numLiterals : N) (rm : RuntimeModule)
    : option HiddenClassPtr :=
  if canGenerateLiteralHiddenClassCacheKey keyBufferIndex numLiterals then
    match objectLiteralHiddenClasses_ rm
            !! getLiteralHiddenClassCacheHashKey keyBufferIndex numLiterals
    with
    | Some (Some clazz) => Some clazz
    | _ => None
    end
  else None.

Definition tryCacheLiteralHiddenClass
    (keyBufferIndex : N) (clazz : HiddenClassPtr) (rm : RuntimeModule)
    : RuntimeModule :=
  let numLiterals := getNumProperties clazz in
  if canGenerateLiteralHiddenClassCacheKey keyBufferIndex numLiterals then
    set_objectLiteralHiddenClasses
      (<[getLiteralHiddenClassCacheHashKey keyBufferIndex numLiterals
           := Some clazz]> (objectLiteralHiddenClasses_ rm)) rm
  else rm.
End LiteralCache.

(** ** Outcomes of a call

    A method either returns a value and the new state, or it does not
    return: [Undefined] stands for what C++ leaves undefined (indexing past
    the end of a vector, dereferencing a null or deleted pointer), [Fatal]
    for a call of [Runtime::ignoreAllocationFailure] that did not come
    back. *)
Inductive Fault := Undefined | Fatal.

Inductive Res (S A : Type) :=
| Done (a : A) (s : S)
| Stopped (f : Fault).
Arguments Done {S A} a s.
Arguments Stopped {S A} f.

Definition M (S A : Type) := S -> Res S A.

Definition ret {S A} (a : A) : M S A := fun s => Done a s.
Definition bind {S A B} (m : M S A) (k : A -> M S B) : M S B :=
  fun s => match m s with
           | Done a s' => k a s'
           | Stopped f => Stopped f
           end.
Definition stop {S A} (f : Fault) : M S A := fun _ => Stopped f.
Definition gets {S A} (f : S -> A) : M S A := fun s => Done (f s) s.
Definition modify {S} (f : S -> S) : M S unit := fun s => Done tt (f s).
(** A read that is undefined when there is nothing to read. *)
Definition deref {S A} (o : option A) : M S A :=
  match o with Some a => ret a | None => stop Undefined end.

(** A method preserves an observation [f] of the state when every run that
    returns leaves [f] as it was. *)
Definition preserves {S A X} (f : S -> X) (m : M S A) : Prop :=
  forall s a s', m s = Done a s' -> f s' = f s.

Declare Scope m_scope.
Delimit Scope m_scope with m.
Notation "x <- m ;; k" := (bind m (fun x => k))
  (at level 100, m at next level, right associativity) : m_scope.
Notation "m ;;; k" := (bind m (fun _ => k))
  (at level 100, right associativity) : m_scope.
Local Open Scope m_scope.

Inductive ExecutionStatus := EXCEPTION | RETURNED.

Inductive CallResult (A : Type) :=
| CallValue (a : A)
| CallException.
Arguments CallValue {A} a.
Arguments CallException {A}.

(** ** Strings *)

(** [ASCIIRef] and [UTF16Ref]: a view of 8-bit or of 16-bit code units. *)
Inductive StringRef :=
| ASCIIRef (s : list N)
| UTF16Ref (s : list N).

Record StringView := { sv_isASCII : bool; sv_chars : list N }.

(** [n] 16-bit units read from a byte buffer (little-endian, as the
    bytecode file stores them). *)
Fixpoint char16s (n : nat) (bytes : list N) : list N :=
  match n, bytes with
  | S n', lo :: hi :: rest => (lo + 256 * hi) :: char16s n' rest
  | _, _ => []
  end.

(** ** External collaborators

    The symbol table, the runtime's helpers and the domain's CommonJS import
    live outside this file; the binding sees them through these
    signatures. [SymbolID_default] is the default-constructed symbol that
    [push_back({})] appends. [ignoreAllocationFailure] has the type
    [T ignoreAllocationFailure(CallResult<T>)]: it gives a value or does
    not return ([None]), and it cannot give the Exception signal back. The
    import of a module table works on the domain's own tables. *)
Class Externals := {
  IdentifierTable : Type;
  CJSTables : Type;
  (* SymbolID.h *)
  SymbolID_empty : SymbolID;
  SymbolID_default : SymbolID;
  isValid : SymbolID -> bool;
  (* IdentifierTable *)
  reserve : N -> IdentifierTable -> IdentifierTable;
  registerLazyIdentifier :
    StringRef -> N -> IdentifierTable -> SymbolID * IdentifierTable;
  getSymbolHandle :
    StringRef -> N -> IdentifierTable -> CallResult SymbolID * IdentifierTable;
  getStringView : IdentifierTable -> SymbolID -> StringView;
  (* Runtime and support *)
  hashString : StringRef -> N;
  ignoreAllocationFailure : CallResult SymbolID -> option SymbolID;
  (* Domain *)
  importCJSModuleTable_Domain :
    DomainPtr -> RMPtr -> N -> CJSTables -> ExecutionStatus * CJSTables;
  (* BCProviderLazy over function [functionID] of the parent's bytecode
     module, and the name index in that function's header *)
  createBCProviderLazy : BCProvider -> N -> BCProvider;
  functionName : BCProvider -> N -> N
}.

(** A call made on the symbol table, with what it returned (kept as a trace
    next to the table). *)
Inductive IdentCall :=
| CallReserve (n : N)
| CallRegisterLazy (str : StringRef) (hash : N) (id : SymbolID)
| CallGetSymbolHandle (str : StringRef) (hash : N) (res : CallResult SymbolID).

Record CodeBlock := { cb_runtimeModule : RMPtr; cb_functionID : N }.

Definition toNat (n : N) : nat := N.to_nat n.

Section Binding.
Context {E : Externals}.

(** ** The runtime's state, as far as the binding touches it *)
Record Runtime := {
  identifierTable : IdentifierTable;
  identCalls : list IdentCall;
  cjsTables : CJSTables;
  (* Runtime::addRuntimeModule / removeRuntimeModule *)
  runtimeModuleList : list RMPtr;
  (* Domain::addRuntimeModule *)
  domainModules : list (DomainPtr * RMPtr);
  (* objects made by new RuntimeModule and by CodeBlock::createCodeBlock *)
  moduleHeap : gmap RMPtr RuntimeModule;
  codeBlockHeap : gmap CBPtr CodeBlock
}.

Definition set_identifierTable (t : IdentifierTable) (c : IdentCall)
    (r : Runtime) :=
  {| identifierTable := t; identCalls := identCalls r ++ [c];
     cjsTables := cjsTables r; runtimeModuleList := runtimeModuleList r;
     domainModules := domainModules r; moduleHeap := moduleHeap r;
     codeBlockHeap := codeBlockHeap r |}.

Definition set_cjsTables (t : CJSTables) (r : Runtime) :=
  {| identifierTable := identifierTable r; identCalls := identCalls r;
     cjsTables := t; runtimeModuleList := runtimeModuleList r;
     domainModules := domainModules r; moduleHeap := moduleHeap r;
     codeBlockHeap := codeBlockHeap r |}.

Definition set_runtimeModuleList (l : list RMPtr) (r : Runtime) :=
  {| identifierTable := identifierTable r; identCalls := identCalls r;
     cjsTables := cjsTables r; runtimeModuleList := l;
     domainModules := domainModules r; moduleHeap := moduleHeap r;
     codeBlockHeap := codeBlockHeap r |}.

Definition set_domainModules (l : list (DomainPtr * RMPtr)) (r : Runtime) :=
  {| identifierTable := identifierTable r; identCalls := identCalls r;
     cjsTables := cjsTables r; runtimeModuleList := runtimeModuleList r;
     domainModules := l; moduleHeap := moduleHeap r;
     codeBlockHeap := codeBlockHeap r |}.

Definition set_moduleHeap (h : gmap RMPtr RuntimeModule) (r : Runtime) :=
  {| identifierTable := identifierTable r; identCalls := identCalls r;
     cjsTables := cjsTables r; runtimeModuleList := runtimeModuleList r;
     domainModules := domainModules r; moduleHeap := h;
     codeBlockHeap := codeBlockHeap r |}.

Definition set_codeBlockHeap (h : gmap CBPtr CodeBlock) (r : Runtime) :=
  {| identifierTable := identifierTable r; identCalls := identCalls r;
     cjsTables := cjsTables r; runtimeModuleList := runtimeModuleList r;
     domainModules := domainModules r; moduleHeap := moduleHeap r;
     codeBlockHeap := h |}.

(** A method of [RuntimeModule] runs on the runtime and on the fields of
    [this]. *)
Definition Method (A : Type) := M (Runtime * RuntimeModule) A.

Definition getModule : Method RuntimeModule := gets snd.
Definition getRuntime : Method Runtime := gets fst.
Definition modifyModule (f : RuntimeModule -> RuntimeModule) : Method unit :=
  modify (fun s => (s.1, f s.2)).
Definition modifyRuntime (f : Runtime -> Runtime) : Method unit :=
  modify (fun s => (f s.1, s.2)).
(** [bcProvider_->...]: undefined on a binding that has no provider. *)
Definition provider : Method BCProvider :=
  rm <- getModule;; deref (bcProvider_ rm).

(** *** Calls on the symbol table *)
Definition callReserve (n : N) : Method unit :=
  modifyRuntime (fun r =>
    set_identifierTable (reserve n (identifierTable r)) (CallReserve n) r).

Definition callRegisterLazyIdentifier (str : StringRef) (hash : N)
    : Method SymbolID :=
  r <- getRuntime;;
  let res := registerLazyIdentifier str hash (identifierTable r) in
  modifyRuntime
    (set_identifierTable res.2 (CallRegisterLazy str hash res.1));;;
  ret res.1.

Definition callGetSymbolHandle (str : StringRef) (hash : N)
    : Method (CallResult SymbolID) :=
  r <- getRuntime;;
  let res := getSymbolHandle str hash (identifierTable r) in
  modifyRuntime
    (set_identifierTable res.2 (CallGetSymbolHandle str hash res.1));;;
  ret res.1.

(** [*runtime_->ignoreAllocationFailure(...)] *)
Definition callIgnoreAllocationFailure (res : CallResult SymbolID)
    : Method SymbolID :=
  match ignoreAllocationFailure res with
  | Some id => ret id
  | None => stop Fatal
  end.

(** *** Interning *)

(** [stringIDMap_[stringID] = id] *)
Definition storeSymbol (stringID : N) (id : SymbolID) : Method unit :=
  rm <- getModule;;
  if decide (toNat stringID < length (stringIDMap_ rm))%nat then
    modifyModule (set_stringIDMap (<[toNat stringID := id]> (stringIDMap_ rm)))
  else stop Undefined.

Definition mapStringMayAllocate (str : StringRef) (stringID : N) (hash : N)
    : Method SymbolID :=
  rm <- getModule;;
  id <- (if persistent rm then callRegisterLazyIdentifier str hash
         else res <- callGetSymbolHandle str hash;;
              callIgnoreAllocationFailure res);;
  storeSymbol stringID id;;;
  ret id.

(** The two-argument overload, declared in the class header. Its second
    argument is the string's index, as [detail_mapStringMayAllocate] below
    passes it. The hash is the one computed from the characters. *)
Definition mapStringMayAllocate2 (str : StringRef) (stringID : N)
    : Method SymbolID :=
  mapStringMayAllocate str stringID (hashString str).

(** [detail::mapStringMayAllocate(module, str)]: a new slot at the end of
    the string map, filled with the symbol of [str]; the result is the
    slot's index. *)
Definition detail_mapStringMayAllocate (str : list N) : Method N :=
  modifyModule
    (fun rm => set_stringIDMap (stringIDMap_ rm ++ [SymbolID_default]) rm);;;
  rm <- getModule;;
  mapStringMayAllocate2 (ASCIIRef str)
    (wrap32 (N.of_nat (length (stringIDMap_ rm)) - 1));;;
  rm' <- getModule;;
  ret (wrap32 (N.of_nat (length (stringIDMap_ rm')) - 1)).

Definition mapPredefined (stringID : N) (rawSymbolID : N) : Method SymbolID :=
  let id := unsafeCreate rawSymbolID in
  storeSymbol stringID id;;;
  ret id.

(** [n] bytes of the buffer from [offset] on, and [n] 16-bit units from
    byte [offset] on. The source takes [begin() + offset] and a length with
    no check against the size of the buffer: a range that does not lie
    inside the buffer is read out of bounds, which is undefined ([None]). *)
Definition readBytes (strStorage : list N) (offset n : nat)
    : option (list N) :=
  if decide (offset + n <= length strStorage)%nat
  then Some (take n (drop offset strStorage)) else None.

Definition readChar16s (strStorage : list N) (offset n : nat)
    : option (list N) :=
  if decide (offset + 2 * n <= length strStorage)%nat
  then Some (char16s n (drop offset strStorage)) else None.

(** The view [{s, entry.getLength()}] of a string-table entry in the
    string storage. *)
Definition entryString (strStorage : list N) (entry : StringTableEntry)
    : option StringRef :=
  if isUTF16 entry then
    UTF16Ref <$> readChar16s strStorage (toNat (getOffset entry))
                   (toNat (getLength entry))
  else
    ASCIIRef <$> readBytes strStorage (toNat (getOffset entry))
                   (toNat (getLength entry)).

Definition createSymbolFromStringIDMayAllocate
    (stringID : N) (entry : StringTableEntry) (mhash : option N)
    : Method SymbolID :=
  p <- provider;;
  let strStorage := getStringStorage p in
  str <- deref (entryString strStorage entry);;
  let hash := match mhash with Some h => h | None => hashString str end in
  mapStringMayAllocate str stringID hash.

(** [bcProvider_->getStringTableEntry(strID)] and [translations[trnID]] *)
Definition getStringTableEntry (strID : N) : Method StringTableEntry :=
  p <- provider;; deref (getStringTable p !! toNat strID).

Definition translationAt (translations : list N) (trnID : N) : Method N :=
  deref (translations !! toNat trnID).

(** The inner loops of the walk: [n] entries of one run, starting at
    [strID] and [trnID]; the result is the two counters after the run. *)
Fixpoint identifierRun (translations : list N) (n : nat) (strID trnID : N)
    : Method (N * N) :=
  match n with
  | O => ret (strID, trnID)
  | S n' =>
      entry <- getStringTableEntry strID;;
      tr <- translationAt translations trnID;;
      createSymbolFromStringIDMayAllocate strID entry (Some tr);;;
      identifierRun translations n' (wrap32 (strID + 1)) (wrap32 (trnID + 1))
  end.

Fixpoint predefinedRun (translations : list N) (n : nat) (strID trnID : N)
    : Method (N * N) :=
  match n with
  | O => ret (strID, trnID)
  | S n' =>
      tr <- translationAt translations trnID;;
      mapPredefined strID tr;;;
      predefinedRun translations n' (wrap32 (strID + 1)) (wrap32 (trnID + 1))
  end.

Fixpoint walkKinds (translations : list N) (kinds : list StringKindEntry)
    (strID trnID : N) : Method (N * N) :=
  match kinds with
  | [] => ret (strID, trnID)
  | entry :: rest =>
      ids <- match kind entry with
             | KString => ret (wrap32 (strID + count entry), trnID)
             | KIdentifier =>
                 identifierRun translations (toNat (count entry)) strID trnID
             | KPredefined =>
                 predefinedRun translations (toNat (count entry)) strID trnID
             end;;
      walkKinds translations rest ids.1 ids.2
  end.

(** The performance section, the GC scope and the access-pattern hints sent
    to the provider under the VM's experiment flags change nothing of the
    state kept here. For an empty table the last call is written as in the
    source, [mapStringMayAllocate(s, hashString(s))]: the two-argument
    overload, with the hash of the empty string where the index goes. *)
Definition importStringIDMapMayAllocate : Method unit :=
  p <- provider;;
  let strTableSize := getStringCount p in
  modifyModule
    (set_stringIDMap (replicate (toNat strTableSize) SymbolID_empty));;;
  callReserve strTableSize;;;
  walkKinds (getIdentifierTranslations p) (getStringKinds p) 0 0;;;
  if strTableSize =? 0 then
    let s := ASCIIRef [] in
    modifyModule
      (fun rm => set_stringIDMap (stringIDMap_ rm ++ [SymbolID_default]) rm);;;
    mapStringMayAllocate2 s (hashString s);;;
    ret tt
  else ret tt.

Definition initializeFunctionMap : Method unit :=
  p <- provider;;
  modifyModule (fun rm =>
    set_functionMap
      (resize (toNat (getFunctionCount p)) None (functionMap_ rm)) rm).

Definition initializeWithoutCJSModulesMayAllocate (bytecode : BCProvider)
    : Method unit :=
  modifyModule (set_bcProvider (Some bytecode));;;
  importStringIDMapMayAllocate;;;
  initializeFunctionMap.

Definition importCJSModuleTable (this : RMPtr) : Method ExecutionStatus :=
  p <- provider;;
  rm <- getModule;;
  r <- getRuntime;;
  let res := importCJSModuleTable_Domain
               (domain_ rm) this (getCJSModuleOffset p) (cjsTables r) in
  modifyRuntime (set_cjsTables res.2);;;
  ret res.1.

Definition initializeMayAllocate (this : RMPtr) (bytecode : BCProvider)
    : Method ExecutionStatus :=
  initializeWithoutCJSModulesMayAllocate bytecode;;;
  st <- importCJSModuleTable this;;
  match st with
  | EXCEPTION => ret EXCEPTION
  | RETURNED => ret RETURNED
  end.

(** *** Construction *)

(** [new RuntimeModule(runtime, domain, flags, sourceURL)]: the object is
    placed at a fresh address and registers itself with the runtime and
    with its domain. *)
Definition newRuntimeModule (domain : DomainPtr) (flags_persistent : bool)
    : M Runtime RMPtr :=
  fun r =>
    let this := fresh (dom (moduleHeap r)) in
    let rm := {| domain_ := domain; persistent := flags_persistent;
                 bcProvider_ := None; stringIDMap_ := [];
                 functionMap_ := [];
                 objectLiteralHiddenClasses_ := ∅; templateMap_ := [] |} in
    Done this
      (set_domainModules (domainModules r ++ [(domain, this)])
         (set_runtimeModuleList (runtimeModuleList r ++ [this])
            (set_moduleHeap (<[this := rm]> (moduleHeap r)) r))).

(** A method called through a pointer: it runs on the object found at
    [this], whose fields are written back when it returns. *)
Definition onModule {A} (this : RMPtr) (m : Method A) : M Runtime A :=
  fun r =>
    match moduleHeap r !! this with
    | None => Stopped Undefined
    | Some rm =>
        match m (r, rm) with
        | Done a s =>
            Done a (set_moduleHeap (<[this := s.2]> (moduleHeap s.1)) s.1)
        | Stopped f => Stopped f
        end
    end.

Definition create (domain : DomainPtr) (bytecode : option BCProvider)
    (flags_persistent : bool) : M Runtime (CallResult RMPtr) :=
  result <- newRuntimeModule domain flags_persistent;;
  match bytecode with
  | Some bc =>
      st <- onModule result (initializeMayAllocate result bc);;
      match st with
      | EXCEPTION => ret CallException
      | RETURNED => ret (CallValue result)
      end
  | None => ret (CallValue result)
  end.

(** *** Function records *)

(** [CodeBlock::createCodeBlock(runtimeModule, header, bytecode, functionID)]:
    a new record owned by [runtimeModule]. *)
Definition createCodeBlock (runtimeModule : RMPtr) (functionID : N)
    : M Runtime CBPtr :=
  fun r =>
    let cb := fresh (dom (codeBlockHeap r)) in
    Done cb
      (set_codeBlockHeap
         (<[cb := {| cb_runtimeModule := runtimeModule;
                     cb_functionID := functionID |}]> (codeBlockHeap r)) r).

(** [block->getRuntimeModule()] *)
Definition getRuntimeModule (r : Runtime) (block : CBPtr) : option RMPtr :=
  cb_runtimeModule <$> codeBlockHeap r !! block.

(** [functionMap_[i] = v] *)
Definition storeFunction (i : nat) (v : option CBPtr) : Method unit :=
  rm <- getModule;;
  if decide (i < length (functionMap_ rm))%nat then
    modifyModule (set_functionMap (<[i := v]> (functionMap_ rm)))
  else stop Undefined.

(** [functionMap_[i]] *)
Definition loadFunction (i : nat) : Method (option CBPtr) :=
  rm <- getModule;; deref (functionMap_ rm !! i).

Section Lazy.
(** [RuntimeModule::getSymbolIDFromStringIDMayAllocate], defined inline
    in the class header. *)
Variable getSymbolIDFromStringIDMayAllocate : N -> Method SymbolID.

Definition createLazyModule (domain : DomainPtr) (parent : RMPtr)
    (functionID : N) : M Runtime RMPtr :=
  RM <- newRuntimeModule domain false;;
  pbc <- onModule parent provider;;
  onModule RM
    (modifyModule
       (set_bcProvider (Some (createBCProviderLazy pbc functionID))));;;
  cb <- createCodeBlock RM functionID;;
  onModule RM
    (modifyModule
       (fun rm => set_functionMap (functionMap_ rm ++ [Some cb]) rm));;;
  name <- onModule parent
            (getSymbolIDFromStringIDMayAllocate (functionName pbc functionID));;
  onModule RM
    (modifyModule
       (fun rm => set_stringIDMap (stringIDMap_ rm ++ [name]) rm));;;
  ret RM.

(** The build with lazy compilation (without [HERMESVM_LEAN]). *)
Definition getCodeBlockSlowPath (this : RMPtr) (index : N)
    : M Runtime (option CBPtr) :=
  p <- onModule this provider;;
  if isFunctionLazy p index then
    rm <- onModule this getModule;;
    lazyModule <- createLazyModule (domain_ rm) this index;;
    only <- onModule lazyModule (loadFunction 0);;
    onModule this (storeFunction (toNat index) only);;;
    onModule this (loadFunction (toNat index))
  else
    cb <- createCodeBlock this index;;
    onModule this (storeFunction (toNat index) (Some cb));;;
    onModule this (loadFunction (toNat index)).
End Lazy.

Definition getLazyName : Method SymbolID :=
  rm <- getModule;; deref (stringIDMap_ rm !! 0%nat).

(** [res] is the caller's string; it is assigned only on success. *)
Definition getLazyNameString (res : list N) : Method (bool * list N) :=
  rm <- getModule;;
  r <- getRuntime;;
  sym <- deref (stringIDMap_ rm !! 0%nat);;
  let strView := getStringView (identifierTable r) sym in
  if sv_isASCII strView then ret (true, sv_chars strView)
  else ret (false, res).

Definition initializeLazyMayAllocate (bytecode : BCProvider) : Method unit :=
  modifyModule (set_bcProvider None);;;
  initializeWithoutCJSModulesMayAllocate bytecode;;;
  p <- provider;;
  if getGlobalFunctionIndex p =? 0 then ret tt
  else
    first <- loadFunction 0;;
    storeFunction (toNat (getGlobalFunctionIndex p)) first;;;
    storeFunction 0 None.

(** *** Teardown *)

(** [int e = functionMap_.size()]: the size converted to a 32-bit signed
    integer; the loop [for (int i = 0; i < e; i++)] runs [e] times when
    [e] is positive and not at all otherwise. *)
Definition intOfSize (n : nat) : nat :=
  let m := N.of_nat n mod 2 ^ 32 in
  if m <? 2 ^ 31 then toNat m else 0%nat.

Fixpoint scrubLoop (this : RMPtr) (i : nat) (steps : nat) : Method unit :=
  match steps with
  | O => ret tt
  | S steps' =>
      slot <- loadFunction i;;
      match slot with
      | None => ret tt
      | Some block =>
          r <- getRuntime;;
          owner <- deref (getRuntimeModule r block);;
          if decide (owner <> this) then storeFunction i None else ret tt
      end;;;
      scrubLoop this (S i) steps'
  end.

Definition prepareForRuntimeShutdown (this : RMPtr) : Method unit :=
  rm <- getModule;;
  scrubLoop this 0 (intOfSize (length (functionMap_ rm))).

(** [delete block]: the record leaves the heap. *)
Definition deleteCodeBlock (block : CBPtr) : M Runtime unit :=
  modify (fun r => set_codeBlockHeap (delete block (codeBlockHeap r)) r).

(** The destructor's loop; the result lists the deleted records in the
    order of their deletion. *)
Fixpoint deleteOwned (this : RMPtr) (blocks : list (option CBPtr))
    : M Runtime (list CBPtr) :=
  match blocks with
  | [] => ret []
  | None :: rest => deleteOwned this rest
  | Some block :: rest =>
      r <- gets id;;
      owner <- deref (getRuntimeModule r block);;
      if decide (owner = this) then
        deleteCodeBlock block;;;
        ds <- deleteOwned this rest;;
        ret (block :: ds)
      else deleteOwned this rest
  end.

(** [~RuntimeModule()] *)
Definition destroy (this : RMPtr) : M Runtime (list CBPtr) :=
  rm <- onModule this getModule;;
  modify (fun r =>
    set_runtimeModuleList
      (filter (fun m => m <> this) (runtimeModuleList r)) r);;;
  deleteOwned this (functionMap_ rm).
End Binding.

(** ** Root marking *)

(** The collector's visitor. A slot passed by reference may be rewritten by
    the visit; [markCachedHiddenClasses] is the record's own marking of its
    caches with the same visitor. *)
Class SlotAcceptor (A : Type) := {
  acceptPtr : JSObjectPtr -> A -> JSObjectPtr * A;
  acceptSymbol : SymbolID -> A -> A;
  acceptWeak : HiddenClassPtr -> A -> option HiddenClassPtr * A;
  markCachedHiddenClasses : CBPtr -> A -> A
}.

Section Marking.
Context {E : Externals} {A : Type} {SA : SlotAcceptor A}.

Fixpoint markTemplates (tm : list (N * JSObjectPtr)) (acc : A)
    : list (N * JSObjectPtr) * A :=
  match tm with
  | [] => ([], acc)
  | it :: rest =>
      let r1 := acceptPtr it.2 acc in
      let r2 := markTemplates rest r1.2 in
      ((it.1, r1.1) :: r2.1, r2.2)
  end.

Fixpoint markSymbols (symbols : list SymbolID) (acc : A) : A :=
  match symbols with
  | [] => acc
  | symbol :: rest =>
      markSymbols rest
        (if isValid symbol then acceptSymbol symbol acc else acc)
  end.

Definition markRoots (markLongLived : bool) (rm : RuntimeModule) (acc : A)
    : RuntimeModule * A :=
  let r1 := markTemplates (templateMap_ rm) acc in
  (set_templateMap r1.1 rm,
   if markLongLived then markSymbols (stringIDMap_ rm) r1.2 else r1.2).

Fixpoint markOwnedCodeBlocks (r : Runtime) (this : RMPtr)
    (blocks : list (option CBPtr)) (acc : A) : option A :=
  match blocks with
  | [] => Some acc
  | None :: rest => markOwnedCodeBlocks r this rest acc
  | Some cbPtr :: rest =>
      match getRuntimeModule r cbPtr with
      | None => None
      | Some owner =>
          markOwnedCodeBlocks r this rest
            (if decide (owner = this)
             then markCachedHiddenClasses cbPtr acc else acc)
      end
  end.

Fixpoint markLiteralClasses (entries : list (N * option HiddenClassPtr))
    (cache : gmap N (option HiddenClassPtr)) (acc : A)
    : gmap N (option HiddenClassPtr) * A :=
  match entries with
  | [] => (cache, acc)
  | (key, None) :: rest => markLiteralClasses rest cache acc
  | (key, Some clazz) :: rest =>
      let r1 := acceptWeak clazz acc in
      markLiteralClasses rest (<[key := r1.1]> cache) r1.2
  end.

(** [None] when a slot of the function map points to a deleted record. *)
Definition markWeakRoots (r : Runtime) (this : RMPtr) (rm : RuntimeModule)
    (acc : A) : option (RuntimeModule * A) :=
  match markOwnedCodeBlocks r this (functionMap_ rm) acc with
  | None => None
  | Some acc1 =>
      let r2 := markLiteralClasses
                  (map_to_list (objectLiteralHiddenClasses_ rm))
                  (objectLiteralHiddenClasses_ rm) acc1 in
      Some (set_objectLiteralHiddenClasses r2.1 rm, r2.2)
  end.
End Marking.

(** A visitor that only records what it is shown. *)
Inductive RootEvent :=
| StrongPtr (p : JSObjectPtr)
| StrongSymbol (s : SymbolID)
| WeakHiddenClass (clazz : HiddenClassPtr)
| CodeBlockCaches (cb : CBPtr).

#[global] Instance RecordingAcceptor : SlotAcceptor (list RootEvent) := {
  acceptPtr p acc := (p, acc ++ [StrongPtr p]);
  acceptSymbol s acc := acc ++ [StrongSymbol s];
  acceptWeak clazz acc := (Some clazz, acc ++ [WeakHiddenClass clazz]);
  markCachedHiddenClasses cb acc := acc ++ [CodeBlockCaches cb]
}.

(** ** A small symbol table to run the definitions on

    Strings are interned in a list, a symbol is the position of its string;
    a string not yet in the table takes one unit of the allocation budget
    when it is interned through the allocating path. *)
Module Sample.
Record Table := { strings : list StringRef; budget : nat }.

#[global] Instance StringRef_eq_dec : EqDecision StringRef.
Proof. solve_decision. Defined.

Fixpoint position (str : StringRef) (l : list StringRef) (i : N) : option N :=
  match l with
  | [] => None
  | x :: rest => if decide (x = str) then Some i else position str rest (i + 1)
  end.

Definition registerLazy (str : StringRef) (hash : N) (t : Table)
    : SymbolID * Table :=
  match position str (strings t) 0 with
  | Some i => (unsafeCreate i, t)
  | None => (unsafeCreate (N.of_nat (length (strings t))),
             {| strings := strings t ++ [str]; budget := budget t |})
  end.

Definition symbolHandle (str : StringRef) (hash : N) (t : Table)
    : CallResult SymbolID * Table :=
  match position str (strings t) 0 with
  | Some i => (CallValue (unsafeCreate i), t)
  | None =>
      match budget t with
      | O => (CallException, t)
      | S b => (CallValue (unsafeCreate (N.of_nat (length (strings t)))),
                {| strings := strings t ++ [str]; budget := b |})
      end
  end.

Definition stringView (t : Table) (id : SymbolID) : StringView :=
  match strings t !! toNat (unsafeGetRaw id) with
  | Some (ASCIIRef s) => {| sv_isASCII := true; sv_chars := s |}
  | Some (UTF16Ref s) => {| sv_isASCII := false; sv_chars := s |}
  | None => {| sv_isASCII := true; sv_chars := [] |}
  end.

Definition hash (str : StringRef) : N :=
  let chars := match str with ASCIIRef s => s | UTF16Ref s => s end in
  foldl (fun h c => wrap32 (h * 31 + c)) 0 chars.

(** The import of a module table fails for the offsets at or above
    [limit]; [onFailure] is what [ignoreAllocationFailure] gives for a
    failed allocation. *)
Definition externals (limit : N) (onFailure : option SymbolID) : Externals := {|
  IdentifierTable := Table;
  CJSTables := list (DomainPtr * RMPtr * N);
  SymbolID_empty := unsafeCreate 0x1fffffff;
  SymbolID_default := unsafeCreate 0x1fffffff;
  isValid := fun id => unsafeGetRaw id <? 0x1ffffffe;
  reserve := fun _ t => t;
  registerLazyIdentifier := registerLazy;
  getSymbolHandle := symbolHandle;
  getStringView := stringView;
  hashString := hash;
  ignoreAllocationFailure := fun res =>
    match res with CallValue id => Some id | CallException => onFailure end;
  importCJSModuleTable_Domain := fun d m off tables =>
    if off <? limit then (RETURNED, tables ++ [(d, m, off)])
    else (EXCEPTION, tables);
  createBCProviderLazy := fun p functionID => p;
  functionName := fun p functionID => 0
|}.

Definition keys : LiteralCacheKey := {|
  canGenerateLiteralHiddenClassCacheKey := fun keyBufferIndex numLiterals =>
    (N.land keyBufferIndex 0xFF000000 =? 0) && (numLiterals <? 256);
  getLiteralHiddenClassCacheHashKey := fun keyBufferIndex numLiterals =>
    N.lor (wrap32 (N.shiftl keyBufferIndex 8)) numLiterals
|}.

Definition emptyModule : RuntimeModule :=
  {| domain_ := 1; persistent := false; bcProvider_ := None;
     stringIDMap_ := []; functionMap_ := [];
     objectLiteralHiddenClasses_ := ∅; templateMap_ := [] |}.

Definition emptyRuntime {E : Externals} (t : IdentifierTable) (c : CJSTables)
    : Runtime :=
  {| identifierTable := t; identCalls := []; cjsTables := c;
     runtimeModuleList := []; domainModules := [];
     moduleHeap := ∅; codeBlockHeap := ∅ |}.

(** A string table ["ab"; "c"; "d"; "e"] with one identifier, two plain
    strings and one predefined entry; three functions. *)
Definition bytecode : BCProvider :=
  {| getStringCount := 4;
     getStringKinds := [ {| kind := KIdentifier; count := 1 |};
                         {| kind := KString; count := 2 |};
                         {| kind := KPredefined; count := 1 |} ];
     getIdentifierTranslations := [1234; 7];
     getStringTable := [ {| isUTF16 := false; getOffset := 0; getLength := 2 |};
                         {| isUTF16 := false; getOffset := 2; getLength := 1 |};
                         {| isUTF16 := false; getOffset := 3; getLength := 1 |};
                         {| isUTF16 := false; getOffset := 4; getLength := 1 |} ];
     getStringStorage := [97; 98; 99; 100; 101];
     getFunctionCount := 3;
     isFunctionLazy := fun i => i =? 1;
     getGlobalFunctionIndex := 2;
     getCJSModuleOffset := 16 |}.

Definition emptyBytecode : BCProvider :=
  {| getStringCount := 0; getStringKinds := [];
     getIdentifierTranslations := []; getStringTable := [];
     getStringStorage := []; getFunctionCount := 1;
     isFunctionLazy := fun _ => false;
     getGlobalFunctionIndex := 0; getCJSModuleOffset := 0 |}.

(** A runtime with an empty symbol table that can still allocate [budget]
    strings. *)
Definition start (limit : N) (onFailure : option SymbolID) (budget : nat)
    : @Runtime (externals limit onFailure) :=
  emptyRuntime (E:=externals limit onFailure)
    {| strings := []; budget := budget |} [].

(** A binding over [bytecode] that has not interned anything yet. *)
Definition loaded (flags_persistent : bool) (p : BCProvider) : RuntimeModule :=
  {| domain_ := 1; persistent := flags_persistent; bcProvider_ := Some p;
     stringIDMap_ := []; functionMap_ := [];
     objectLiteralHiddenClasses_ := ∅; templateMap_ := [] |}.

(** A lazy child before its function is compiled: record 7 in slot 0 and
    the name symbol 0. *)
Definition lazyChild : RuntimeModule :=
  {| domain_ := 1; persistent := false; bcProvider_ := None;
     stringIDMap_ := [unsafeCreate 0]; functionMap_ := [Some 7];
     objectLiteralHiddenClasses_ := ∅; templateMap_ := [] |}.

(** A runtime whose symbol 0 is the narrow string "foo". *)
Definition named : @Runtime (externals 100 None) :=
  emptyRuntime (E:=externals 100 None)
    {| strings := [ASCIIRef [102; 111; 111]]; budget := 0 |} [].

(** A top-level binding at address 0 with its own record 10 in slot 0, the
    record 11 of the lazy child 5 in slot 1, and an empty slot 2. *)
Definition parentModule : RuntimeModule :=
  {| domain_ := 1; persistent := false; bcProvider_ := Some bytecode;
     stringIDMap_ := []; functionMap_ := [Some 10; Some 11; None];
     objectLiteralHiddenClasses_ := ∅; templateMap_ := [] |}.

Definition family : @Runtime (externals 100 None) :=
  @Build_Runtime (externals 100 None)
    {| strings := []; budget := 0 |} [] []
    [0; 5] [(1, 0); (1, 5)]
    {[ 0 := parentModule; 5 := lazyChild ]}
    {[ 10 := {| cb_runtimeModule := 0; cb_functionID := 0 |};
       11 := {| cb_runtimeModule := 5; cb_functionID := 1 |} ]}.

(** The family once the lazy child 5 is gone with its record 11: slot 1 of
    the binding 0 dangles. *)
Definition orphaned : @Runtime (externals 100 None) :=
  @Build_Runtime (externals 100 None)
    {| strings := []; budget := 0 |} [] []
    [0] [(1, 0)]
    {[ 0 := parentModule ]}
    {[ 10 := {| cb_runtimeModule := 0; cb_functionID := 0 |} ]}.

(** The binding 0 of the family after [prepareForRuntimeShutdown], and a
    runtime that holds it with its record 10 only. *)
Definition scrubbedParent : RuntimeModule :=
  {| domain_ := 1; persistent := false; bcProvider_ := Some bytecode;
     stringIDMap_ := []; functionMap_ := [Some 10; None; None];
     objectLiteralHiddenClasses_ := ∅; templateMap_ := [] |}.

Definition survivors : @Runtime (externals 100 None) :=
  @Build_Runtime (externals 100 None)
    {| strings := []; budget := 0 |} [] []
    [0] [(1, 0)]
    {[ 0 := scrubbedParent ]}
    {[ 10 := {| cb_runtimeModule := 0; cb_functionID := 0 |} ]}.

(** The binding 0 with the shape 9 cached under the key 3. *)
Definition cachingParent : RuntimeModule :=
  {| domain_ := 1; persistent := false; bcProvider_ := Some bytecode;
     stringIDMap_ := []; functionMap_ := [Some 10; Some 11; None];
     objectLiteralHiddenClasses_ := {[ 3 := Some 9 ]}; templateMap_ := [] |}.

(** A lookup of a symbol that only reads the string map. *)
Definition lookupName (stringID : N)
    : M (@Runtime (externals 100 None) * RuntimeModule) SymbolID :=
  rm <- getModule;; deref (stringIDMap_ rm !! toNat stringID).

(** A top-level binding that has interned "foo" as symbol 0 and has not
    materialised any of its functions, alone in its runtime. *)
Definition lazyParent : RuntimeModule :=
  {| domain_ := 1; persistent := false; bcProvider_ := Some bytecode;
     stringIDMap_ := [unsafeCreate 0]; functionMap_ := [None; None; None];
     objectLiteralHiddenClasses_ := ∅; templateMap_ := [] |}.

Definition household : @Runtime (externals 100 None) :=
  @Build_Runtime (externals 100 None)
    {| strings := [ASCIIRef [102; 111; 111]]; budget := 0 |} [] []
    [0] [(1, 0)]
    {[ 0 := lazyParent ]}
    ∅.

(** The same collaborators with a hash function under which the empty
    string hashes to 1, and a runtime over them with an empty symbol
    table. *)
Definition saltedExternals : Externals := {|
  IdentifierTable := Table;
  CJSTables := list (DomainPtr * RMPtr * N);
  SymbolID_empty := unsafeCreate 0x1fffffff;
  SymbolID_default := unsafeCreate 0x1fffffff;
  isValid := fun id => unsafeGetRaw id <? 0x1ffffffe;
  reserve := fun _ t => t;
  registerLazyIdentifier := registerLazy;
  getSymbolHandle := symbolHandle;
  getStringView := stringView;
  hashString := fun str => wrap32 (hash str + 1);
  ignoreAllocationFailure := fun res =>
    match res with CallValue id => Some id | CallException => None end;
  importCJSModuleTable_Domain := fun d m off tables =>
    (RETURNED, tables ++ [(d, m, off)]);
  createBCProviderLazy := fun p functionID => p;
  functionName := fun p functionID => 0
|}.

Definition saltedStart : @Runtime saltedExternals :=
  emptyRuntime (E:=saltedExternals) {| strings := []; budget := 5 |} [].

(** A provider of one function whose global function index is 3. *)
Definition strayBytecode : BCProvider :=
  {| getStringCount := 0; getStringKinds := [];
     getIdentifierTranslations := []; getStringTable := [];
     getStringStorage := []; getFunctionCount := 1;
     isFunctionLazy := fun _ => false;
     getGlobalFunctionIndex := 3; getCJSModuleOffset := 0 |}.
End Sample.

(** ** Teardown, slot by slot *)

(** What teardown leaves in a slot: a record that another binding owns is
    dropped, a record of [this] and a null slot stay. *)
Definition scrubbed {E : Externals} (r : Runtime) (this : RMPtr)
    (slot : option CBPtr) : option CBPtr :=
  match slot with
  | Some block =>
      if decide (getRuntimeModule r block = Some this) then Some block else None
  | None => None
  end.

(** The records of a function map that [this] owns, in slot order. *)
Definition ownedBlocks {E : Externals} (r : Runtime) (this : RMPtr)
    (blocks : list (option CBPtr)) : list CBPtr :=
  omap (scrubbed r this) blocks.

(** ** Interning, entry by entry *)

Section InterningSpec.
Context {E : Externals}.

(** The kind of every string-table entry: the run-length table written
    out. *)
Definition kindList (kinds : list StringKindEntry) : list StringKind :=
  flat_map (fun e => replicate (toNat (count e)) (kind e)) kinds.

(** An entry that is not a plain string has a translation. *)
Definition isTranslated (k : StringKind) : bool :=
  match k with KString => false | _ => true end.

Definition translated (ks : list StringKind) : nat :=
  length (filter (fun k => isTranslated k = true) ks).

(** The provider's tables agree on the number of strings: the kind table
    covers [getStringCount] entries, a 32-bit number. *)
Definition wellFormedStrings (p : BCProvider) : Prop :=
  getStringCount p < 2 ^ 32
  /\ length (kindList (getStringKinds p)) = toNat (getStringCount p).

(** [c] is the call that interns [str] with [hash] on the table [t] in the
    binding's mode (lazy registration for a persistent binding, the
    allocating lookup otherwise); it gave the symbol [id] and left the table
    [t']. *)
Definition internCall (persistent : bool) (str : StringRef) (hash : N)
    (t : IdentifierTable) (id : SymbolID) (c : IdentCall)
    (t' : IdentifierTable) : Prop :=
  if persistent then
    registerLazyIdentifier str hash t = (id, t')
    /\ c = CallRegisterLazy str hash id
  else
    exists res,
      getSymbolHandle str hash t = (res, t')
      /\ c = CallGetSymbolHandle str hash res
      /\ ignoreAllocationFailure res = Some id.

(** The units of [entry] lie inside the string storage. *)
Definition entryInStorage (strStorage : list N) (entry : StringTableEntry)
    : Prop :=
  (toNat (getOffset entry)
   + (if isUTF16 entry then 2 else 1) * toNat (getLength entry)
   <= length strStorage)%nat.

(** [str] is what the storage holds for [entry]: the entry lies inside the
    storage, and [str] has the entry's encoding and length, its unit [k]
    being the byte at [getOffset + k] for a narrow entry and, for a UTF-16
    entry, the two bytes at [getOffset + 2 k], the low one first. *)
Definition viewsEntry (strStorage : list N) (entry : StringTableEntry)
    (str : StringRef) : Prop :=
  entryInStorage strStorage entry
  /\ if isUTF16 entry then
       exists units,
         str = UTF16Ref units
         /\ length units = toNat (getLength entry)
         /\ forall k, (k < toNat (getLength entry))%nat ->
              exists lo hi,
                strStorage !! (toNat (getOffset entry) + 2 * k)%nat = Some lo
                /\ strStorage !! (toNat (getOffset entry) + 2 * k + 1)%nat
                   = Some hi
                /\ units !! k = Some (lo + 256 * hi)
     else
       exists chars,
         str = ASCIIRef chars
         /\ length chars = toNat (getLength entry)
         /\ forall k, (k < toNat (getLength entry))%nat ->
              chars !! k = strStorage !! (toNat (getOffset entry) + k)%nat.

(** [Interned p persistent sm0 ks a b t calls t' sm']: the entries of kinds
    [ks], which start at string index [a] and at translation index [b],
    have been interned into the string map [sm'] by the symbol-table calls
    [calls], which took the table from [t] to [t']. A plain string has the
    slot it had in [sm0] and no call; an identifier has the symbol its call
    gave, the call being made on the entry's characters with the entry's
    translation as the hash; a predefined entry has the symbol made of its
    translation, and no call. *)
Fixpoint Interned (p : BCProvider) (persistent : bool) (sm0 : list SymbolID)
    (ks : list StringKind) (a b : nat) (t : IdentifierTable)
    (calls : list IdentCall) (t' : IdentifierTable) (sm' : list SymbolID)
    : Prop :=
  match ks with
  | [] => calls = [] /\ t' = t
  | KString :: rest =>
      sm' !! a = sm0 !! a
      /\ Interned p persistent sm0 rest (S a) b t calls t' sm'
  | KIdentifier :: rest =>
      exists entry tr str id c calls' t1,
        getStringTable p !! a = Some entry
        /\ getIdentifierTranslations p !! b = Some tr
        /\ viewsEntry (getStringStorage p) entry str
        /\ internCall persistent str tr t id c t1
        /\ calls = c :: calls'
        /\ sm' !! a = Some id
        /\ Interned p persistent sm0 rest (S a) (S b) t1 calls' t' sm'
  | KPredefined :: rest =>
      exists tr,
        getIdentifierTranslations p !! b = Some tr
        /\ sm' !! a = Some (unsafeCreate tr)
        /\ Interned p persistent sm0 rest (S a) (S b) t calls t' sm'
  end.

(** The number of identifier entries among [ks]. *)
Definition identifiers (ks : list StringKind) : nat :=
  length (filter (fun k => k = KIdentifier) ks).

(** Every allocating lookup of the symbol table gives a symbol: the
    allocation succeeds, or [ignoreAllocationFailure] returns one for its
    failure. *)
Definition allocationSucceeds : Prop :=
  forall str h t, is_Some (ignoreAllocationFailure (getSymbolHandle str h t).1).

(** The walk over the kinds written out, one entry at a time. *)
Fixpoint walkEntries (translations : list N) (ks : list StringKind)
    (strID trnID : nat) : Method unit :=
  match ks with
  | [] => ret tt
  | KString :: rest => walkEntries translations rest (S strID) trnID
  | KIdentifier :: rest =>
      entry <- getStringTableEntry (N.of_nat strID);;
      tr <- translationAt translations (N.of_nat trnID);;
      createSymbolFromStringIDMayAllocate (N.of_nat strID) entry (Some tr);;;
      walkEntries translations rest (S strID) (S trnID)
  | KPredefined :: rest =>
      tr <- translationAt translations (N.of_nat trnID);;
      mapPredefined (N.of_nat strID) tr;;;
      walkEntries translations rest (S strID) (S trnID)
  end.
(** The state in which the walk starts: the string map filled with the
    empty symbol, the table told the number of strings. *)
Definition walkStart (p : BCProvider) (s : Runtime * RuntimeModule)
    : Runtime * RuntimeModule :=
  (set_identifierTable
     (reserve (getStringCount p) (identifierTable s.1))
     (CallReserve (getStringCount p)) s.1,
   set_stringIDMap
     (replicate (toNat (getStringCount p)) SymbolID_empty) s.2).

(** What follows the walk: the entry made up for an empty table. *)
Definition afterWalk (p : BCProvider) : Method unit :=
  if getStringCount p =? 0 then
    let s := ASCIIRef [] in
    modifyModule
      (fun rm => set_stringIDMap (stringIDMap_ rm ++ [SymbolID_default]) rm);;;
    mapStringMayAllocate2 s (hashString s);;;
    ret tt
  else ret tt.

End InterningSpec.

(** ** Construction, step by step *)

Section CreateSpec.
Context {E : Externals}.

(** The binding as the constructor leaves it, at its fresh address, and the
    runtime once the binding has registered. *)
Definition constructed (domain : DomainPtr) (flags_persistent : bool)
    : RuntimeModule :=
  {| domain_ := domain; persistent := flags_persistent;
     bcProvider_ := None; stringIDMap_ := []; functionMap_ := [];
     objectLiteralHiddenClasses_ := ∅; templateMap_ := [] |}.

Definition registered (domain : DomainPtr) (flags_persistent : bool)
    (r : Runtime) : Runtime :=
  let this := fresh (dom (moduleHeap r)) in
  set_domainModules (domainModules r ++ [(domain, this)])
    (set_runtimeModuleList (runtimeModuleList r ++ [this])
       (set_moduleHeap
          (<[this := constructed domain flags_persistent]> (moduleHeap r)) r)).

(** The status of the CommonJS import that [create] makes for [bytecode]. *)
Definition importStatus (domain : DomainPtr) (bytecode : BCProvider)
    (r : Runtime) : ExecutionStatus :=
  (importCJSModuleTable_Domain domain (fresh (dom (moduleHeap r)))
     (getCJSModuleOffset bytecode) (cjsTables r)).1.

(** The interning of [bytecode] by the binding just constructed. *)
Definition interningOf (domain : DomainPtr) (flags_persistent : bool)
    (bytecode : BCProvider) (r : Runtime) : Res (Runtime * RuntimeModule) unit :=
  importStringIDMapMayAllocate
    (registered domain flags_persistent r,
     set_bcProvider (Some bytecode) (constructed domain flags_persistent)).

End CreateSpec.

(** ** The other members *)

Section OtherMembers.
Context {E : Externals}.

(** [getStringFromStringID(stringID, res)]: [res] is the caller's string; it
    is assigned only when the entry is stored in the narrow encoding, from
    [std::string{s, entry.getLength()}], which copies that many bytes. *)
Definition getStringFromStringID (stringID : N) (res : list N)
    : Method (bool * list N) :=
  entry <- getStringTableEntry stringID;;
  if isUTF16 entry then ret (false, res)
  else
    p <- provider;;
    let strStorage := getStringStorage p in
    chars <- deref (readBytes strStorage (toNat (getOffset entry))
                      (toNat (getLength entry)));;
    ret (true, chars).

(** The calls a binding of the given mode may make on the symbol table: a
    persistent binding registers lazily, any other one looks symbols up
    through the allocating path. *)
Definition callAllowed (persistent : bool) (c : IdentCall) : bool :=
  match c with
  | CallReserve _ => true
  | CallRegisterLazy _ _ _ => persistent
  | CallGetSymbolHandle _ _ _ => negb persistent
  end.

(** A method respects the binding's mode: a run that returns has kept the
    mode and added only calls the mode allows; a run of a persistent
    binding that stops has not stopped in [ignoreAllocationFailure]. *)
Definition respectsMode {A} (m : Method A) : Prop :=
  forall s,
    match m s with
    | Done _ s' =>
        persistent s'.2 = persistent s.2
        /\ exists calls,
             identCalls s'.1 = identCalls s.1 ++ calls
             /\ forallb (callAllowed (persistent s.2)) calls = true
    | Stopped f => persistent s.2 = true -> f = Undefined
    end.
End OtherMembers.

(** ** A lazy child, step by step *)

Section LazySpec.
Context {E : Externals}.

(** The child of [createLazyModule] before it is given its name: a new
    binding over the lazy provider of the function, with one new function
    record in slot 0. *)
Definition newLazyChild (domain : DomainPtr) (pbc : BCProvider)
    (functionID : N) (r : Runtime) : RuntimeModule :=
  set_functionMap [Some (fresh (dom (codeBlockHeap r)))]
    (set_bcProvider (Some (createBCProviderLazy pbc functionID))
       (constructed domain false)).

(** The runtime at that point: the child registered and in the heap, its
    record in the heap. *)
Definition lazyChildCreated (domain : DomainPtr) (pbc : BCProvider)
    (functionID : N) (r : Runtime) : Runtime :=
  set_moduleHeap
    (<[fresh (dom (moduleHeap r)) := newLazyChild domain pbc functionID r]>
       (moduleHeap r))
    (set_codeBlockHeap
       (<[fresh (dom (codeBlockHeap r)) :=
            {| cb_runtimeModule := fresh (dom (moduleHeap r));
               cb_functionID := functionID |}]> (codeBlockHeap r))
       (registered domain false r)).
End LazySpec.

(** * Properties *)

(** ** The literal hidden-class cache *)

Section LiteralCacheFacts.
Context {K : LiteralCacheKey}.
Variable getNumProperties : HiddenClassPtr -> N.

Lemma find_after_tryCache keyBufferIndex clazz rm :
  canGenerateLiteralHiddenClassCacheKey
    keyBufferIndex (getNumProperties clazz) = true ->
  findCachedLiteralHiddenClass keyBufferIndex (getNumProperties clazz)
    (tryCacheLiteralHiddenClass getNumProperties keyBufferIndex clazz rm)
  = Some clazz.
Proof.
  intros Hk. unfold findCachedLiteralHiddenClass, tryCacheLiteralHiddenClass.
  rewrite Hk. simpl. by rewrite lookup_insert_eq.
Qed.

Lemma tryCache_out_of_range keyBufferIndex clazz rm :
  canGenerateLiteralHiddenClassCacheKey
    keyBufferIndex (getNumProperties clazz) = false ->
  tryCacheLiteralHiddenClass getNumProperties keyBufferIndex clazz rm = rm.
Proof. intros Hk. unfold tryCacheLiteralHiddenClass. by rewrite Hk. Qed.

Lemma find_out_of_range keyBufferIndex numLiterals rm :
  canGenerateLiteralHiddenClassCacheKey keyBufferIndex numLiterals = false ->
  findCachedLiteralHiddenClass keyBufferIndex numLiterals rm = None.
Proof. intros Hk. unfold findCachedLiteralHiddenClass. by rewrite Hk. Qed.

(** C7. For a key inside the cacheable range, [tryCache] followed by
    [find] with the same buffer index and the shape's literal count gives
    the shape back; for a key outside the range [tryCache] leaves the
    binding as it was and [find] misses, whatever the cache holds. *)
Theorem literal_cache_round_trip keyBufferIndex numLiterals clazz rm :
  (canGenerateLiteralHiddenClassCacheKey
     keyBufferIndex (getNumProperties clazz) = true ->
   findCachedLiteralHiddenClass keyBufferIndex (getNumProperties clazz)
     (tryCacheLiteralHiddenClass getNumProperties keyBufferIndex clazz rm)
   = Some clazz)
  /\ (canGenerateLiteralHiddenClassCacheKey
        keyBufferIndex (getNumProperties clazz) = false ->
      tryCacheLiteralHiddenClass getNumProperties keyBufferIndex clazz rm = rm)
  /\ (canGenerateLiteralHiddenClassCacheKey keyBufferIndex numLiterals = false ->
      findCachedLiteralHiddenClass keyBufferIndex numLiterals rm = None
      /\ findCachedLiteralHiddenClass keyBufferIndex numLiterals
           (tryCacheLiteralHiddenClass getNumProperties keyBufferIndex clazz rm)
         = None).
Proof.
  split; [apply find_after_tryCache |].
  split; [apply tryCache_out_of_range |].
  intros Hk. split; by apply find_out_of_range.
Qed.
End LiteralCacheFacts.

(** The round trip on a concrete cache: buffer index 5, a shape with three
    properties; and a buffer index too large for a key. *)
Lemma literal_cache_round_trip_sample :
  let props := fun _ : HiddenClassPtr => 3 in
  (findCachedLiteralHiddenClass (K:=Sample.keys) 5 3
     (tryCacheLiteralHiddenClass (K:=Sample.keys) props 5 77 Sample.emptyModule)
   = Some 77)
  /\ tryCacheLiteralHiddenClass (K:=Sample.keys) props 0x1000000 77
       Sample.emptyModule = Sample.emptyModule
  /\ findCachedLiteralHiddenClass (K:=Sample.keys) 0x1000000 3
       Sample.emptyModule = None.
Proof.
  intros props.
  destruct (literal_cache_round_trip (K:=Sample.keys) props 5 3 77
              Sample.emptyModule) as [Hin _].
  destruct (literal_cache_round_trip (K:=Sample.keys) props 0x1000000 3 77
              Sample.emptyModule) as [_ [Hnoop Hmiss]].
  split; [apply Hin; reflexivity |].
  split; [apply Hnoop; reflexivity |].
  apply Hmiss; reflexivity.
Defined.

(** ** Root marking *)

Section MarkingFacts.
Context {E : Externals}.

Lemma markTemplates_recorded tm (acc : list RootEvent) :
  markTemplates tm acc = (tm, acc ++ map (fun it => StrongPtr it.2) tm).
Proof.
  revert acc. induction tm as [|[k p] tm IH]; intros acc; simpl.
  - by rewrite app_nil_r.
  - rewrite IH. simpl. by rewrite <- app_assoc.
Qed.

Lemma markSymbols_recorded symbols (acc : list RootEvent) :
  markSymbols symbols acc
  = acc ++ map StrongSymbol (filter (fun s => isValid s = true) symbols).
Proof.
  revert acc. induction symbols as [|s symbols IH]; intros acc; simpl.
  - by rewrite app_nil_r.
  - rewrite IH, filter_cons. destruct (isValid s) eqn:Hs.
    + rewrite decide_True by done. simpl. by rewrite <- app_assoc.
    + rewrite decide_False by done. done.
Qed.

Lemma set_templateMap_same rm : set_templateMap (templateMap_ rm) rm = rm.
Proof. by destruct rm. Qed.

(** What a strong pass shows to the visitor. *)
Lemma markRoots_recorded markLongLived rm (acc : list RootEvent) :
  markRoots markLongLived rm acc
  = (rm,
     acc ++ map (fun it => StrongPtr it.2) (templateMap_ rm)
         ++ (if markLongLived
             then map StrongSymbol
                    (filter (fun s => isValid s = true) (stringIDMap_ rm))
             else [])).
Proof.
  unfold markRoots. rewrite markTemplates_recorded. simpl.
  rewrite set_templateMap_same. destruct markLongLived.
  - by rewrite markSymbols_recorded, <- app_assoc.
  - by rewrite app_nil_r.
Qed.

Lemma markLiteralClasses_recorded entries cache (acc : list RootEvent) :
  (markLiteralClasses entries cache acc).2
  = acc ++ map WeakHiddenClass (omap snd entries).
Proof.
  revert cache acc.
  induction entries as [|[k [clazz|]] entries IH]; intros cache acc; simpl.
  - by rewrite app_nil_r.
  - rewrite IH. by rewrite <- app_assoc.
  - apply IH.
Qed.

Lemma markOwnedCodeBlocks_recorded r this blocks (acc acc' : list RootEvent) :
  markOwnedCodeBlocks r this blocks acc = Some acc' ->
  exists evs, acc' = acc ++ evs.
Proof.
  revert acc. induction blocks as [|[cb|] blocks IH]; intros acc; simpl.
  - intros [= <-]. exists []. by rewrite app_nil_r.
  - destruct (getRuntimeModule r cb) as [owner|]; [|done].
    intros Hrest. apply IH in Hrest as [evs ->].
    destruct (decide (owner = this)); simpl.
    + eexists. by rewrite <- app_assoc.
    + by eexists.
  - apply IH.
Qed.

Lemma markOwnedCodeBlocks_live r this blocks (acc : list RootEvent) :
  (forall cb, Some cb ∈ blocks -> is_Some (codeBlockHeap r !! cb)) ->
  is_Some (markOwnedCodeBlocks r this blocks acc).
Proof.
  revert acc. induction blocks as [|[cb|] blocks IH]; intros acc Hlive; simpl.
  - by eexists.
  - destruct (Hlive cb) as [blk Hblk]; [by left|].
    unfold getRuntimeModule. rewrite Hblk. simpl.
    apply IH. intros cb' Hcb'. apply Hlive. by right.
  - apply IH. intros cb' Hcb'. apply Hlive. by right.
Qed.

(** C1 (amended). A strong pass accepts the values of the template map on
    every pass and the valid symbols of the string map on a long-lived
    pass, and nothing else; it leaves the literal hidden-class cache as it
    is and accepts none of its values. The cache's non-null values are
    shown to the visitor by the weak pass, as weak slots. *)
Theorem markRoots_accepts markLongLived rm :
  (markRoots markLongLived rm []).2
  = map (fun it => StrongPtr it.2) (templateMap_ rm)
    ++ (if markLongLived
        then map StrongSymbol
               (filter (fun s => isValid s = true) (stringIDMap_ rm))
        else [])
  /\ objectLiteralHiddenClasses_ (markRoots markLongLived rm []).1
     = objectLiteralHiddenClasses_ rm
  /\ (forall clazz,
        WeakHiddenClass clazz ∉ (markRoots markLongLived rm []).2)
  /\ (forall r this,
        (forall cb, Some cb ∈ functionMap_ rm ->
                    is_Some (codeBlockHeap r !! cb)) ->
        exists rm' events,
          markWeakRoots r this rm [] = Some (rm', events)
          /\ forall key clazz,
               objectLiteralHiddenClasses_ rm !! key = Some (Some clazz) ->
               WeakHiddenClass clazz ∈ events).
Proof.
  rewrite markRoots_recorded. simpl. repeat split.
  - intros clazz Hin. apply elem_of_app in Hin as [Hin|Hin].
    + apply list_elem_of_fmap in Hin as [it [Heq _]]. discriminate.
    + destruct markLongLived; [|by apply elem_of_nil in Hin].
      apply list_elem_of_fmap in Hin as [it [Heq _]]. discriminate.
  - intros r this Hlive. unfold markWeakRoots.
    destruct (markOwnedCodeBlocks_live r this (functionMap_ rm) [] Hlive)
      as [acc1 Hacc1].
    rewrite Hacc1. eexists _, _. split; [reflexivity|].
    intros key clazz Hkey. rewrite markLiteralClasses_recorded.
    apply elem_of_app. right. apply list_elem_of_fmap.
    exists clazz. split; [done|].
    apply list_elem_of_omap. exists (key, Some clazz). split; [|done].
    by apply elem_of_map_to_list.
Qed.
End MarkingFacts.

(** A binding whose cache holds one shape: neither kind of strong pass shows
    the shape to the visitor. *)
Lemma markRoots_skips_literal_cache :
  let rm := set_objectLiteralHiddenClasses {[ 5 := Some 77 ]} Sample.emptyModule in
  objectLiteralHiddenClasses_ rm !! 5 = Some (Some 77)
  /\ (markRoots (E:=Sample.externals 0 None) true rm []).2 = []
  /\ (markRoots (E:=Sample.externals 0 None) false rm []).2 = [].
Proof. vm_compute. repeat split. Qed.

(** ** Reasoning about methods *)

Lemma bind_Done {S A B} (m : M S A) (k : A -> M S B) s a s' :
  m s = Done a s' -> bind m k s = k a s'.
Proof. unfold bind. by intros ->. Qed.

Lemma bind_Stopped {S A B} (m : M S A) (k : A -> M S B) s f :
  m s = Stopped f -> bind m k s = Stopped f.
Proof. unfold bind. by intros ->. Qed.

Lemma bind_inv {S A B} (m : M S A) (k : A -> M S B) s b s'' :
  bind m k s = Done b s'' ->
  exists a s', m s = Done a s' /\ k a s' = Done b s''.
Proof. unfold bind. destruct (m s) as [a s'|f]; [eauto | done]. Qed.

Lemma bind_ret {S A B} (a : A) (k : A -> M S B) s : bind (ret a) k s = k a s.
Proof. reflexivity. Qed.

Lemma bind_gets {S A B} (g : S -> A) (k : A -> M S B) s :
  bind (gets g) k s = k (g s) s.
Proof. reflexivity. Qed.

Lemma bind_modify {S B} (g : S -> S) (k : unit -> M S B) s :
  bind (modify g) k s = k tt (g s).
Proof. reflexivity. Qed.

Lemma bind_deref_Some {S A B} (a : A) (k : A -> M S B) s :
  bind (deref (Some a)) k s = k a s.
Proof. reflexivity. Qed.

Lemma preserves_ret {S A X} (f : S -> X) (a : A) : preserves f (ret a).
Proof. by intros s a' s' [= _ <-]. Qed.

Lemma preserves_stop {S A X} (f : S -> X) fault : preserves f (@stop S A fault).
Proof. by intros s a s'. Qed.

Lemma preserves_gets {S A X} (f : S -> X) (g : S -> A) : preserves f (gets g).
Proof. by intros s a s' [= _ <-]. Qed.

Lemma preserves_deref {S A X} (f : S -> X) (o : option A) :
  preserves f (deref o).
Proof. destruct o; [apply preserves_ret | apply preserves_stop]. Qed.

Lemma preserves_modify {S X} (f : S -> X) (g : S -> S) :
  (forall s, f (g s) = f s) -> preserves f (modify g).
Proof. intros Hg s a s' [= _ <-]. apply Hg. Qed.

Lemma preserves_bind {S A B X} (f : S -> X) (m : M S A) (k : A -> M S B) :
  preserves f m -> (forall a, preserves f (k a)) -> preserves f (bind m k).
Proof.
  intros Hm Hk s b s'' Hrun.
  apply bind_inv in Hrun as (a & s' & Hm' & Hk').
  rewrite (Hk _ _ _ _ Hk'). eapply Hm, Hm'.
Qed.

Create HintDb frame.
#[global] Hint Resolve preserves_ret preserves_stop preserves_gets
  preserves_deref : frame.

Ltac frame_step :=
  first
    [ solve [auto with frame]
    | apply preserves_bind; [| intros ?]
    | apply preserves_ret
    | apply preserves_stop
    | apply preserves_gets
    | apply preserves_deref
    | match goal with
      | |- preserves _ (if ?b then _ else _) => destruct b
      | |- preserves _ (match ?x with _ => _ end) => destruct x
      end ].

Ltac frame := repeat frame_step; eauto with frame.

Section Frames.
Context {E : Externals} {X : Type}.
Variable f : Runtime * RuntimeModule -> X.
(** [f] looks neither at the symbol table nor at the string map. *)
Hypothesis f_table :
  forall r rm t c, f (set_identifierTable t c r, rm) = f (r, rm).
Hypothesis f_strings :
  forall r rm m, f (r, set_stringIDMap m rm) = f (r, rm).

Lemma provider_frame : preserves f provider.
Proof. unfold provider, getModule. frame. Qed.

Lemma storeSymbol_frame stringID id : preserves f (storeSymbol stringID id).
Proof.
  unfold storeSymbol, getModule, modifyModule. frame.
  apply preserves_modify. intros [r rm]. apply f_strings.
Qed.

Lemma mapStringMayAllocate_frame str stringID hash :
  preserves f (mapStringMayAllocate str stringID hash).
Proof.
  pose proof storeSymbol_frame.
  unfold mapStringMayAllocate, callRegisterLazyIdentifier,
    callGetSymbolHandle, callIgnoreAllocationFailure, getModule, getRuntime,
    modifyRuntime.
  frame; apply preserves_modify; intros [r rm]; apply f_table.
Qed.

Lemma createSymbol_frame stringID entry mhash :
  preserves f (createSymbolFromStringIDMayAllocate stringID entry mhash).
Proof.
  pose proof provider_frame. pose proof mapStringMayAllocate_frame.
  unfold createSymbolFromStringIDMayAllocate. frame.
Qed.

Lemma identifierRun_frame trs n strID trnID :
  preserves f (identifierRun trs n strID trnID).
Proof.
  pose proof provider_frame. pose proof createSymbol_frame.
  revert strID trnID. induction n as [|n IH]; intros strID trnID; simpl.
  - frame.
  - unfold getStringTableEntry, translationAt. frame.
Qed.

Lemma predefinedRun_frame trs n strID trnID :
  preserves f (predefinedRun trs n strID trnID).
Proof.
  pose proof storeSymbol_frame.
  revert strID trnID. induction n as [|n IH]; intros strID trnID; simpl.
  - frame.
  - unfold translationAt, mapPredefined. frame.
Qed.

Lemma walkKinds_frame trs kinds strID trnID :
  preserves f (walkKinds trs kinds strID trnID).
Proof.
  pose proof identifierRun_frame. pose proof predefinedRun_frame.
  revert strID trnID.
  induction kinds as [|entry kinds IH]; intros strID trnID; simpl.
  - frame.
  - frame.
Qed.

Lemma importStringIDMap_frame : preserves f importStringIDMapMayAllocate.
Proof.
  pose proof provider_frame. pose proof walkKinds_frame.
  pose proof mapStringMayAllocate_frame.
  unfold importStringIDMapMayAllocate, callReserve, mapStringMayAllocate2,
    modifyModule, modifyRuntime.
  frame; apply preserves_modify; intros [r rm]; simpl; auto.
Qed.
End Frames.

(** ** Running the primitive steps *)

Section Runs.
Context {E : Externals}.

Lemma getModule_run s : getModule s = Done s.2 s.
Proof. reflexivity. Qed.

Lemma getRuntime_run s : getRuntime s = Done s.1 s.
Proof. reflexivity. Qed.

Lemma modifyModule_run g s : modifyModule g s = Done tt (s.1, g s.2).
Proof. reflexivity. Qed.

Lemma modifyRuntime_run g s : modifyRuntime g s = Done tt (g s.1, s.2).
Proof. reflexivity. Qed.

Lemma provider_run p s : bcProvider_ s.2 = Some p -> provider s = Done p s.
Proof.
  intros Hp. unfold provider. rewrite (bind_Done _ _ _ _ _ (getModule_run s)).
  by rewrite Hp.
Qed.

Lemma loadFunction_run i v s :
  functionMap_ s.2 !! i = Some v -> loadFunction i s = Done v s.
Proof.
  intros Hv. unfold loadFunction.
  rewrite (bind_Done _ _ _ _ _ (getModule_run s)). by rewrite Hv.
Qed.

Lemma storeFunction_run i v s :
  (i < length (functionMap_ s.2))%nat ->
  storeFunction i v s
  = Done tt (s.1, set_functionMap (<[i := v]> (functionMap_ s.2)) s.2).
Proof.
  intros Hi. unfold storeFunction.
  rewrite (bind_Done _ _ _ _ _ (getModule_run s)).
  by rewrite decide_True.
Qed.

Lemma storeSymbol_run i id s :
  (toNat i < length (stringIDMap_ s.2))%nat ->
  storeSymbol i id s
  = Done tt (s.1, set_stringIDMap (<[toNat i := id]> (stringIDMap_ s.2)) s.2).
Proof.
  intros Hi. unfold storeSymbol.
  rewrite (bind_Done _ _ _ _ _ (getModule_run s)).
  by rewrite decide_True.
Qed.

Lemma storeSymbol_out_of_range i id s :
  (length (stringIDMap_ s.2) <= toNat i)%nat ->
  storeSymbol i id s = Stopped Undefined.
Proof.
  intros Hi. unfold storeSymbol.
  rewrite (bind_Done _ _ _ _ _ (getModule_run s)).
  rewrite decide_False by lia. reflexivity.
Qed.

Lemma import_keeps_functionMap s s' :
  importStringIDMapMayAllocate s = Done tt s' ->
  functionMap_ s'.2 = functionMap_ s.2.
Proof.
  apply (importStringIDMap_frame (fun s => functionMap_ s.2)); done.
Qed.

Lemma import_keeps_bcProvider s s' :
  importStringIDMapMayAllocate s = Done tt s' ->
  bcProvider_ s'.2 = bcProvider_ s.2.
Proof.
  apply (importStringIDMap_frame (fun s => bcProvider_ s.2)); done.
Qed.

(** Initialisation returns as soon as the interning does. *)
Lemma initializeWithoutCJS_run bytecode s s1 :
  importStringIDMapMayAllocate (s.1, set_bcProvider (Some bytecode) s.2)
  = Done tt s1 ->
  initializeWithoutCJSModulesMayAllocate bytecode s
  = Done tt
      (s1.1,
       set_functionMap
         (resize (toNat (getFunctionCount bytecode)) None (functionMap_ s1.2))
         s1.2).
Proof.
  intros Himport. pose proof (import_keeps_bcProvider _ _ Himport) as Hbc.
  simpl in Hbc.
  unfold initializeWithoutCJSModulesMayAllocate.
  rewrite (bind_Done _ _ _ _ _ (modifyModule_run _ s)).
  rewrite (bind_Done _ _ _ _ _ Himport).
  unfold initializeFunctionMap.
  rewrite (bind_Done _ _ _ _ _ (provider_run _ _ Hbc)).
  reflexivity.
Qed.

Lemma initializeWithoutCJS_inv bytecode s s2 :
  initializeWithoutCJSModulesMayAllocate bytecode s = Done tt s2 ->
  exists s1,
    importStringIDMapMayAllocate (s.1, set_bcProvider (Some bytecode) s.2)
    = Done tt s1.
Proof.
  unfold initializeWithoutCJSModulesMayAllocate. intros Hrun.
  rewrite (bind_Done _ _ _ _ _ (modifyModule_run _ s)) in Hrun.
  apply bind_inv in Hrun as ([] & s1 & Himport & _). eauto.
Qed.
End Runs.

(** ** Lazy function materialisation *)

Section LazyFacts.
Context {E : Externals}.

(** Moving the record of slot 0 to slot [g]. *)
Lemma retarget_slots (cb : CBPtr) (n g : nat) :
  g <> 0%nat ->
  <[0%nat := None]> (<[g := Some cb]> (Some cb :: replicate n None))
  = <[g := Some cb]> (replicate (S n) (@None CBPtr)).
Proof. destruct g as [|g]; [done|]. intros _. reflexivity. Qed.

Lemma one_entry_lookup (cb : CBPtr) (n g i : nat) (slot : CBPtr) :
  (g < n)%nat ->
  <[g := Some cb]> (replicate n (@None CBPtr)) !! i = Some (Some slot)
  <-> i = g /\ slot = cb.
Proof.
  intros Hg. destruct (decide (i = g)) as [->|Hne].
  - rewrite list_lookup_insert_eq by (by rewrite length_replicate).
    split; [by intros [= ->] | by intros [_ ->]].
  - rewrite list_lookup_insert_ne by done. split; [|by intros [? _]].
    intros Hl. apply lookup_replicate in Hl as [? _]. done.
Qed.

(** C6. A lazy child holds its one record in slot 0. When its function
    has been compiled (the interning of the new string table having
    returned), [initializeLazyMayAllocate] returns with a function map of
    the provider's function count that is null everywhere but at the
    provider's global function index, where the record now is: the record
    was moved there from slot 0, or was left in place when that index is
    0. *)
Theorem lazy_child_retargets (bytecode : BCProvider) (cb : CBPtr) s s1 :
  functionMap_ s.2 = [Some cb] ->
  getGlobalFunctionIndex bytecode < getFunctionCount bytecode ->
  importStringIDMapMayAllocate
    (s.1, set_bcProvider (Some bytecode) (set_bcProvider None s.2))
  = Done tt s1 ->
  exists s',
    initializeLazyMayAllocate bytecode s = Done tt s'
    /\ s'.1 = s1.1
    /\ stringIDMap_ s'.2 = stringIDMap_ s1.2
    /\ functionMap_ s'.2
       = <[toNat (getGlobalFunctionIndex bytecode) := Some cb]>
           (replicate (toNat (getFunctionCount bytecode)) None)
    /\ (getGlobalFunctionIndex bytecode = 0 ->
        functionMap_ s'.2
        = resize (toNat (getFunctionCount bytecode)) None (functionMap_ s.2))
    /\ forall i slot,
         functionMap_ s'.2 !! i = Some (Some slot)
         <-> i = toNat (getGlobalFunctionIndex bytecode) /\ slot = cb.
Proof.
  intros Hmap Hlt Himport.
  pose proof (import_keeps_functionMap _ _ Himport) as Hfm.
  pose proof (import_keeps_bcProvider _ _ Himport) as Hbc.
  simpl in Hfm, Hbc. rewrite Hmap in Hfm.
  assert (exists n, toNat (getFunctionCount bytecode) = S n) as [n Hn].
  { exists (pred (toNat (getFunctionCount bytecode))). unfold toNat. lia. }
  pose proof (initializeWithoutCJS_run bytecode
                (s.1, set_bcProvider None s.2) s1 Himport) as Hinit.
  rewrite Hfm, Hn in Hinit. simpl in Hinit. rewrite resize_nil in Hinit.
  unfold initializeLazyMayAllocate.
  rewrite (bind_Done _ _ _ _ _ (modifyModule_run _ s)).
  rewrite (bind_Done _ _ _ _ _ Hinit).
  erewrite bind_Done by (apply provider_run; exact Hbc).
  rewrite Hmap, Hn. simpl resize. rewrite resize_nil.
  destruct (getGlobalFunctionIndex bytecode =? 0) eqn:Hz.
  - apply N.eqb_eq in Hz. rewrite Hz.
    eexists. split; [reflexivity|]. simpl.
    split; [done|]. split; [done|]. split; [done|]. split; [done|].
    intros i slot.
    change (Some cb :: replicate n None)
      with (<[0%nat := Some cb]> (replicate (S n) (@None CBPtr))).
    apply one_entry_lookup. lia.
  - apply N.eqb_neq in Hz.
    assert (toNat (getGlobalFunctionIndex bytecode) <> 0%nat) as Hg
      by (unfold toNat; lia).
    assert (toNat (getGlobalFunctionIndex bytecode) < S n)%nat as Hgn
      by (unfold toNat in *; lia).
    erewrite bind_Done by (by apply loadFunction_run).
    erewrite bind_Done
      by (apply storeFunction_run; simpl; rewrite length_replicate; lia).
    rewrite storeFunction_run
      by (simpl; rewrite length_insert; simpl; rewrite length_replicate; lia).
    eexists. split; [reflexivity|]. simpl.
    rewrite retarget_slots by done.
    split; [done|]. split; [done|]. split; [done|]. split; [done|].
    intros i slot. by apply one_entry_lookup.
Qed.
End LazyFacts.

(** C9. The display name of a lazy binding's function: with the name symbol
    in slot 0 of the string map, [getLazyNameString] returns [true] and the
    characters of the symbol's string view exactly when the view is in the
    narrow encoding; otherwise it returns [false] and leaves the caller's
    string as it was. The state is not changed. *)
Theorem lazy_name_string {E : Externals} (res : list N) (sym : SymbolID) s :
  stringIDMap_ s.2 !! 0%nat = Some sym ->
  let strView := getStringView (identifierTable s.1) sym in
  getLazyNameString res s
  = Done (sv_isASCII strView, if sv_isASCII strView then sv_chars strView else res) s.
Proof.
  intros Hsym strView. unfold getLazyNameString.
  rewrite (bind_Done _ _ _ _ _ (getModule_run s)).
  rewrite (bind_Done _ _ _ _ _ (getRuntime_run s)).
  rewrite Hsym. unfold bind, deref, ret. fold strView.
  by destruct (sv_isASCII strView).
Qed.

(** ** Teardown *)

Section TeardownFacts.
Context {E : Externals}.

Lemma set_functionMap_same rm : set_functionMap (functionMap_ rm) rm = rm.
Proof. by destruct rm. Qed.

Lemma set_functionMap_twice m1 m2 rm :
  set_functionMap m1 (set_functionMap m2 rm) = set_functionMap m1 rm.
Proof. reflexivity. Qed.

Lemma intOfSize_small n : N.of_nat n < 2 ^ 31 -> intOfSize n = n.
Proof.
  intros Hn. unfold intOfSize.
  rewrite N.mod_small by (change (2 ^ 32) with 4294967296;
                          change (2 ^ 31) with 2147483648 in Hn; lia).
  apply N.ltb_lt in Hn. rewrite Hn. unfold toNat. lia.
Qed.

(** One iteration of the loop at a live slot. *)
Lemma scrub_step this i slot (k : unit -> Method unit) r rm :
  functionMap_ rm !! i = Some slot ->
  (forall block, slot = Some block -> is_Some (codeBlockHeap r !! block)) ->
  bind (match slot with
        | None => ret tt
        | Some block =>
            r <- getRuntime;;
            owner <- deref (getRuntimeModule r block);;
            if decide (owner <> this) then storeFunction i None else ret tt
        end) k (r, rm)
  = k tt (r, set_functionMap (<[i := scrubbed r this slot]> (functionMap_ rm)) rm).
Proof.
  intros Hslot Hlive.
  assert (i < length (functionMap_ rm))%nat as Hi by (by eapply lookup_lt_Some).
  destruct slot as [block|]; simpl.
  - destruct (Hlive block eq_refl) as [cb Hcb].
    assert (getRuntimeModule r block = Some (cb_runtimeModule cb)) as Howner
      by (unfold getRuntimeModule; by rewrite Hcb).
    erewrite bind_Done; [reflexivity|].
    rewrite (bind_Done _ _ _ _ _ (getRuntime_run _)). simpl.
    rewrite Howner. simpl. unfold bind at 1. simpl.
    destruct (decide (cb_runtimeModule cb <> this)) as [Hne|Heq].
    + rewrite decide_False by congruence. by apply storeFunction_run.
    + apply dec_stable in Heq. rewrite decide_True by congruence.
      rewrite list_insert_id by done. by rewrite set_functionMap_same.
  - rewrite list_insert_id by done. by rewrite set_functionMap_same.
Qed.

Lemma scrubLoop_run this r steps : forall i rm,
  (i + steps <= length (functionMap_ rm))%nat ->
  (forall block, Some block ∈ functionMap_ rm ->
                 is_Some (codeBlockHeap r !! block)) ->
  exists fm',
    scrubLoop this i steps (r, rm) = Done tt (r, set_functionMap fm' rm)
    /\ length fm' = length (functionMap_ rm)
    /\ forall j,
         fm' !! j
         = if decide (i <= j < i + steps)%nat
           then scrubbed r this <$> functionMap_ rm !! j
           else functionMap_ rm !! j.
Proof.
  induction steps as [|steps IH]; intros i rm Hlen Hlive.
  - exists (functionMap_ rm). rewrite set_functionMap_same.
    split; [done|]. split; [done|]. intros j. rewrite decide_False by lia. done.
  - destruct (lookup_lt_is_Some_2 (functionMap_ rm) i) as [slot Hslot]; [lia|].
    simpl scrubLoop.
    rewrite (bind_Done _ _ _ _ _ (loadFunction_run i slot (r, rm) Hslot)).
    rewrite (scrub_step this i slot _ r rm Hslot).
    2:{ intros block ->. apply Hlive. by eapply list_elem_of_lookup_2. }
    set (rm1 := set_functionMap _ rm).
    destruct (IH (S i) rm1) as (fm' & Hrun & Hlen' & Hlook).
    { simpl. rewrite length_insert. lia. }
    { simpl. intros block Hin. apply list_elem_of_lookup in Hin as [j Hj].
      destruct (decide (j = i)) as [->|Hne].
      - rewrite list_lookup_insert_eq in Hj by lia.
        injection Hj as Hj. destruct slot as [b|]; [|done]. simpl in Hj.
        destruct (decide _); [|done]. injection Hj as ->.
        apply Hlive. by eapply list_elem_of_lookup_2.
      - rewrite list_lookup_insert_ne in Hj by done.
        apply Hlive. by eapply list_elem_of_lookup_2. }
    exists fm'. rewrite Hrun. subst rm1. simpl in *.
    split; [done|]. split; [by rewrite Hlen', length_insert|].
    intros j. rewrite Hlook. destruct (decide (j = i)) as [->|Hne].
    + rewrite list_lookup_insert_eq by lia. rewrite Hslot.
      repeat case_decide; try lia; done.
    + rewrite list_lookup_insert_ne by done.
      repeat case_decide; try lia; done.
Qed.

(** Teardown leaves, in every slot, what [scrubbed] says. *)
Lemma prepareForRuntimeShutdown_run this r rm :
  N.of_nat (length (functionMap_ rm)) < 2 ^ 31 ->
  (forall block, Some block ∈ functionMap_ rm ->
                 is_Some (codeBlockHeap r !! block)) ->
  prepareForRuntimeShutdown this (r, rm)
  = Done tt (r, set_functionMap (scrubbed r this <$> functionMap_ rm) rm).
Proof.
  intros Hsize Hlive. unfold prepareForRuntimeShutdown.
  rewrite (bind_Done _ _ _ _ _ (getModule_run _)). simpl.
  rewrite intOfSize_small by done.
  destruct (scrubLoop_run this r (length (functionMap_ rm)) 0%nat rm)
    as (fm' & Hrun & Hlen & Hlook); [lia | done |].
  rewrite Hrun. do 3 f_equal. apply list_eq. intros j.
  rewrite Hlook, list_lookup_fmap.
  destruct (decide (0 <= j < 0 + length (functionMap_ rm))%nat) as [|Hout];
    [done|].
  rewrite lookup_ge_None_2 by lia. done.
Qed.
Lemma scrubbed_idem r this slot :
  scrubbed r this (scrubbed r this slot) = scrubbed r this slot.
Proof.
  destruct slot as [block|]; [|done]. simpl.
  destruct (decide _) as [Heq|]; [|done]. simpl. by rewrite decide_True.
Qed.

Lemma ownedBlocks_scrubbed r this blocks :
  ownedBlocks r this (scrubbed r this <$> blocks) = ownedBlocks r this blocks.
Proof.
  unfold ownedBlocks. induction blocks as [|slot blocks IH]; [done|].
  csimpl. rewrite scrubbed_idem. by rewrite IH.
Qed.

Lemma ownedBlocks_ext r r' this blocks :
  (forall block, Some block ∈ blocks ->
                 getRuntimeModule r' block = getRuntimeModule r block) ->
  ownedBlocks r' this blocks = ownedBlocks r this blocks.
Proof.
  unfold ownedBlocks. induction blocks as [|slot blocks IH]; intros Hext; [done|].
  csimpl. rewrite IH by (intros block Hin; apply Hext; by right).
  destruct slot as [block|]; [|done]. simpl.
  by rewrite (Hext block) by (by left).
Qed.

(** The owned records are the non-null slots whose owner is [this]. *)
Lemma elem_of_ownedBlocks r this blocks block :
  block ∈ ownedBlocks r this blocks
  <-> Some block ∈ blocks /\ getRuntimeModule r block = Some this.
Proof.
  unfold ownedBlocks. rewrite list_elem_of_omap. split.
  - intros [[b|] [Hin Hs]]; [|done]. simpl in Hs.
    destruct (decide _) as [Hown|]; [|done]. injection Hs as ->. done.
  - intros [Hin Hown]. exists (Some block). split; [done|]. simpl.
    by rewrite decide_True.
Qed.

Lemma set_codeBlockHeap_same r : set_codeBlockHeap (codeBlockHeap r) r = r.
Proof. by destruct r. Qed.

(** The destructor's loop deletes the owned records, in slot order, and
    touches nothing else. *)
Lemma deleteOwned_run this blocks : forall r,
  (forall block, Some block ∈ blocks -> is_Some (codeBlockHeap r !! block)) ->
  NoDup (ownedBlocks r this blocks) ->
  exists heap',
    deleteOwned this blocks r
    = Done (ownedBlocks r this blocks) (set_codeBlockHeap heap' r)
    /\ forall x,
         heap' !! x
         = if decide (x ∈ ownedBlocks r this blocks) then None
           else codeBlockHeap r !! x.
Proof.
  induction blocks as [|[block|] blocks IH]; intros r Hlive Hnodup.
  - exists (codeBlockHeap r). rewrite set_codeBlockHeap_same.
    split; [done|]. intros x. rewrite decide_False; [done|].
    unfold ownedBlocks. simpl. apply not_elem_of_nil.
  - destruct (Hlive block) as [cb Hcb]; [by left|].
    assert (getRuntimeModule r block = Some (cb_runtimeModule cb)) as Howner
      by (unfold getRuntimeModule; by rewrite Hcb).
    simpl deleteOwned. rewrite bind_gets. unfold id at 1. rewrite Howner.
    rewrite bind_deref_Some.
    destruct (decide (cb_runtimeModule cb = this)) as [Hthis|Hother].
    + assert (ownedBlocks r this (Some block :: blocks)
              = block :: ownedBlocks r this blocks) as Hcons.
      { unfold ownedBlocks. simpl. rewrite decide_True by congruence. done. }
      rewrite Hcons in *. apply NoDup_cons in Hnodup as [Hfresh Hnodup].
      assert (forall x, Some x ∈ blocks -> x <> block) as Hdistinct.
      { intros x Hin ->. apply Hfresh. apply elem_of_ownedBlocks.
        split; [done|]. congruence. }
      unfold deleteCodeBlock. rewrite bind_modify.
      set (r1 := set_codeBlockHeap (delete block (codeBlockHeap r)) r).
      assert (forall x, Some x ∈ blocks ->
                getRuntimeModule r1 x = getRuntimeModule r x) as Hext.
      { intros x Hin. unfold getRuntimeModule, r1. simpl.
        rewrite lookup_delete_ne; [done|]. apply not_eq_sym. by apply Hdistinct. }
      destruct (IH r1) as (heap' & Hrun & Hheap).
      { intros x Hin. unfold r1. simpl.
        rewrite lookup_delete_ne by (apply not_eq_sym; by apply Hdistinct).
        apply Hlive. by right. }
      { by rewrite (ownedBlocks_ext r r1). }
      rewrite (ownedBlocks_ext r r1) in Hrun, Hheap by done.
      rewrite (bind_Done _ _ _ _ _ Hrun). exists heap'. split; [done|].
      intros x. rewrite Hheap. unfold r1. simpl.
      destruct (decide (x = block)) as [->|Hne].
      * rewrite (decide_True (P := block ∈ block :: _)) by (by left).
        case_decide; [done|]. by rewrite lookup_delete_eq.
      * rewrite lookup_delete_ne by done.
        repeat case_decide; try done.
        -- exfalso. match goal with H : ¬ _ |- _ => apply H end. by right.
        -- exfalso. match goal with H : _ ∈ _ :: _ |- _ =>
             apply elem_of_cons in H as [?|?] end; done.
    + assert (ownedBlocks r this (Some block :: blocks)
              = ownedBlocks r this blocks) as Hcons.
      { unfold ownedBlocks. simpl. rewrite decide_False by congruence. done. }
      rewrite Hcons in *. apply IH; [|done].
      intros x Hin. apply Hlive. by right.
  - apply IH; [|done]. intros x Hin. apply Hlive. by right.
Qed.
Lemma onModule_run {A} this (m : Method A) r rm a s' :
  moduleHeap r !! this = Some rm ->
  m (r, rm) = Done a s' ->
  onModule this m r
  = Done a (set_moduleHeap (<[this := s'.2]> (moduleHeap s'.1)) s'.1).
Proof. intros Hthis Hrun. unfold onModule. by rewrite Hthis, Hrun. Qed.

(** C4. A binding [this] with a function map of fewer than 2^31 slots, each
    null or pointing to a live record, the records it owns being pairwise
    distinct. [prepareForRuntimeShutdown] returns and deletes nothing; it
    nulls every slot that held a record of another binding and leaves the
    slots holding a record of [this], and the null slots, as they were. The
    destructor then returns having deleted, in slot order, exactly the
    records of the map that [this] owns, each once: they are gone from the
    heap, every other record is still there, and the binding has left the
    runtime's list. *)
Theorem teardown_deletes_owned r this rm :
  moduleHeap r !! this = Some rm ->
  N.of_nat (length (functionMap_ rm)) < 2 ^ 31 ->
  (forall block, Some block ∈ functionMap_ rm ->
                 is_Some (codeBlockHeap r !! block)) ->
  NoDup (ownedBlocks r this (functionMap_ rm)) ->
  exists r1 rm1 r2,
    onModule this (prepareForRuntimeShutdown this) r = Done tt r1
    /\ moduleHeap r1 !! this = Some rm1
    /\ codeBlockHeap r1 = codeBlockHeap r
    /\ length (functionMap_ rm1) = length (functionMap_ rm)
    /\ (forall i block owner,
          functionMap_ rm !! i = Some (Some block) ->
          getRuntimeModule r block = Some owner ->
          functionMap_ rm1 !! i
          = Some (if decide (owner = this) then Some block else None))
    /\ (forall i, functionMap_ rm !! i = Some None ->
                  functionMap_ rm1 !! i = Some None)
    /\ destroy this r1 = Done (ownedBlocks r this (functionMap_ rm)) r2
    /\ (forall block,
          block ∈ ownedBlocks r this (functionMap_ rm)
          <-> Some block ∈ functionMap_ rm
              /\ getRuntimeModule r block = Some this)
    /\ (forall block,
          codeBlockHeap r2 !! block
          = if decide (block ∈ ownedBlocks r this (functionMap_ rm))
            then None else codeBlockHeap r !! block)
    /\ this ∉ runtimeModuleList r2.
Proof.
  intros Hthis Hsize Hlive Hnodup.
  pose proof (prepareForRuntimeShutdown_run this r rm Hsize Hlive) as Hprep.
  set (rm1 := set_functionMap (scrubbed r this <$> functionMap_ rm) rm) in *.
  set (r1 := set_moduleHeap (<[this := rm1]> (moduleHeap r)) r).
  set (r1' := set_runtimeModuleList
                (filter (fun m => m <> this) (runtimeModuleList r1))
                (set_moduleHeap (<[this := rm1]> (moduleHeap r1)) r1)).
  assert (forall block, getRuntimeModule r1' block = getRuntimeModule r block)
    as Hsame by reflexivity.
  assert (ownedBlocks r1' this (functionMap_ rm1)
          = ownedBlocks r this (functionMap_ rm)) as Howned.
  { rewrite (ownedBlocks_ext r r1') by (intros; apply Hsame).
    apply ownedBlocks_scrubbed. }
  destruct (deleteOwned_run this (functionMap_ rm1) r1')
    as (heap' & Hdel & Hheap).
  { simpl. intros block Hin. apply list_elem_of_fmap in Hin as [slot [Hs Hin]].
    destruct slot as [b|]; [|done]. simpl in Hs.
    destruct (decide _); [|done]. injection Hs as ->. by apply Hlive. }
  { by rewrite Howned. }
  rewrite Howned in Hdel, Hheap.
  exists r1, rm1, (set_codeBlockHeap heap' r1').
  split; [exact (onModule_run this _ r rm tt _ Hthis Hprep)|].
  split; [apply lookup_insert_eq|].
  split; [reflexivity|].
  split; [simpl; by rewrite length_fmap|].
  split.
  { intros i block owner Hslot Howner. simpl.
    rewrite list_lookup_fmap, Hslot. simpl. rewrite Howner.
    f_equal. by repeat case_decide; simplify_eq. }
  split.
  { intros i Hslot. simpl. by rewrite list_lookup_fmap, Hslot. }
  split.
  { unfold destroy.
    erewrite bind_Done;
      [| eapply (onModule_run this getModule r1 rm1);
         [apply lookup_insert_eq | apply getModule_run]].
    rewrite bind_modify. exact Hdel. }
  split; [apply elem_of_ownedBlocks|].
  split; [exact Hheap|].
  simpl. intros Hin. apply list_elem_of_filter in Hin as [Hne _]. done.
Qed.
End TeardownFacts.

(** ** Interning *)

Lemma bind_assoc {S A B C} (m : M S A) (k1 : A -> M S B) (k2 : B -> M S C) s :
  bind (bind m k1) k2 s = bind m (fun a => bind (k1 a) k2) s.
Proof. unfold bind. by destruct (m s). Qed.

Lemma bind_ext {S A B} (m : M S A) (k1 k2 : A -> M S B) s :
  (forall a s', k1 a s' = k2 a s') -> bind m k1 s = bind m k2 s.
Proof. intros Hk. unfold bind. destruct (m s); [apply Hk | done]. Qed.

Section InterningFacts.
Context {E : Externals}.

Lemma wrap32_small n : n < 2 ^ 32 -> wrap32 n = n.
Proof. intros Hn. unfold wrap32. by apply N.mod_small. Qed.

Lemma wrap32_succ (a : nat) :
  N.of_nat (S a) < 2 ^ 32 -> wrap32 (N.of_nat a + 1) = N.of_nat (S a).
Proof. intros Ha. rewrite wrap32_small; lia. Qed.

(** *** From the run-length walk to the walk entry by entry *)

Lemma identifierRun_entries trs n : forall a b (k : N * N -> Method unit) s,
  N.of_nat (a + n) < 2 ^ 32 -> N.of_nat (b + n) < 2 ^ 32 ->
  bind (identifierRun trs n (N.of_nat a) (N.of_nat b)) k s
  = bind (walkEntries trs (replicate n KIdentifier) a b)
      (fun _ => k (N.of_nat (a + n), N.of_nat (b + n))) s.
Proof.
  induction n as [|n IH]; intros a b k s Ha Hb; simpl.
  - rewrite !bind_ret. by rewrite !Nat.add_0_r.
  - rewrite !bind_assoc. apply bind_ext. intros entry s1.
    rewrite !bind_assoc. apply bind_ext. intros tr s2.
    rewrite !bind_assoc. apply bind_ext. intros _ s3.
    rewrite !wrap32_succ by lia. rewrite IH by lia.
    by rewrite !Nat.add_succ_r.
Qed.

Lemma predefinedRun_entries trs n : forall a b (k : N * N -> Method unit) s,
  N.of_nat (a + n) < 2 ^ 32 -> N.of_nat (b + n) < 2 ^ 32 ->
  bind (predefinedRun trs n (N.of_nat a) (N.of_nat b)) k s
  = bind (walkEntries trs (replicate n KPredefined) a b)
      (fun _ => k (N.of_nat (a + n), N.of_nat (b + n))) s.
Proof.
  induction n as [|n IH]; intros a b k s Ha Hb; simpl.
  - rewrite !bind_ret. by rewrite !Nat.add_0_r.
  - rewrite !bind_assoc. apply bind_ext. intros tr s1.
    rewrite !bind_assoc. apply bind_ext. intros _ s2.
    rewrite !wrap32_succ by lia. rewrite IH by lia.
    by rewrite !Nat.add_succ_r.
Qed.

Lemma walkEntries_app trs l1 : forall l2 a b s,
  walkEntries trs (l1 ++ l2) a b s
  = bind (walkEntries trs l1 a b)
      (fun _ => walkEntries trs l2 (a + length l1) (b + translated l1)) s.
Proof.
  unfold translated.
  induction l1 as [|k l1 IH]; intros l2 a b s; simpl.
  - rewrite bind_ret. by rewrite !Nat.add_0_r.
  - destruct k; rewrite filter_cons; simpl.
    + rewrite IH. by rewrite Nat.add_succ_r.
    + rewrite !bind_assoc. apply bind_ext. intros entry s1.
      rewrite !bind_assoc. apply bind_ext. intros tr s2.
      rewrite !bind_assoc. apply bind_ext. intros _ s3.
      rewrite IH. by rewrite !Nat.add_succ_r.
    + rewrite !bind_assoc. apply bind_ext. intros tr s1.
      rewrite !bind_assoc. apply bind_ext. intros _ s2.
      rewrite IH. by rewrite !Nat.add_succ_r.
Qed.

Lemma walkEntries_app_bind trs l1 l2 a b (k : unit -> Method unit) s :
  bind (walkEntries trs (l1 ++ l2) a b) k s
  = bind (walkEntries trs l1 a b)
      (fun _ =>
         bind (walkEntries trs l2 (a + length l1) (b + translated l1)) k) s.
Proof.
  unfold bind. rewrite walkEntries_app. unfold bind.
  by destruct (walkEntries trs l1 a b s).
Qed.

Lemma walkEntries_strings trs n : forall a b s,
  walkEntries trs (replicate n KString) a b s = Done tt s.
Proof. induction n as [|n IH]; intros a b s; simpl; [done | apply IH]. Qed.

Lemma translated_replicate n k :
  translated (replicate n k) = if isTranslated k then n else 0%nat.
Proof.
  unfold translated. induction n as [|n IH]; simpl.
  - by destruct (isTranslated k).
  - rewrite filter_cons. destruct (isTranslated k) eqn:Hk; simpl.
    + by rewrite IH.
    + by rewrite IH.
Qed.

Lemma translated_app l1 l2 : translated (l1 ++ l2) = (translated l1 + translated l2)%nat.
Proof. unfold translated. by rewrite filter_app, length_app. Qed.

Lemma translated_le l : (translated l <= length l)%nat.
Proof. unfold translated. apply length_filter. Qed.

Lemma kindList_cons e kinds :
  kindList (e :: kinds) = replicate (toNat (count e)) (kind e) ++ kindList kinds.
Proof. reflexivity. Qed.

(** The walk over the run-length table is the walk over its entries, as
    long as the 32-bit counters do not wrap. *)
Lemma walkKinds_entries trs kinds : forall a b (k : N * N -> Method unit) s,
  N.of_nat (a + length (kindList kinds)) < 2 ^ 32 ->
  N.of_nat (b + length (kindList kinds)) < 2 ^ 32 ->
  bind (walkKinds trs kinds (N.of_nat a) (N.of_nat b)) k s
  = bind (walkEntries trs (kindList kinds) a b)
      (fun _ => k (N.of_nat (a + length (kindList kinds)),
                   N.of_nat (b + translated (kindList kinds)))) s.
Proof.
  induction kinds as [|e kinds IH]; intros a b k s Ha Hb.
  - simpl. rewrite !bind_ret. unfold translated. simpl.
    by rewrite !Nat.add_0_r.
  - rewrite kindList_cons in *. rewrite length_app, length_replicate in Ha, Hb.
    pose proof (translated_le (kindList kinds)) as Hle.
    rewrite length_app, length_replicate, translated_app, translated_replicate.
    rewrite walkEntries_app_bind, length_replicate, translated_replicate.
    simpl walkKinds. rewrite bind_assoc.
    destruct (kind e); simpl isTranslated; cbv iota.
    + rewrite bind_ret. simpl fst. simpl snd.
      rewrite (bind_Done _ _ _ _ _ (walkEntries_strings _ _ _ _ _)).
      replace (wrap32 (N.of_nat a + count e))
        with (N.of_nat (a + toNat (count e)))
        by (rewrite wrap32_small; unfold toNat in *; lia).
      rewrite Nat.add_0_r. rewrite IH by lia.
      by rewrite !Nat.add_assoc, Nat.add_0_r.
    + rewrite identifierRun_entries by lia. apply bind_ext. intros _ s1.
      simpl fst. simpl snd. rewrite IH by lia. by rewrite !Nat.add_assoc.
    + rewrite predefinedRun_entries by lia. apply bind_ext. intros _ s1.
      simpl fst. simpl snd. rewrite IH by lia. by rewrite !Nat.add_assoc.
Qed.
(** *** What one interning call does *)

Lemma mapStringMayAllocate_inv str i h s id s' :
  mapStringMayAllocate str i h s = Done id s' ->
  exists c t',
    internCall (persistent s.2) str h (identifierTable s.1) id c t'
    /\ (toNat i < length (stringIDMap_ s.2))%nat
    /\ s' = (set_identifierTable t' c s.1,
             set_stringIDMap (<[toNat i := id]> (stringIDMap_ s.2)) s.2).
Proof.
  destruct s as [r rm]. unfold mapStringMayAllocate, internCall.
  rewrite (bind_Done _ _ _ _ _ (getModule_run _)). simpl.
  destruct (persistent rm).
  - unfold callRegisterLazyIdentifier.
    rewrite bind_assoc, (bind_Done _ _ _ _ _ (getRuntime_run _)). simpl.
    rewrite bind_assoc, (bind_Done _ _ _ _ _ (modifyRuntime_run _ _)). simpl.
    rewrite !bind_ret.
    destruct (registerLazyIdentifier str h (identifierTable r)) as [id0 t0].
    simpl. intros Hrun. apply bind_inv in Hrun as ([] & s1 & Hstore & Hret).
    injection Hret as <- <-.
    destruct (decide (toNat i < length (stringIDMap_ rm))%nat) as [Hi|Hi].
    + rewrite storeSymbol_run in Hstore by done. injection Hstore as <-.
      eexists _, _. split; [split; reflexivity|]. split; done.
    + rewrite storeSymbol_out_of_range in Hstore by (simpl; lia). done.
  - unfold callGetSymbolHandle.
    rewrite !bind_assoc, (bind_Done _ _ _ _ _ (getRuntime_run _)). simpl.
    rewrite !bind_assoc, (bind_Done _ _ _ _ _ (modifyRuntime_run _ _)). simpl.
    rewrite !bind_ret.
    destruct (getSymbolHandle str h (identifierTable r)) as [res t0].
    simpl. unfold callIgnoreAllocationFailure.
    destruct (ignoreAllocationFailure res) as [id0|] eqn:Hres; [|done].
    rewrite bind_ret.
    intros Hrun. apply bind_inv in Hrun as ([] & s1 & Hstore & Hret).
    injection Hret as <- <-.
    destruct (decide (toNat i < length (stringIDMap_ rm))%nat) as [Hi|Hi].
    + rewrite storeSymbol_run in Hstore by done. injection Hstore as <-.
      eexists _, _. split; [exists res; done|]. split; done.
    + rewrite storeSymbol_out_of_range in Hstore by (simpl; lia). done.
Qed.

Lemma mapStringMayAllocate_run str i h s id c t' :
  internCall (persistent s.2) str h (identifierTable s.1) id c t' ->
  (toNat i < length (stringIDMap_ s.2))%nat ->
  mapStringMayAllocate str i h s
  = Done id (set_identifierTable t' c s.1,
             set_stringIDMap (<[toNat i := id]> (stringIDMap_ s.2)) s.2).
Proof.
  destruct s as [r rm]. unfold mapStringMayAllocate, internCall.
  rewrite (bind_Done _ _ _ _ _ (getModule_run _)). simpl.
  destruct (persistent rm).
  - intros [Hreg ->] Hi. unfold callRegisterLazyIdentifier.
    rewrite bind_assoc, (bind_Done _ _ _ _ _ (getRuntime_run _)). simpl.
    rewrite bind_assoc, (bind_Done _ _ _ _ _ (modifyRuntime_run _ _)). simpl.
    rewrite !bind_ret, Hreg. simpl.
    erewrite bind_Done by (by apply storeSymbol_run). reflexivity.
  - intros (res & Hget & -> & Hres) Hi. unfold callGetSymbolHandle.
    rewrite !bind_assoc, (bind_Done _ _ _ _ _ (getRuntime_run _)). simpl.
    rewrite !bind_assoc, (bind_Done _ _ _ _ _ (modifyRuntime_run _ _)). simpl.
    rewrite !bind_ret, Hget. simpl. unfold callIgnoreAllocationFailure.
    rewrite Hres, bind_ret.
    erewrite bind_Done by (by apply storeSymbol_run). reflexivity.
Qed.

(** The symbol table is called before the slot is written. *)
Lemma mapStringMayAllocate_out_of_range str i h s id c t' :
  internCall (persistent s.2) str h (identifierTable s.1) id c t' ->
  (length (stringIDMap_ s.2) <= toNat i)%nat ->
  mapStringMayAllocate str i h s = Stopped Undefined.
Proof.
  destruct s as [r rm]. unfold mapStringMayAllocate, internCall.
  rewrite (bind_Done _ _ _ _ _ (getModule_run _)). simpl.
  destruct (persistent rm).
  - intros [Hreg ->] Hi. unfold callRegisterLazyIdentifier.
    rewrite bind_assoc, (bind_Done _ _ _ _ _ (getRuntime_run _)). simpl.
    rewrite bind_assoc, (bind_Done _ _ _ _ _ (modifyRuntime_run _ _)). simpl.
    rewrite !bind_ret, Hreg. simpl.
    apply bind_Stopped. by apply storeSymbol_out_of_range.
  - intros (res & Hget & -> & Hres) Hi. unfold callGetSymbolHandle.
    rewrite !bind_assoc, (bind_Done _ _ _ _ _ (getRuntime_run _)). simpl.
    rewrite !bind_assoc, (bind_Done _ _ _ _ _ (modifyRuntime_run _ _)). simpl.
    rewrite !bind_ret, Hget. simpl. unfold callIgnoreAllocationFailure.
    rewrite Hres, bind_ret.
    apply bind_Stopped. by apply storeSymbol_out_of_range.
Qed.

Lemma internCall_exists persistent str h t :
  persistent = true \/ allocationSucceeds ->
  exists id c t', internCall persistent str h t id c t'.
Proof.
  intros Hok. unfold internCall. destruct persistent.
  - destruct (registerLazyIdentifier str h t) as [id t'] eqn:Hreg.
    by eexists _, _, _.
  - destruct Hok as [|Hok]; [done|].
    destruct (Hok str h t) as [id Hid].
    destruct (getSymbolHandle str h t) as [res t'] eqn:Hget.
    eexists id, _, t'. exists res. done.
Qed.

Lemma getStringTableEntry_run p i entry s :
  bcProvider_ s.2 = Some p ->
  getStringTable p !! toNat i = Some entry ->
  getStringTableEntry i s = Done entry s.
Proof.
  intros Hp Hentry. unfold getStringTableEntry.
  rewrite (bind_Done _ _ _ _ _ (provider_run _ _ Hp)). by rewrite Hentry.
Qed.

Lemma getStringTableEntry_inv p i entry s s' :
  bcProvider_ s.2 = Some p ->
  getStringTableEntry i s = Done entry s' ->
  s' = s /\ getStringTable p !! toNat i = Some entry.
Proof.
  intros Hp. unfold getStringTableEntry.
  rewrite (bind_Done _ _ _ _ _ (provider_run _ _ Hp)).
  destruct (getStringTable p !! toNat i); [|done]. by intros [= -> ->].
Qed.

Lemma translationAt_inv trs i tr (s s' : Runtime * RuntimeModule) :
  translationAt trs i s = Done tr s' -> s' = s /\ trs !! toNat i = Some tr.
Proof.
  unfold translationAt. destruct (trs !! toNat i); [|done].
  by intros [= -> ->].
Qed.

(** *** Reading an entry from the storage *)

Lemma char16s_length n : forall bytes,
  (2 * n <= length bytes)%nat -> length (char16s n bytes) = n.
Proof.
  induction n as [|n IH]; intros bytes Hlen; [done|].
  destruct bytes as [|lo [|hi rest]]; simpl in Hlen; try lia.
  simpl. f_equal. apply IH. lia.
Qed.

Lemma char16s_lookup n : forall bytes k,
  (2 * n <= length bytes)%nat -> (k < n)%nat ->
  exists lo hi,
    bytes !! (2 * k)%nat = Some lo
    /\ bytes !! (2 * k + 1)%nat = Some hi
    /\ char16s n bytes !! k = Some (lo + 256 * hi).
Proof.
  induction n as [|n IH]; intros bytes k Hlen Hk; [lia|].
  destruct bytes as [|lo [|hi rest]]; simpl in Hlen; try lia.
  destruct k as [|k].
  - by exists lo, hi.
  - destruct (IH rest k) as (lo' & hi' & Hlo & Hhi & Hunit); [lia|lia|].
    exists lo', hi'.
    replace (2 * S k)%nat with (S (S (2 * k))) by lia.
    replace (S (S (2 * k)) + 1)%nat with (S (S (2 * k + 1))) by lia.
    done.
Qed.

Lemma readBytes_Some strStorage offset n chars :
  readBytes strStorage offset n = Some chars
  <-> (offset + n <= length strStorage)%nat
      /\ length chars = n
      /\ forall k, (k < n)%nat -> chars !! k = strStorage !! (offset + k)%nat.
Proof.
  unfold readBytes. split.
  - case_decide as Hin; [|done]. intros [= <-].
    split; [done|]. split.
    + rewrite length_take_le; [done|]. rewrite length_drop. lia.
    + intros k Hk. by rewrite lookup_take_lt, lookup_drop.
  - intros (Hin & Hlen & Hchars). rewrite decide_True by done. f_equal.
    apply list_eq. intros k. destruct (decide (k < n)%nat) as [Hk|Hk].
    + by rewrite lookup_take_lt, lookup_drop, Hchars.
    + rewrite lookup_take_ge by lia. symmetry. apply lookup_ge_None. lia.
Qed.

Lemma readChar16s_Some strStorage offset n units :
  readChar16s strStorage offset n = Some units
  <-> (offset + 2 * n <= length strStorage)%nat
      /\ length units = n
      /\ forall k, (k < n)%nat ->
           exists lo hi,
             strStorage !! (offset + 2 * k)%nat = Some lo
             /\ strStorage !! (offset + 2 * k + 1)%nat = Some hi
             /\ units !! k = Some (lo + 256 * hi).
Proof.
  unfold readChar16s.
  assert ((offset + 2 * n <= length strStorage)%nat ->
          (2 * n <= length (drop offset strStorage))%nat) as Hdrop
    by (rewrite length_drop; lia).
  split.
  - case_decide as Hin; [|done]. intros [= <-].
    split; [done|]. split; [by apply char16s_length, Hdrop|].
    intros k Hk.
    destruct (char16s_lookup n (drop offset strStorage) k (Hdrop Hin) Hk)
      as (lo & hi & Hlo & Hhi & Hunit).
    rewrite lookup_drop in Hlo, Hhi.
    exists lo, hi. split; [done|]. split; [|done].
    by rewrite <- Nat.add_assoc.
  - intros (Hin & Hlen & Hunits). rewrite decide_True by done. f_equal.
    apply list_eq. intros k. destruct (decide (k < n)%nat) as [Hk|Hk].
    + destruct (Hunits k Hk) as (lo & hi & Hlo & Hhi & ->).
      destruct (char16s_lookup n (drop offset strStorage) k (Hdrop Hin) Hk)
        as (lo' & hi' & Hlo' & Hhi' & ->).
      rewrite lookup_drop in Hlo', Hhi'.
      rewrite <- Nat.add_assoc in Hhi. congruence.
    + rewrite (lookup_ge_None_2 units) by lia.
      apply lookup_ge_None_2. rewrite char16s_length by auto. lia.
Qed.

(** The view the code builds is the one the storage holds for the entry,
    and there is none when the entry does not lie inside the storage. *)
Lemma entryString_views strStorage entry str :
  entryString strStorage entry = Some str <-> viewsEntry strStorage entry str.
Proof.
  unfold entryString, viewsEntry, entryInStorage.
  destruct (isUTF16 entry).
  - rewrite fmap_Some. split.
    + intros (units & Hread & ->).
      apply readChar16s_Some in Hread as (Hin & Hlen & Hunits).
      split; [lia|]. by exists units.
    + intros (Hin & units & -> & Hlen & Hunits). exists units.
      split; [|done]. apply readChar16s_Some. split; [lia|done].
  - rewrite fmap_Some. split.
    + intros (chars & Hread & ->).
      apply readBytes_Some in Hread as (Hin & Hlen & Hchars).
      split; [lia|]. by exists chars.
    + intros (Hin & chars & -> & Hlen & Hchars). exists chars.
      split; [|done]. apply readBytes_Some. split; [lia|done].
Qed.

Lemma entryString_None strStorage entry :
  entryString strStorage entry = None <-> ~ entryInStorage strStorage entry.
Proof.
  unfold entryString, entryInStorage, readBytes, readChar16s.
  destruct (isUTF16 entry); rewrite fmap_None; case_decide; split;
    try done; lia.
Qed.

Lemma entryString_is_Some strStorage entry :
  entryInStorage strStorage entry ->
  exists str, entryString strStorage entry = Some str.
Proof.
  intros Hin. destruct (entryString strStorage entry) as [str|] eqn:Hstr;
    [by exists str|].
  by apply entryString_None in Hstr.
Qed.

Lemma createSymbol_unfold p i entry mhash str s :
  bcProvider_ s.2 = Some p ->
  entryString (getStringStorage p) entry = Some str ->
  createSymbolFromStringIDMayAllocate i entry mhash s
  = mapStringMayAllocate str i
      (match mhash with Some h => h | None => hashString str end) s.
Proof.
  intros Hp Hstr. unfold createSymbolFromStringIDMayAllocate.
  rewrite (bind_Done _ _ _ _ _ (provider_run _ _ Hp)).
  by rewrite Hstr, bind_deref_Some.
Qed.

Lemma createSymbol_out_of_storage p i entry mhash s :
  bcProvider_ s.2 = Some p ->
  entryString (getStringStorage p) entry = None ->
  createSymbolFromStringIDMayAllocate i entry mhash s = Stopped Undefined.
Proof.
  intros Hp Hstr. unfold createSymbolFromStringIDMayAllocate.
  rewrite (bind_Done _ _ _ _ _ (provider_run _ _ Hp)).
  by rewrite Hstr.
Qed.

Lemma mapPredefined_inv i raw s id s' :
  mapPredefined i raw s = Done id s' ->
  id = unsafeCreate raw
  /\ (toNat i < length (stringIDMap_ s.2))%nat
  /\ s' = (s.1, set_stringIDMap (<[toNat i := id]> (stringIDMap_ s.2)) s.2).
Proof.
  unfold mapPredefined. intros Hrun.
  apply bind_inv in Hrun as ([] & s1 & Hstore & Hret). injection Hret as <- <-.
  destruct (decide (toNat i < length (stringIDMap_ s.2))%nat) as [Hi|Hi].
  - rewrite storeSymbol_run in Hstore by done. by injection Hstore as <-.
  - rewrite storeSymbol_out_of_range in Hstore by lia. done.
Qed.
(** *** The walk, entry by entry *)

Lemma walkEntries_inv p sm0 ks : forall a b s s',
  bcProvider_ s.2 = Some p ->
  walkEntries (getIdentifierTranslations p) ks a b s = Done tt s' ->
  (forall j, (a <= j)%nat -> stringIDMap_ s.2 !! j = sm0 !! j) ->
  exists calls,
    identCalls s'.1 = identCalls s.1 ++ calls
    /\ Interned p (persistent s.2) sm0 ks a b (identifierTable s.1) calls
         (identifierTable s'.1) (stringIDMap_ s'.2)
    /\ length (stringIDMap_ s'.2) = length (stringIDMap_ s.2)
    /\ (forall j, (j < a)%nat -> stringIDMap_ s'.2 !! j = stringIDMap_ s.2 !! j)
    /\ (forall j, (a + length ks <= j)%nat ->
                  stringIDMap_ s'.2 !! j = stringIDMap_ s.2 !! j).
Proof.
  induction ks as [|k ks IH]; intros a b s s' Hp Hrun Hsm0.
  - injection Hrun as <-. exists []. rewrite app_nil_r. by repeat split.
  - destruct k; simpl in Hrun.
    + (* a plain string *)
      destruct (IH (S a) b s s' Hp Hrun) as
        (calls & Hcalls & Hint & Hlen & Hbefore & Hafter).
      { intros j Hj. apply Hsm0. lia. }
      exists calls. split; [done|]. split.
      { simpl. split; [|done]. rewrite Hbefore by lia. apply Hsm0. lia. }
      split; [done|]. split; [intros j Hj; apply Hbefore; lia|].
      intros j Hj; apply Hafter; simpl in Hj; lia.
    + (* an identifier *)
      apply bind_inv in Hrun as (entry & s1 & Hentry & Hrun).
      apply (getStringTableEntry_inv p) in Hentry as [-> Hentry]; [|done].
      apply bind_inv in Hrun as (tr & s1 & Htr & Hrun).
      apply translationAt_inv in Htr as [-> Htr].
      apply bind_inv in Hrun as (id & s1 & Hmap & Hrun).
      destruct (entryString (getStringStorage p) entry) as [str|] eqn:Hstr;
        [|by rewrite (createSymbol_out_of_storage p) in Hmap].
      rewrite (createSymbol_unfold p _ _ _ str) in Hmap by done.
      apply entryString_views in Hstr.
      apply mapStringMayAllocate_inv in Hmap as (c & t1 & Hcall & Hi & ->).
      unfold toNat in Hentry, Htr, Hi, Hrun.
      rewrite ?Nat2N.id in Hentry, Htr, Hi, Hrun.
      set (s1 := (set_identifierTable t1 c s.1,
                  set_stringIDMap (<[a:=id]> (stringIDMap_ s.2)) s.2)) in *.
      assert (bcProvider_ s1.2 = Some p) as Hp1 by exact Hp.
      destruct (IH (S a) (S b) s1 s' Hp1 Hrun) as
        (calls & Hcalls & Hint & Hlen & Hbefore & Hafter).
      { simpl. intros j Hj. rewrite list_lookup_insert_ne by lia.
        apply Hsm0. lia. }
      simpl in *. rewrite length_insert in *.
      exists (c :: calls). split; [by rewrite Hcalls, <- app_assoc|]. split.
      { exists entry, tr, str, id, c, calls, t1.
        split; [done|]. split; [done|]. split; [done|]. split; [done|].
        split; [done|]. split; [|done].
        rewrite Hbefore by lia. by apply list_lookup_insert_eq. }
      split; [done|]. split.
      { intros j Hj. rewrite Hbefore by lia.
        apply list_lookup_insert_ne. lia. }
      intros j Hj. rewrite Hafter by lia. apply list_lookup_insert_ne. lia.
    + (* a predefined entry *)
      apply bind_inv in Hrun as (tr & s1 & Htr & Hrun).
      apply translationAt_inv in Htr as [-> Htr].
      apply bind_inv in Hrun as (id & s1 & Hmap & Hrun).
      apply mapPredefined_inv in Hmap as (-> & Hi & ->).
      unfold toNat in *. rewrite Nat2N.id in *.
      set (s1 := (s.1, set_stringIDMap
                         (<[a:=unsafeCreate tr]> (stringIDMap_ s.2)) s.2)) in *.
      assert (bcProvider_ s1.2 = Some p) as Hp1 by exact Hp.
      destruct (IH (S a) (S b) s1 s' Hp1 Hrun) as
        (calls & Hcalls & Hint & Hlen & Hbefore & Hafter).
      { simpl. intros j Hj. rewrite list_lookup_insert_ne by lia.
        apply Hsm0. lia. }
      simpl in *. rewrite length_insert in *.
      exists calls. split; [done|]. split.
      { exists tr. repeat split; try done.
        rewrite Hbefore by lia. by apply list_lookup_insert_eq. }
      split; [done|]. split.
      { intros j Hj. rewrite Hbefore by lia.
        apply list_lookup_insert_ne. lia. }
      intros j Hj. rewrite Hafter by lia. apply list_lookup_insert_ne. lia.
Qed.
Lemma translated_cons k ks :
  translated (k :: ks)
  = ((if isTranslated k then 1 else 0) + translated ks)%nat.
Proof.
  unfold translated. rewrite filter_cons. by destruct k.
Qed.

Lemma identifiers_cons k ks :
  identifiers (k :: ks)
  = ((if decide (k = KIdentifier) then 1 else 0) + identifiers ks)%nat.
Proof.
  unfold identifiers. rewrite filter_cons. by destruct k.
Qed.

(** The walk returns when every entry has its slot, its table entry and its
    translation, every identifier entry lies inside the string storage, and
    the symbol table gives a symbol for every lookup. *)
Lemma walkEntries_run p ks : forall a b s,
  bcProvider_ s.2 = Some p ->
  (a + length ks <= length (stringIDMap_ s.2))%nat ->
  (a + length ks <= length (getStringTable p))%nat ->
  (b + translated ks <= length (getIdentifierTranslations p))%nat ->
  (forall j entry,
     ks !! j = Some KIdentifier ->
     getStringTable p !! (a + j)%nat = Some entry ->
     entryInStorage (getStringStorage p) entry) ->
  persistent s.2 = true \/ allocationSucceeds ->
  exists s', walkEntries (getIdentifierTranslations p) ks a b s = Done tt s'.
Proof.
  induction ks as [|k ks IH]; intros a b s Hp Hsm Htable Htrs Hin Hok.
  - by eexists.
  - simpl in Hsm, Htable. rewrite translated_cons in Htrs.
    assert (forall j entry,
              ks !! j = Some KIdentifier ->
              getStringTable p !! (S a + j)%nat = Some entry ->
              entryInStorage (getStringStorage p) entry) as Hin'.
    { intros j entry Hk Hentry. apply (Hin (S j) entry); [done|].
      by replace (a + S j)%nat with (S a + j)%nat by lia. }
    destruct k; simpl in *.
    + apply IH; try done; lia.
    + destruct (lookup_lt_is_Some_2 (getStringTable p) a) as [entry Hentry];
        [lia|].
      destruct (lookup_lt_is_Some_2 (getIdentifierTranslations p) b)
        as [tr Htr]; [lia|].
      destruct (entryString_is_Some (getStringStorage p) entry)
        as [str Hstr].
      { apply (Hin 0%nat entry); [done|]. by rewrite Nat.add_0_r. }
      destruct (internCall_exists (persistent s.2) str tr
                  (identifierTable s.1) Hok) as (id & c & t1 & Hcall).
      erewrite bind_Done
        by (apply (getStringTableEntry_run p); [done|];
            unfold toNat; by rewrite Nat2N.id).
      unfold translationAt at 1. unfold toNat at 1. rewrite Nat2N.id, Htr.
      rewrite bind_deref_Some.
      erewrite bind_Done
        by (rewrite (createSymbol_unfold p _ _ _ str) by done;
            apply mapStringMayAllocate_run; [exact Hcall|];
            unfold toNat; rewrite Nat2N.id; lia).
      apply IH; simpl; try done; rewrite ?length_insert; lia.
    + destruct (lookup_lt_is_Some_2 (getIdentifierTranslations p) b)
        as [tr Htr]; [lia|].
      unfold translationAt at 1. unfold toNat at 1. rewrite Nat2N.id, Htr.
      rewrite bind_deref_Some. unfold mapPredefined.
      rewrite bind_assoc.
      erewrite bind_Done
        by (apply storeSymbol_run; unfold toNat; rewrite Nat2N.id; lia).
      rewrite bind_ret.
      apply IH; simpl; try done; rewrite ?length_insert; lia.
Qed.

(** *** Reading [Interned] entry by entry *)

Lemma Interned_lookup p per sm0 ks : forall a b t calls t' sm' j k,
  Interned p per sm0 ks a b t calls t' sm' ->
  ks !! j = Some k ->
  match k with
  | KString => sm' !! (a + j)%nat = sm0 !! (a + j)%nat
  | KPredefined =>
      exists tr,
        getIdentifierTranslations p !! (b + translated (take j ks))%nat = Some tr
        /\ sm' !! (a + j)%nat = Some (unsafeCreate tr)
  | KIdentifier =>
      exists entry tr str id c t1 t2,
        getStringTable p !! (a + j)%nat = Some entry
        /\ getIdentifierTranslations p !! (b + translated (take j ks))%nat
           = Some tr
        /\ calls !! identifiers (take j ks) = Some c
        /\ viewsEntry (getStringStorage p) entry str
        /\ internCall per str tr t1 id c t2
        /\ sm' !! (a + j)%nat = Some id
  end.
Proof.
  induction ks as [|k0 ks IH]; intros a b t calls t' sm' j k Hint Hk; [done|].
  destruct j as [|j].
  - injection Hk as <-. rewrite !Nat.add_0_r. simpl take.
    change (translated []) with 0%nat. change (identifiers []) with 0%nat.
    rewrite ?Nat.add_0_r.
    destruct k0; simpl in Hint.
    + by destruct Hint.
    + destruct Hint
        as (entry & tr & str & id & c & calls' & t1 & ? & ? & ? & ? & -> & ? & _).
      by exists entry, tr, str, id, c, t, t1.
    + destruct Hint as (tr & ? & ? & _). by exists tr.
  - simpl in Hk. simpl take. rewrite translated_cons, identifiers_cons.
    replace (a + S j)%nat with (S a + j)%nat by lia.
    destruct k0; simpl in Hint; simpl isTranslated; cbv iota.
    + destruct Hint as [_ Hint].
      rewrite decide_False by done. rewrite !Nat.add_0_l.
      exact (IH _ _ _ _ _ _ _ _ Hint Hk).
    + destruct Hint
        as (entry & tr & str & id & c & calls' & t1 & _ & _ & _ & _ & -> & _
            & Hint).
      rewrite decide_True by done.
      replace (b + (1 + translated (take j ks)))%nat
        with (S b + translated (take j ks))%nat by lia.
      exact (IH _ _ _ _ _ _ _ _ Hint Hk).
    + destruct Hint as (tr & _ & _ & Hint).
      rewrite decide_False by done. rewrite Nat.add_0_l.
      replace (b + (1 + translated (take j ks)))%nat
        with (S b + translated (take j ks))%nat by lia.
      exact (IH _ _ _ _ _ _ _ _ Hint Hk).
Qed.

(** There is one call for every identifier entry, and no other. *)
Lemma Interned_calls p per sm0 ks : forall a b t calls t' sm',
  Interned p per sm0 ks a b t calls t' sm' -> length calls = identifiers ks.
Proof.
  induction ks as [|k ks IH]; intros a b t calls t' sm' Hint.
  - by destruct Hint as [-> _].
  - rewrite identifiers_cons. destruct k; simpl in Hint.
    + destruct Hint as [_ Hint]. rewrite decide_False by done. by eapply IH.
    + destruct Hint
        as (? & ? & ? & ? & ? & calls' & ? & _ & _ & _ & _ & -> & _ & Hint).
      rewrite decide_True by done. simpl. f_equal. by eapply IH.
    + destruct Hint as (? & _ & _ & Hint). rewrite decide_False by done.
      by eapply IH.
Qed.
Lemma walkEntries_frame_persistent trs ks : forall a b s s',
  walkEntries trs ks a b s = Done tt s' -> persistent s'.2 = persistent s.2.
Proof.
  pose proof (createSymbol_frame (fun s => persistent s.2)
                (fun _ _ _ _ => eq_refl) (fun _ _ _ => eq_refl)) as Hcreate.
  pose proof (storeSymbol_frame (fun s => persistent s.2)
                (fun _ _ _ => eq_refl)) as Hstore.
  induction ks as [|k ks IH]; intros a b s s' Hrun.
  - by injection Hrun as <-.
  - destruct k; simpl in Hrun.
    + by eapply IH.
    + apply bind_inv in Hrun as (entry & s1 & Hentry & Hrun).
      apply bind_inv in Hrun as (tr & s2 & Htr & Hrun).
      apply translationAt_inv in Htr as [-> _].
      apply bind_inv in Hrun as (id & s3 & Hmap & Hrun).
      rewrite (IH _ _ _ _ Hrun), (Hcreate _ _ _ _ _ _ Hmap).
      unfold getStringTableEntry in Hentry.
      apply bind_inv in Hentry as (p & s0 & Hprov & Hentry).
      unfold provider in Hprov.
      rewrite (bind_Done _ _ _ _ _ (getModule_run _)) in Hprov.
      destruct (bcProvider_ s.2); [|done]. injection Hprov as _ <-.
      destruct (getStringTable p !! toNat (N.of_nat a)); [|done].
      by injection Hentry as _ <-.
    + apply bind_inv in Hrun as (tr & s1 & Htr & Hrun).
      apply translationAt_inv in Htr as [-> _].
      apply bind_inv in Hrun as (id & s2 & Hmap & Hrun).
      rewrite (IH _ _ _ _ Hrun).
      apply mapPredefined_inv in Hmap as (_ & _ & ->). done.
Qed.

(** *** The whole interning *)

Lemma import_unfold p s :
  wellFormedStrings p ->
  bcProvider_ s.2 = Some p ->
  importStringIDMapMayAllocate s
  = bind (walkEntries (getIdentifierTranslations p)
            (kindList (getStringKinds p)) 0 0)
      (fun _ => afterWalk p) (walkStart p s).
Proof.
  intros [Hn Hlen] Hp. unfold importStringIDMapMayAllocate.
  rewrite (bind_Done _ _ _ _ _ (provider_run _ _ Hp)).
  rewrite (bind_Done _ _ _ _ _ (modifyModule_run _ _)).
  unfold callReserve. rewrite (bind_Done _ _ _ _ _ (modifyRuntime_run _ _)).
  pose proof (walkKinds_entries (getIdentifierTranslations p)
                (getStringKinds p) 0 0) as Hwalk.
  simpl N.of_nat in Hwalk. rewrite Hwalk; [reflexivity | |];
    rewrite Hlen; unfold toNat; lia.
Qed.

Lemma import_inv p s s' :
  wellFormedStrings p ->
  bcProvider_ s.2 = Some p ->
  importStringIDMapMayAllocate s = Done tt s' ->
  exists calls t1 sm1,
    Interned p (persistent s.2)
      (replicate (toNat (getStringCount p)) SymbolID_empty)
      (kindList (getStringKinds p)) 0 0
      (reserve (getStringCount p) (identifierTable s.1)) calls t1 sm1
    /\ length sm1 = toNat (getStringCount p)
    /\ ((getStringCount p <> 0
         /\ identCalls s'.1
            = identCalls s.1 ++ CallReserve (getStringCount p) :: calls
         /\ identifierTable s'.1 = t1
         /\ stringIDMap_ s'.2 = sm1)
        \/ (getStringCount p = 0
            /\ calls = []
            /\ exists id c,
                 internCall (persistent s.2) (ASCIIRef [])
                   (hashString (ASCIIRef [])) t1 id c (identifierTable s'.1)
                 /\ identCalls s'.1
                    = identCalls s.1 ++ [CallReserve 0; c]
                 /\ hashString (ASCIIRef []) = 0
                 /\ stringIDMap_ s'.2 = [id])).
Proof.
  intros Hwf Hp Hrun. rewrite (import_unfold p) in Hrun by done.
  apply bind_inv in Hrun as ([] & s1 & Hwalk & Htail).
  pose proof (walkEntries_frame_persistent _ _ _ _ _ _ Hwalk) as Hper.
  apply (walkEntries_inv p
           (replicate (toNat (getStringCount p)) SymbolID_empty))
    in Hwalk as (calls & Hcalls & Hint & Hlen & _ & _); [|done|done].
  simpl in Hcalls, Hint, Hlen, Hper. rewrite length_replicate in Hlen.
  exists calls, (identifierTable s1.1), (stringIDMap_ s1.2).
  split; [done|]. split; [done|].
  unfold afterWalk in Htail. destruct (getStringCount p =? 0) eqn:Hz.
  - apply N.eqb_eq in Hz. right. split; [done|].
    destruct Hwf as [_ Hks]. rewrite Hz in Hks, Hlen. simpl in Hks, Hlen.
    apply nil_length_inv in Hks. rewrite Hks in Hint.
    destruct Hint as [-> Ht]. split; [done|].
    rewrite (bind_Done _ _ _ _ _ (modifyModule_run _ _)) in Htail.
    apply bind_inv in Htail as (id & s2 & Hmap & Hret).
    injection Hret as <-.
    apply mapStringMayAllocate_inv in Hmap as (c & t' & Hcall & Hi & ->).
    simpl in *. apply nil_length_inv in Hlen. rewrite Hlen in *. simpl in *.
    assert (toNat (hashString (ASCIIRef [])) = 0%nat) as Hh by lia.
    rewrite app_nil_r in Hcalls. rewrite Hper in Hcall.
    exists id, c. split; [done|]. rewrite Hcalls, Hz, <- app_assoc.
    split; [done|]. split; [unfold toNat in Hh; lia|]. by rewrite Hh.
  - apply N.eqb_neq in Hz. injection Htail as <-. left.
    split; [done|]. by rewrite Hcalls, <- app_assoc.
Qed.

(** The interning returns for a provider whose tables have the sizes the
    string count asks for and whose identifier entries lie inside the
    string storage, when the symbol table gives a symbol for every lookup
    (and, for an empty table, the empty string hashes to 0). *)
Lemma import_run p s :
  wellFormedStrings p ->
  bcProvider_ s.2 = Some p ->
  (toNat (getStringCount p) <= length (getStringTable p))%nat ->
  (translated (kindList (getStringKinds p))
   <= length (getIdentifierTranslations p))%nat ->
  (forall i entry,
     kindList (getStringKinds p) !! i = Some KIdentifier ->
     getStringTable p !! i = Some entry ->
     entryInStorage (getStringStorage p) entry) ->
  persistent s.2 = true \/ allocationSucceeds ->
  (getStringCount p = 0 -> hashString (ASCIIRef []) = 0) ->
  exists s', importStringIDMapMayAllocate s = Done tt s'.
Proof.
  intros Hwf Hp Htable Htrs Hin Hok Hhash.
  rewrite (import_unfold p) by done. destruct Hwf as [Hn Hks].
  destruct (walkEntries_run p (kindList (getStringKinds p)) 0 0 (walkStart p s))
    as [s1 Hwalk]; simpl; rewrite ?length_replicate; try done; try lia.
  pose proof Hwalk as Hinv.
  apply (walkEntries_inv p
           (replicate (toNat (getStringCount p)) SymbolID_empty))
    in Hinv as (calls & _ & _ & Hlen & _ & _); [|done|done].
  simpl in Hlen. rewrite length_replicate in Hlen.
  rewrite (bind_Done _ _ _ _ _ Hwalk). unfold afterWalk.
  destruct (getStringCount p =? 0) eqn:Hz; [|by eexists].
  apply N.eqb_eq in Hz.
  rewrite (bind_Done _ _ _ _ _ (modifyModule_run _ _)).
  unfold mapStringMayAllocate2.
  assert (persistent s1.2 = persistent s.2) as Hper.
  { apply (walkEntries_frame_persistent _ _ _ _ _ _ Hwalk). }
  destruct (internCall_exists (persistent s1.2) (ASCIIRef [])
              (hashString (ASCIIRef [])) (identifierTable s1.1))
    as (id & c & t' & Hcall); [by rewrite Hper|].
  erewrite bind_Done.
  2:{ apply mapStringMayAllocate_run; [exact Hcall|]. simpl.
      rewrite length_app. simpl. rewrite (Hhash Hz). unfold toNat. lia. }
  by eexists.
Qed.
(** The slots of the plain strings after the interning. *)
Lemma interning_dispatch_slots p s s' :
  wellFormedStrings p ->
  bcProvider_ s.2 = Some p ->
  getStringCount p <> 0 ->
  importStringIDMapMayAllocate s = Done tt s' ->
  forall i, kindList (getStringKinds p) !! i = Some KString ->
            stringIDMap_ s'.2 !! i = Some SymbolID_empty.
Proof.
  intros Hwf Hp Hn Hrun i Hk.
  destruct (import_inv p s s' Hwf Hp Hrun)
    as (calls & t1 & sm1 & Hint & Hlen & [(_ & Hcalls & _ & Hsm)|[Hz _]]);
    [|done].
  subst sm1.
  pose proof (Interned_lookup _ _ _ _ _ _ _ _ _ _ i _ Hint Hk) as Hat.
  simpl in Hat. rewrite Hat. apply lookup_replicate_2.
  destruct Hwf as [_ <-]. by eapply lookup_lt_Some.
Qed.

(** C5. Interning dispatches on the kind of every string-table entry, as
    the run-length kind table gives it. When the interning returns, the
    symbol table has been called once to reserve and then once for every
    identifier entry, in order, and for no other entry; the call of an
    identifier entry is made on the string the storage holds for the entry
    (the entry's length in code units from the entry's offset on, all
    inside the storage) with the entry's translation as the precomputed
    hash, and the entry's slot holds the symbol the call gave; the slot of
    a predefined entry holds the symbol made of its raw translation; the
    slot of a plain string holds the empty symbol.
    [createSymbolFromStringIDMayAllocate] interns that string with the hash
    it is given and with the hash computed from the string otherwise; for
    an entry that does not lie inside the storage it reads out of bounds.
    The interning returns when the tables have the sizes the string count
    asks for, every identifier entry lies inside the storage and the symbol
    table gives a symbol for every lookup. *)
Theorem interning_dispatch p s :
  wellFormedStrings p ->
  bcProvider_ s.2 = Some p ->
  getStringCount p <> 0 ->
  (forall s',
     importStringIDMapMayAllocate s = Done tt s' ->
     exists calls,
       identCalls s'.1
       = identCalls s.1 ++ CallReserve (getStringCount p) :: calls
       /\ length calls = identifiers (kindList (getStringKinds p))
       /\ forall i k,
            kindList (getStringKinds p) !! i = Some k ->
            match k with
            | KString => stringIDMap_ s'.2 !! i = Some SymbolID_empty
            | KPredefined =>
                exists tr,
                  getIdentifierTranslations p
                    !! translated (take i (kindList (getStringKinds p)))
                  = Some tr
                  /\ stringIDMap_ s'.2 !! i = Some (unsafeCreate tr)
            | KIdentifier =>
                exists entry tr str id c t1 t2,
                  getStringTable p !! i = Some entry
                  /\ getIdentifierTranslations p
                       !! translated (take i (kindList (getStringKinds p)))
                     = Some tr
                  /\ calls !! identifiers (take i (kindList (getStringKinds p)))
                     = Some c
                  /\ viewsEntry (getStringStorage p) entry str
                  /\ internCall (persistent s.2) str tr t1 id c t2
                  /\ stringIDMap_ s'.2 !! i = Some id
            end)
  /\ (forall i entry mhash str,
        viewsEntry (getStringStorage p) entry str ->
        createSymbolFromStringIDMayAllocate i entry mhash s
        = mapStringMayAllocate str i
            (match mhash with Some h => h | None => hashString str end) s)
  /\ (forall i entry mhash,
        ~ entryInStorage (getStringStorage p) entry ->
        createSymbolFromStringIDMayAllocate i entry mhash s
        = Stopped Undefined)
  /\ ((toNat (getStringCount p) <= length (getStringTable p))%nat ->
      (translated (kindList (getStringKinds p))
       <= length (getIdentifierTranslations p))%nat ->
      (forall i entry,
         kindList (getStringKinds p) !! i = Some KIdentifier ->
         getStringTable p !! i = Some entry ->
         entryInStorage (getStringStorage p) entry) ->
      persistent s.2 = true \/ allocationSucceeds ->
      exists s', importStringIDMapMayAllocate s = Done tt s').
Proof.
  intros Hwf Hp Hn. split; [|split; [|split]].
  - intros s' Hrun.
    destruct (import_inv p s s' Hwf Hp Hrun)
      as (calls & t1 & sm1 & Hint & Hlen & [(_ & Hcalls & _ & Hsm)|[Hz _]]);
      [|done].
    subst sm1. exists calls. split; [done|].
    split; [by eapply Interned_calls|].
    intros i k Hk. pose proof (Interned_lookup _ _ _ _ _ _ _ _ _ _ i k Hint Hk)
      as Hat.
    simpl in Hat. destruct k; [|done|done].
    rewrite Hat. apply lookup_replicate_2.
    destruct Hwf as [_ <-]. by eapply lookup_lt_Some.
  - intros i entry mhash str Hstr. apply (createSymbol_unfold p); [done|].
    by apply entryString_views.
  - intros i entry mhash Hout. apply (createSymbol_out_of_storage p); [done|].
    by apply entryString_None.
  - intros Htable Htrs Hin Hok. by apply (import_run p).
Qed.

(** C8. The empty string table. For a provider without strings the code
    appends one slot to the string map and calls the two-argument
    [mapStringMayAllocate(s, hashString(s))], whose second argument is the
    string's index: the symbol of the empty string is written at the index
    that is the hash of the empty string. When the interning returns, that
    hash is 0 and the string map has exactly one entry, the symbol that the
    one interning call, made on the empty string after the walk, gave; with
    the hash 0 the interning does return. With any other hash the symbol
    table is called and the symbol is then written past the end of the
    one-slot map. For a provider with strings nothing is made up: the
    string map has as many entries as the table and the calls are those of
    the identifier entries. *)
Theorem empty_table_entry_indexed_by_hash p s :
  wellFormedStrings p ->
  bcProvider_ s.2 = Some p ->
  (getStringCount p = 0 ->
   (forall s',
      importStringIDMapMayAllocate s = Done tt s' ->
      hashString (ASCIIRef []) = 0
      /\ exists id c,
           internCall (persistent s.2) (ASCIIRef []) (hashString (ASCIIRef []))
             (reserve 0 (identifierTable s.1)) id c (identifierTable s'.1)
           /\ identCalls s'.1 = identCalls s.1 ++ [CallReserve 0; c]
           /\ stringIDMap_ s'.2 = [id])
   /\ (persistent s.2 = true \/ allocationSucceeds ->
       (hashString (ASCIIRef []) = 0 ->
        exists s', importStringIDMapMayAllocate s = Done tt s')
       /\ (hashString (ASCIIRef []) <> 0 ->
           importStringIDMapMayAllocate s = Stopped Undefined)))
  /\ (getStringCount p <> 0 ->
      forall s',
        importStringIDMapMayAllocate s = Done tt s' ->
        length (stringIDMap_ s'.2) = toNat (getStringCount p)
        /\ exists calls,
             identCalls s'.1
             = identCalls s.1 ++ CallReserve (getStringCount p) :: calls
             /\ length calls = identifiers (kindList (getStringKinds p))).
Proof.
  intros Hwf Hp. split.
  - intros Hz.
    assert (kindList (getStringKinds p) = []) as Hks.
    { destruct Hwf as [_ Hks]. rewrite Hz in Hks. simpl in Hks.
      by apply nil_length_inv in Hks. }
    split.
    + intros s' Hrun.
      destruct (import_inv p s s' Hwf Hp Hrun)
        as (calls & t1 & sm1 & Hint & Hlen
            & [[Hn _]|(_ & -> & id & c & Hcall & Hcalls & Hhash & Hsm)]);
        [done|].
      split; [done|]. exists id, c.
      rewrite Hks in Hint.
      destruct Hint as [_ ->]. by rewrite Hz in Hcall.
    + intros Hok. split.
      * intros Hhash. apply (import_run p); try done.
        -- rewrite Hz. unfold toNat. lia.
        -- rewrite Hks. change (translated []) with 0%nat. lia.
        -- intros i entry Hk. by rewrite Hks in Hk.
      * intros Hhash. rewrite (import_unfold p) by done. rewrite Hks.
        unfold afterWalk, walkStart. rewrite Hz.
        erewrite bind_Done by reflexivity. simpl.
        rewrite (bind_Done _ _ _ _ _ (modifyModule_run _ _)).
        apply bind_Stopped. unfold mapStringMayAllocate2.
        destruct (internCall_exists (persistent s.2) (ASCIIRef [])
                    (hashString (ASCIIRef []))
                    (reserve 0 (identifierTable s.1)) Hok)
          as (id & c & t' & Hcall).
        apply (mapStringMayAllocate_out_of_range _ _ _ _ id c t');
          [exact Hcall|].
        simpl. unfold toNat. lia.
  - intros Hn s' Hrun.
    destruct (import_inv p s s' Hwf Hp Hrun)
      as (calls & t1 & sm1 & Hint & Hlen & [(_ & Hcalls & _ & Hsm)|[Hz _]]);
      [|done].
    subst sm1. split; [done|]. exists calls. split; [done|].
    by eapply Interned_calls.
Qed.
End InterningFacts.

(** C10. After the interning of a provider with strings, every slot of the
    string map whose index lies in a run of plain strings still holds the
    empty symbol the map was filled with. The empty symbol being invalid, no
    strong pass accepts it: a pass that is not long-lived looks at no symbol
    at all, a long-lived pass accepts the valid symbols only. *)
Theorem string_slots_stay_empty {E : Externals} p s s' :
  wellFormedStrings p ->
  bcProvider_ s.2 = Some p ->
  getStringCount p <> 0 ->
  importStringIDMapMayAllocate s = Done tt s' ->
  isValid SymbolID_empty = false ->
  (forall i, kindList (getStringKinds p) !! i = Some KString ->
             stringIDMap_ s'.2 !! i = Some SymbolID_empty)
  /\ (forall markLongLived,
        StrongSymbol SymbolID_empty ∉ (markRoots markLongLived s'.2 []).2)
  /\ (forall markLongLived sym,
        StrongSymbol sym ∈ (markRoots markLongLived s'.2 []).2 ->
        markLongLived = true /\ isValid sym = true
        /\ sym ∈ stringIDMap_ s'.2).
Proof.
  intros Hwf Hp Hn Hrun Hinvalid.
  pose proof (interning_dispatch_slots p s s' Hwf Hp Hn Hrun) as Hslots.
  assert (forall markLongLived sym,
            StrongSymbol sym ∈ (markRoots markLongLived s'.2 []).2 ->
            markLongLived = true /\ isValid sym = true
            /\ sym ∈ stringIDMap_ s'.2) as Haccepted.
  { intros markLongLived sym. rewrite markRoots_recorded. simpl.
    intros Hin. apply elem_of_app in Hin as [Hin|Hin].
    - apply list_elem_of_fmap in Hin as [it [Heq _]]. discriminate.
    - destruct markLongLived; [|by apply elem_of_nil in Hin].
      apply list_elem_of_fmap in Hin as [sym' [[= <-] Hin]].
      apply list_elem_of_filter in Hin as [Hvalid Hin]. done. }
  split; [exact Hslots|]. split; [|exact Haccepted].
  intros markLongLived Hin. apply Haccepted in Hin as (_ & Hvalid & _).
  congruence.
Qed.

(** ** Construction *)

Section CreateFacts.
Context {E : Externals}.

Lemma newRuntimeModule_run domain flags r :
  newRuntimeModule domain flags r
  = Done (fresh (dom (moduleHeap r))) (registered domain flags r).
Proof. reflexivity. Qed.

Lemma fresh_address (r : Runtime) : moduleHeap r !! fresh (dom (moduleHeap r)) = None.
Proof. apply not_elem_of_dom. apply is_fresh. Qed.

(** The interning leaves everything but the symbol table and the string
    map as it was. *)
Lemma import_frame s s' :
  importStringIDMapMayAllocate s = Done tt s' ->
  cjsTables s'.1 = cjsTables s.1
  /\ runtimeModuleList s'.1 = runtimeModuleList s.1
  /\ domainModules s'.1 = domainModules s.1
  /\ moduleHeap s'.1 = moduleHeap s.1
  /\ codeBlockHeap s'.1 = codeBlockHeap s.1
  /\ domain_ s'.2 = domain_ s.2
  /\ persistent s'.2 = persistent s.2
  /\ bcProvider_ s'.2 = bcProvider_ s.2
  /\ functionMap_ s'.2 = functionMap_ s.2.
Proof.
  intros Hrun.
  pose proof (importStringIDMap_frame
                (fun s => (cjsTables s.1, runtimeModuleList s.1,
                           domainModules s.1, moduleHeap s.1,
                           codeBlockHeap s.1, domain_ s.2, persistent s.2,
                           bcProvider_ s.2, functionMap_ s.2))
                (fun _ _ _ _ => eq_refl) (fun _ _ _ => eq_refl) _ _ _ Hrun)
    as Heq.
  simpl in Heq. by simplify_eq.
Qed.

(** What [initializeMayAllocate] does, in terms of the interning. *)
Lemma initializeMayAllocate_run this bytecode s s1 :
  importStringIDMapMayAllocate (s.1, set_bcProvider (Some bytecode) s.2)
  = Done tt s1 ->
  initializeMayAllocate this bytecode s
  = Done
      (importCJSModuleTable_Domain (domain_ s.2) this
         (getCJSModuleOffset bytecode) (cjsTables s.1)).1
      (set_cjsTables
         (importCJSModuleTable_Domain (domain_ s.2) this
            (getCJSModuleOffset bytecode) (cjsTables s.1)).2 s1.1,
       set_functionMap
         (resize (toNat (getFunctionCount bytecode)) None (functionMap_ s1.2))
         s1.2).
Proof.
  intros Himport.
  destruct (import_frame _ _ Himport)
    as (Hcjs & _ & _ & _ & _ & Hdom & _ & Hbc & _).
  simpl in Hcjs, Hdom, Hbc.
  unfold initializeMayAllocate.
  rewrite (bind_Done _ _ _ _ _ (initializeWithoutCJS_run _ _ _ Himport)).
  unfold importCJSModuleTable.
  rewrite bind_assoc.
  erewrite bind_Done by (by apply provider_run).
  rewrite bind_assoc, (bind_Done _ _ _ _ _ (getModule_run _)).
  rewrite bind_assoc, (bind_Done _ _ _ _ _ (getRuntime_run _)).
  rewrite bind_assoc, (bind_Done _ _ _ _ _ (modifyRuntime_run _ _)).
  rewrite bind_ret. simpl. rewrite Hcjs, Hdom.
  by destruct (importCJSModuleTable_Domain _ _ _ _).1.
Qed.

Lemma initializeMayAllocate_stopped this bytecode s f :
  importStringIDMapMayAllocate (s.1, set_bcProvider (Some bytecode) s.2)
  = Stopped f ->
  initializeMayAllocate this bytecode s = Stopped f.
Proof.
  intros Himport. unfold initializeMayAllocate.
  apply bind_Stopped. unfold initializeWithoutCJSModulesMayAllocate.
  rewrite (bind_Done _ _ _ _ _ (modifyModule_run _ _)).
  by apply bind_Stopped.
Qed.

(** [create], in terms of the interning of the new binding. *)
Lemma create_run domain bytecode flags r s1 :
  interningOf domain flags bytecode r = Done tt s1 ->
  create domain (Some bytecode) flags r
  = Done
      (match importStatus domain bytecode r with
       | EXCEPTION => CallException
       | RETURNED => CallValue (fresh (dom (moduleHeap r)))
       end)
      (set_moduleHeap
         (<[fresh (dom (moduleHeap r)) :=
              set_functionMap
                (resize (toNat (getFunctionCount bytecode)) None [])
                s1.2]> (moduleHeap (registered domain flags r)))
         (set_cjsTables
            (importCJSModuleTable_Domain domain (fresh (dom (moduleHeap r)))
               (getCJSModuleOffset bytecode) (cjsTables r)).2 s1.1)).
Proof.
  intros Himport. unfold interningOf in Himport.
  destruct (import_frame _ _ Himport)
    as (_ & _ & _ & Hheap & _ & _ & _ & _ & Hfm).
  simpl in Hheap, Hfm.
  unfold create. rewrite (bind_Done _ _ _ _ _ (newRuntimeModule_run _ _ _)).
  erewrite bind_Done.
  2:{ eapply onModule_run; [apply lookup_insert_eq|].
      apply initializeMayAllocate_run. exact Himport. }
  simpl. rewrite Hfm, Hheap. unfold importStatus.
  by destruct (importCJSModuleTable_Domain _ _ _ _).1.
Qed.

Lemma create_stopped domain bytecode flags r f :
  interningOf domain flags bytecode r = Stopped f ->
  create domain (Some bytecode) flags r = Stopped f.
Proof.
  intros Himport. unfold create.
  rewrite (bind_Done _ _ _ _ _ (newRuntimeModule_run _ _ _)).
  apply bind_Stopped. unfold onModule.
  simpl. rewrite lookup_insert_eq.
  by rewrite (initializeMayAllocate_stopped _ bytecode
                (registered domain flags r, constructed domain flags) f Himport).
Qed.

Lemma create_without_bytecode domain flags r :
  create domain None flags r
  = Done (CallValue (fresh (dom (moduleHeap r)))) (registered domain flags r).
Proof. reflexivity. Qed.
(** C3. [create] with a provider, the interning of the new binding having
    returned: [create] returns, with the Exception signal when the
    CommonJS import reports EXCEPTION and with the binding's address when it
    reports RETURNED. In both cases the binding sits at its fresh address,
    initialised over the provider, and is the newest entry of the runtime's
    list of bindings and of its domain's; no other binding and no function
    record has been touched. The failure path deletes and unregisters
    nothing. *)
Theorem create_keeps_binding_registered domain bytecode flags r s1 :
  interningOf domain flags bytecode r = Done tt s1 ->
  exists res r' rm,
    create domain (Some bytecode) flags r = Done res r'
    /\ (importStatus domain bytecode r = EXCEPTION -> res = CallException)
    /\ (importStatus domain bytecode r = RETURNED ->
        res = CallValue (fresh (dom (moduleHeap r))))
    /\ runtimeModuleList r' = runtimeModuleList r ++ [fresh (dom (moduleHeap r))]
    /\ domainModules r'
       = domainModules r ++ [(domain, fresh (dom (moduleHeap r)))]
    /\ moduleHeap r !! fresh (dom (moduleHeap r)) = None
    /\ moduleHeap r' !! fresh (dom (moduleHeap r)) = Some rm
    /\ bcProvider_ rm = Some bytecode
    /\ domain_ rm = domain
    /\ persistent rm = flags
    /\ stringIDMap_ rm = stringIDMap_ s1.2
    /\ functionMap_ rm = replicate (toNat (getFunctionCount bytecode)) None
    /\ (forall m, m <> fresh (dom (moduleHeap r)) ->
                  moduleHeap r' !! m = moduleHeap r !! m)
    /\ codeBlockHeap r' = codeBlockHeap r.
Proof.
  intros Himport. pose proof (create_run _ _ _ _ _ Himport) as Hcreate.
  unfold interningOf in Himport.
  destruct (import_frame _ _ Himport)
    as (_ & Hlist & Hdomain & Hheap & Hblocks & Hdom & Hper & Hbc & _).
  simpl in Hlist, Hdomain, Hheap, Hblocks, Hdom, Hper, Hbc.
  eexists _, _, _. split; [exact Hcreate|].
  split; [by intros ->|]. split; [by intros ->|].
  split; [done|]. split; [done|]. split; [apply fresh_address|].
  split; [apply lookup_insert_eq|]. simpl.
  split; [done|]. split; [done|]. split; [done|]. split; [done|].
  split; [by rewrite resize_nil|].
  split; [|done].
  intros m Hm. simpl. by rewrite !lookup_insert_ne.
Qed.

(** C2 (amended). [create] returns the Exception signal exactly when it was
    given a provider and the CommonJS import for it reported EXCEPTION: a
    failure of that import is handed to the caller. Identifier resolution
    has no such channel. Its allocating lookup goes through
    [ignoreAllocationFailure]; when the interning does not return, neither
    does [create], and when it returns, [create] answers by the import's
    status alone. *)
Theorem create_exception_only_from_import domain bytecode flags r :
  (forall res r',
     create domain bytecode flags r = Done res r' ->
     (res = CallException
      <-> exists bc, bytecode = Some bc
                     /\ importStatus domain bc r = EXCEPTION))
  /\ (forall bc f,
        bytecode = Some bc ->
        interningOf domain flags bc r = Stopped f ->
        create domain bytecode flags r = Stopped f)
  /\ (forall bc s1,
        bytecode = Some bc ->
        interningOf domain flags bc r = Done tt s1 ->
        exists r',
          create domain bytecode flags r
          = Done (match importStatus domain bc r with
                  | EXCEPTION => CallException
                  | RETURNED => CallValue (fresh (dom (moduleHeap r)))
                  end) r').
Proof.
  split; [|split].
  - intros res r' Hcreate. destruct bytecode as [bc|].
    + destruct (interningOf domain flags bc r) as [[] s1|f] eqn:Himport.
      * rewrite (create_run _ _ _ _ _ Himport) in Hcreate.
        injection Hcreate as <- _.
        destruct (importStatus domain bc r) eqn:Hstatus.
        -- split; [|done]. intros _. by exists bc.
        -- split; [done|]. intros (bc' & [= <-] & Hst). congruence.
      * rewrite (create_stopped _ _ _ _ _ Himport) in Hcreate. done.
    + rewrite create_without_bytecode in Hcreate. injection Hcreate as <- _.
      split; [done|]. by intros (bc & ? & _).
  - intros bc f -> Himport. by apply create_stopped.
  - intros bc s1 -> Himport. eexists. by apply create_run.
Qed.
End CreateFacts.

(** A binding created without persistence over a table with one identifier,
    on a symbol table that cannot allocate: the lookup of the identifier
    fails, and whatever [ignoreAllocationFailure] makes of the failure,
    [create] does not return the Exception signal (the CommonJS import, for
    its part, succeeds). *)
Lemma create_swallows_interning_failure :
  (Sample.symbolHandle (ASCIIRef [97; 98]) 1234
     {| Sample.strings := []; Sample.budget := 0 |}).1 = CallException
  /\ ~ exists onFailure r',
        create (E:=Sample.externals 100 onFailure) 1 (Some Sample.bytecode)
          false (Sample.start 100 onFailure 0)
        = Done CallException r'.
Proof.
  split; [reflexivity|].
  intros (onFailure & r' & Hcreate).
  destruct onFailure as [id|].
  - assert (exists r'',
              create (E:=Sample.externals 100 (Some id)) 1
                (Some Sample.bytecode) false (Sample.start 100 (Some id) 0)
              = Done (CallValue 0) r'') as [r'' Heq]
      by (eexists;
          match goal with
          | |- ?run = _ =>
              let v := eval vm_compute in run in exact (eq_refl v)
          end).
    rewrite Heq in Hcreate. discriminate.
  - assert (create (E:=Sample.externals 100 None) 1
              (Some Sample.bytecode) false (Sample.start 100 None 0)
            = Stopped Fatal) as Heq by reflexivity.
    rewrite Heq in Hcreate. discriminate.
Qed.

(** ** One record per slot *)

Section SlotFacts.
Context {E : Externals}.

Lemma ownedBlocks_app r this l1 l2 :
  ownedBlocks r this (l1 ++ l2)
  = ownedBlocks r this l1 ++ ownedBlocks r this l2.
Proof. apply omap_app. Qed.

(** The slow path of [getCodeBlock] for a function that is not lazy puts a
    new record into a slot: the records the binding owns stay pairwise
    distinct, and every slot still points to a live record. So the
    condition under which teardown is proved holds of every function map
    that was filled this way. *)
Lemma new_record_keeps_owned_distinct r this fm i index :
  (i < length fm)%nat ->
  (forall block, Some block ∈ fm -> is_Some (codeBlockHeap r !! block)) ->
  NoDup (ownedBlocks r this fm) ->
  exists cb r',
    createCodeBlock this index r = Done cb r'
    /\ codeBlockHeap r !! cb = None
    /\ getRuntimeModule r' cb = Some this
    /\ (forall block, Some block ∈ <[i := Some cb]> fm ->
                      is_Some (codeBlockHeap r' !! block))
    /\ NoDup (ownedBlocks r' this (<[i := Some cb]> fm)).
Proof.
  intros Hi Hlive Hnodup.
  set (cb := fresh (dom (codeBlockHeap r))).
  assert (codeBlockHeap r !! cb = None) as Hfresh
    by apply not_elem_of_dom, is_fresh.
  eexists cb, _. split; [reflexivity|]. split; [done|].
  set (r' := set_codeBlockHeap _ r).
  assert (getRuntimeModule r' cb = Some this) as Hown.
  { unfold getRuntimeModule, r'. simpl. by rewrite lookup_insert_eq. }
  split; [done|].
  assert (forall block, Some block ∈ fm -> block <> cb) as Hold.
  { intros block Hin ->. destruct (Hlive cb Hin) as [? Hcb]. congruence. }
  assert (forall l, (forall block, Some block ∈ l -> Some block ∈ fm) ->
                    ownedBlocks r' this l = ownedBlocks r this l) as Hext.
  { intros l Hl. apply ownedBlocks_ext. intros block Hin.
    unfold getRuntimeModule, r'. simpl.
    rewrite lookup_insert_ne; [done|]. apply not_eq_sym, Hold, Hl, Hin. }
  destruct (lookup_lt_is_Some_2 fm i Hi) as [x Hx].
  pose proof (take_drop_middle fm i x Hx) as Hsplit.
  rewrite insert_take_drop by done.
  assert (forall block, Some block ∈ take i fm -> Some block ∈ fm) as Hl1.
  { intros block Hin. rewrite <- Hsplit. apply elem_of_app. by left. }
  assert (forall block, Some block ∈ drop (S i) fm -> Some block ∈ fm) as Hl2.
  { intros block Hin. rewrite <- Hsplit. apply elem_of_app. right. by right. }
  split.
  - intros block Hin. apply elem_of_app in Hin as [Hin|Hin].
    + unfold r'. simpl. rewrite lookup_insert_ne
        by (apply not_eq_sym, Hold, Hl1, Hin).
      apply Hlive, Hl1, Hin.
    + apply elem_of_cons in Hin as [[= ->]|Hin].
      * unfold r'. simpl. rewrite lookup_insert_eq. by eexists.
      * unfold r'. simpl. rewrite lookup_insert_ne
          by (apply not_eq_sym, Hold, Hl2, Hin).
        apply Hlive, Hl2, Hin.
  - rewrite <- Hsplit in Hnodup.
    rewrite ownedBlocks_app in Hnodup.
    change (x :: drop (S i) fm) with ([x] ++ drop (S i) fm) in Hnodup.
    rewrite ownedBlocks_app in Hnodup.
    apply NoDup_app in Hnodup as (Hn1 & Hdisj & Hn2).
    apply NoDup_app in Hn2 as (_ & _ & Hn2).
    rewrite ownedBlocks_app.
    change (Some cb :: drop (S i) fm) with ([Some cb] ++ drop (S i) fm).
    rewrite ownedBlocks_app.
    rewrite (Hext (take i fm)), (Hext (drop (S i) fm)) by done.
    assert (ownedBlocks r' this [Some cb] = [cb]) as ->.
    { unfold ownedBlocks. simpl. by rewrite decide_True. }
    assert (forall l, (forall block, Some block ∈ l -> Some block ∈ fm) ->
                      cb ∉ ownedBlocks r this l) as Hnew.
    { intros l Hl Hin. apply elem_of_ownedBlocks in Hin as [Hin _].
      by apply (Hold cb (Hl _ Hin)). }
    apply NoDup_app. split; [done|]. split.
    + intros block Hin1 Hin2. apply elem_of_cons in Hin2 as [->|Hin2].
      * by apply (Hnew _ Hl1).
      * apply (Hdisj block Hin1). apply elem_of_app. by right.
    + apply NoDup_cons. split; [by apply Hnew | done].
Qed.
End SlotFacts.

(** ** The lazy child as [createLazyModule] leaves it *)

Section LazyModuleFacts.
Context {E : Externals}.
Variable getSymbolIDFromStringIDMayAllocate : N -> Method SymbolID.
(** The symbol lookup of the parent creates and deletes no binding and no
    function record. *)
Hypothesis lookup_frame :
  forall i,
    preserves (fun s : Runtime * RuntimeModule =>
                 (moduleHeap s.1, codeBlockHeap s.1))
      (getSymbolIDFromStringIDMayAllocate i).

Lemma onModule_inv {A} this (m : Method A) r a r' :
  onModule this m r = Done a r' ->
  exists rm s',
    moduleHeap r !! this = Some rm
    /\ m (r, rm) = Done a s'
    /\ r' = set_moduleHeap (<[this := s'.2]> (moduleHeap s'.1)) s'.1.
Proof.
  unfold onModule. destruct (moduleHeap r !! this) as [rm|]; [|done].
  destruct (m (r, rm)) as [a' s'|] eqn:Hm; [|done].
  intros [= <- <-]. by exists rm, s'.
Qed.

Lemma provider_inv p (s s' : Runtime * RuntimeModule) :
  provider s = Done p s' -> s' = s /\ bcProvider_ s.2 = Some p.
Proof.
  unfold provider. rewrite (bind_Done _ _ _ _ _ (getModule_run _)).
  destruct (bcProvider_ s.2); [|done]. by intros [= -> ->].
Qed.

(** The child that [createLazyModule] returns sits at a fresh address and
    holds one function record, new and owned by the child, in slot 0 of its
    function map, and one symbol, the function's name, in its string map. *)
Lemma createLazyModule_child domain parent functionID r RM r' :
  createLazyModule getSymbolIDFromStringIDMayAllocate domain parent functionID r
  = Done RM r' ->
  moduleHeap r !! RM = None
  /\ exists rm cb name,
       moduleHeap r' !! RM = Some rm
       /\ functionMap_ rm = [Some cb]
       /\ stringIDMap_ rm = [name]
       /\ codeBlockHeap r !! cb = None
       /\ codeBlockHeap r' !! cb
          = Some {| cb_runtimeModule := RM; cb_functionID := functionID |}.
Proof.
  unfold createLazyModule. intros Hrun.
  rewrite (bind_Done _ _ _ _ _ (newRuntimeModule_run _ _ _)) in Hrun.
  set (RM0 := fresh (dom (moduleHeap r))) in *.
  apply bind_inv in Hrun as (pbc & r1 & Hparent & Hrun).
  apply onModule_inv in Hparent as (rmP & s1 & HrmP & Hprov & ->).
  apply provider_inv in Hprov as [-> Hpbc]. simpl in HrmP, Hpbc.
  assert (parent <> RM0) as Hne.
  { intros ->. rewrite lookup_insert_eq in HrmP. injection HrmP as <-.
    done. }
  apply bind_inv in Hrun as ([] & r2 & Hset & Hrun).
  apply onModule_inv in Hset as (rm0 & s2 & Hrm0 & Hmod & ->).
  simpl in Hrm0. rewrite lookup_insert_ne, lookup_insert_eq in Hrm0 by done.
  injection Hrm0 as <-. injection Hmod as <-. simpl in Hrun.
  apply bind_inv in Hrun as (cb & r3 & Hcb & Hrun).
  injection Hcb as <- <-. simpl in Hrun.
  set (cb := fresh (dom (codeBlockHeap r))) in *.
  apply bind_inv in Hrun as ([] & r4 & Hpush & Hrun).
  apply onModule_inv in Hpush as (rm3 & s4 & Hrm3 & Hmod & ->).
  simpl in Hrm3. rewrite lookup_insert_eq in Hrm3.
  injection Hrm3 as <-. injection Hmod as <-. simpl in Hrun.
  apply bind_inv in Hrun as (name & r5 & Hname & Hrun).
  apply onModule_inv in Hname as (rmP' & s5 & HrmP' & Hlookup & ->).
  pose proof (lookup_frame _ _ _ _ Hlookup) as Hframe.
  simpl in Hframe. injection Hframe as Hheap Hblocks.
  apply bind_inv in Hrun as ([] & r6 & Hpush & Hret).
  injection Hret as <- <-.
  apply onModule_inv in Hpush as (rm5 & s6 & Hrm5 & Hmod & ->).
  simpl in Hrm5. rewrite lookup_insert_ne in Hrm5 by done.
  rewrite Hheap, lookup_insert_eq in Hrm5.
  injection Hrm5 as <-. injection Hmod as <-. simpl.
  split; [apply fresh_address|].
  eexists _, cb, name. split; [apply lookup_insert_eq|].
  split; [done|]. split; [done|].
  split; [apply not_elem_of_dom, is_fresh|].
  rewrite Hblocks. apply lookup_insert_eq.
Qed.
End LazyModuleFacts.

(** ** The theorems on the sample world *)

(** Closes [m s = ...] on a sample state by evaluating the run. *)
Ltac evaluate :=
  match goal with
  | |- ?run = _ => let v := eval vm_compute in run in exact (eq_refl v)
  end.

Ltac run_sample := eexists; evaluate.

(** The name of the lazy function "foo". *)
Lemma lazy_name_string_sample :
  getLazyNameString [] (Sample.named, Sample.lazyChild)
  = Done (true, [102; 111; 111]) (Sample.named, Sample.lazyChild).
Proof.
  exact (lazy_name_string [] (unsafeCreate 0)
           (Sample.named, Sample.lazyChild) eq_refl).
Defined.

(** The lazy child compiles function 2 of 3: its record moves from slot 0
    to slot 2. *)
Lemma lazy_child_retargets_sample :
  exists s',
    initializeLazyMayAllocate Sample.bytecode
      (Sample.start 100 None 5, Sample.lazyChild) = Done tt s'
    /\ functionMap_ s'.2 = [None; None; Some 7].
Proof.
  edestruct (lazy_child_retargets Sample.bytecode 7
               (Sample.start 100 None 5, Sample.lazyChild))
    as (s' & Hrun & _ & _ & Hfm & _);
    [reflexivity | reflexivity | evaluate |].
  exists s'. split; [exact Hrun | exact Hfm].
Defined.

(** Teardown of the binding 0 of the sample family: the slot of the
    borrowed record 11 is nulled, the record 10 is deleted, once, and 11 is
    still there. *)
Lemma teardown_deletes_owned_sample :
  exists r1 rm1 r2,
    onModule 0 (prepareForRuntimeShutdown 0) Sample.family = Done tt r1
    /\ moduleHeap r1 !! 0 = Some rm1
    /\ functionMap_ rm1 !! 0%nat = Some (Some 10)
    /\ functionMap_ rm1 !! 1%nat = Some None
    /\ destroy 0 r1 = Done [10] r2
    /\ codeBlockHeap r2 !! 10 = None
    /\ codeBlockHeap r2 !! 11 = codeBlockHeap Sample.family !! 11.
Proof.
  destruct (teardown_deletes_owned Sample.family 0 Sample.parentModule)
    as (r1 & rm1 & r2 & Hprep & Hthis & _ & _ & Hslot & _ & Hdestroy & _
        & Hheap & _).
  - reflexivity.
  - reflexivity.
  - intros block Hin.
    apply elem_of_cons in Hin as [Heq|Hin];
      [injection Heq as ->; eexists; reflexivity|].
    apply elem_of_cons in Hin as [Heq|Hin];
      [injection Heq as ->; eexists; reflexivity|].
    apply elem_of_cons in Hin as [Heq|Hin]; [discriminate|].
    by apply elem_of_nil in Hin.
  - exact (NoDup_singleton 10).
  - exists r1, rm1, r2.
    split; [exact Hprep|]. split; [exact Hthis|].
    split; [exact (Hslot 0%nat 10 0 eq_refl eq_refl)|].
    split; [exact (Hslot 1%nat 11 5 eq_refl eq_refl)|].
    split; [exact Hdestroy|].
    split; [exact (Hheap 10) | exact (Hheap 11)].
Defined.

(** The narrow entry of length 2 at offset 0 of the sample storage reads
    "ab". *)
Lemma sample_entry_ab chars :
  viewsEntry (getStringStorage Sample.bytecode)
    {| isUTF16 := false; getOffset := 0; getLength := 2 |} (ASCIIRef chars) ->
  chars = [97; 98].
Proof.
  intros (_ & chars' & [= <-] & Hlen & Hchars).
  pose proof (Hchars 0%nat) as H0. pose proof (Hchars 1%nat) as H1.
  destruct chars as [|x [|y [|z chars]]]; try discriminate Hlen.
  simpl in H0, H1. unfold toNat in H0, H1. simpl in H0, H1.
  specialize (H0 ltac:(lia)). specialize (H1 ltac:(lia)).
  by simplify_eq.
Qed.

(** Interning the sample table ["ab"; "c"; "d"; "e"] in a persistent
    binding: it returns; the one identifier, entry 0, is registered lazily
    as "ab" with its translation 1234 as the hash; slot 1, a plain string,
    holds the empty symbol; slot 3, predefined, the symbol 7. *)
Lemma interning_dispatch_sample :
  exists s' id,
    importStringIDMapMayAllocate
      (Sample.start 100 None 5, Sample.loaded true Sample.bytecode)
    = Done tt s'
    /\ identCalls s'.1
       = [CallReserve 4; CallRegisterLazy (ASCIIRef [97; 98]) 1234 id]
    /\ stringIDMap_ s'.2 !! 0%nat = Some id
    /\ stringIDMap_ s'.2 !! 1%nat = Some (unsafeCreate 0x1fffffff)
    /\ stringIDMap_ s'.2 !! 3%nat = Some (unsafeCreate 7).
Proof.
  destruct (interning_dispatch Sample.bytecode
              (Sample.start 100 None 5, Sample.loaded true Sample.bytecode))
    as (Hinv & _ & _ & Hrun).
  - split; reflexivity.
  - reflexivity.
  - discriminate.
  - destruct Hrun as [s' Hs'].
    + apply Nat.leb_le. reflexivity.
    + apply Nat.leb_le. reflexivity.
    + intros [|[|[|[|i]]]] entry Hk Hentry; try discriminate Hk.
      injection Hentry as <-. apply Nat.leb_le. reflexivity.
    + left. reflexivity.
    + destruct (Hinv s' Hs') as (calls & Hcalls & Hlen & Hslots).
      destruct (Hslots 0%nat KIdentifier eq_refl)
        as (entry & tr & str & id & c & t1 & t2 & Hentry & Htr & Hc & Hview
            & Hcall & Hslot).
      injection Hentry as <-. injection Htr as <-.
      destruct Hcall as [_ ->].
      destruct Hview as (Hin & chars & -> & Hview).
      pose proof (sample_entry_ab chars
                    (conj Hin (ex_intro _ chars (conj eq_refl Hview))))
        as ->.
      destruct calls as [|c0 [|c1 calls]]; try discriminate Hlen.
      injection Hc as ->.
      exists s', id. split; [exact Hs'|]. split; [exact Hcalls|].
      split; [exact Hslot|].
      split; [exact (Hslots 1%nat KString eq_refl)|].
      destruct (Hslots 3%nat KPredefined eq_refl) as (tr & Htr & Hslot3).
      injection Htr as <-. exact Hslot3.
Defined.

(** Interning an empty table. Where the empty string hashes to 0 there is
    one entry, the symbol of the empty string; where it hashes to 1 the
    symbol is written past the end of the one-slot map. *)
Lemma empty_table_entry_indexed_by_hash_sample :
  (exists s' id,
     importStringIDMapMayAllocate
       (Sample.start 100 None 5, Sample.loaded true Sample.emptyBytecode)
     = Done tt s'
     /\ stringIDMap_ s'.2 = [id])
  /\ importStringIDMapMayAllocate
       (Sample.saltedStart, Sample.loaded true Sample.emptyBytecode)
     = Stopped Undefined.
Proof.
  split.
  - destruct (empty_table_entry_indexed_by_hash Sample.emptyBytecode
                (Sample.start 100 None 5,
                 Sample.loaded true Sample.emptyBytecode))
      as [Hempty _].
    + split; reflexivity.
    + reflexivity.
    + destruct (Hempty eq_refl) as [Hinv Hrun].
      destruct (Hrun (or_introl eq_refl)) as [Hreturns _].
      destruct (Hreturns eq_refl) as [s' Hs'].
      destruct (Hinv s' Hs') as (_ & id & c & _ & _ & Hsm).
      exists s', id. split; [exact Hs' | exact Hsm].
  - destruct (empty_table_entry_indexed_by_hash Sample.emptyBytecode
                (Sample.saltedStart,
                 Sample.loaded true Sample.emptyBytecode))
      as [Hempty _].
    + split; reflexivity.
    + reflexivity.
    + destruct (Hempty eq_refl) as [_ Hrun].
      destruct (Hrun (or_introl eq_refl)) as [_ Hstops].
      apply Hstops. discriminate.
Defined.

(** After interning the sample table no strong pass accepts the empty
    symbol, which slots 1 and 2 hold. *)
Lemma string_slots_stay_empty_sample :
  exists s',
    importStringIDMapMayAllocate
      (Sample.start 100 None 5, Sample.loaded true Sample.bytecode)
    = Done tt s'
    /\ stringIDMap_ s'.2 !! 2%nat = Some (unsafeCreate 0x1fffffff)
    /\ StrongSymbol (unsafeCreate 0x1fffffff)
         ∉ (markRoots (E:=Sample.externals 100 None) true s'.2 []).2.
Proof.
  assert (exists s',
            importStringIDMapMayAllocate
              (Sample.start 100 None 5, Sample.loaded true Sample.bytecode)
            = Done tt s') as [s' Hs'] by run_sample.
  destruct (string_slots_stay_empty Sample.bytecode
              (Sample.start 100 None 5, Sample.loaded true Sample.bytecode) s'
              (conj eq_refl eq_refl) eq_refl (fun H => N.neq_succ_0 3 H)
              Hs' eq_refl)
    as (Hslots & Hskip & _).
  exists s'. split; [exact Hs'|].
  split; [exact (Hslots 2%nat eq_refl) | exact (Hskip true)].
Defined.

(** [create] on a domain whose import fails: the Exception signal, and the
    binding is in the runtime's list. *)
Lemma create_keeps_binding_registered_sample :
  exists r',
    create (E:=Sample.externals 0 None) 1 (Some Sample.bytecode) true
      (Sample.start 0 None 5)
    = Done CallException r'
    /\ runtimeModuleList r'
       = [fresh (dom (moduleHeap (Sample.start 0 None 5)))]
    /\ is_Some (moduleHeap r'
                  !! fresh (dom (moduleHeap (Sample.start 0 None 5)))).
Proof.
  assert (exists s1,
            interningOf (E:=Sample.externals 0 None) 1 true Sample.bytecode
              (Sample.start 0 None 5) = Done tt s1) as [s1 Hs1]
    by run_sample.
  destruct (create_keeps_binding_registered 1 Sample.bytecode true
              (Sample.start 0 None 5) s1 Hs1)
    as (res & r' & rm & Hcreate & Hfail & _ & Hlist & _ & _ & Hheap & _).
  rewrite (Hfail eq_refl) in Hcreate.
  exists r'. split; [exact Hcreate|]. split; [exact Hlist|].
  exists rm. exact Hheap.
Defined.

(** * Further properties *)

(** ** Reading a string of the table *)

Section StringFacts.
Context {E : Externals}.

(** X1. [getStringFromStringID] on a binding with a provider. For a
    UTF-16 entry it returns [false] and leaves the caller's string as it
    was. For an entry in the narrow encoding that lies inside the string
    storage it returns [true] with the string the storage holds for the
    entry: the entry's length in bytes from the entry's offset on, the very
    string under which [createSymbolFromStringIDMayAllocate] interns the
    entry. The state is not changed. A narrow entry that does not lie
    inside the storage is copied from outside the buffer, and an index past
    the end of the string table is read out of bounds: both are
    undefined. *)
Theorem getStringFromStringID_reads_entry p stringID res s :
  bcProvider_ s.2 = Some p ->
  match getStringTable p !! toNat stringID with
  | None => getStringFromStringID stringID res s = Stopped Undefined
  | Some entry =>
      if isUTF16 entry then
        getStringFromStringID stringID res s = Done (false, res) s
      else
        (~ entryInStorage (getStringStorage p) entry ->
         getStringFromStringID stringID res s = Stopped Undefined)
        /\ (entryInStorage (getStringStorage p) entry ->
            exists chars,
              getStringFromStringID stringID res s = Done (true, chars) s
              /\ viewsEntry (getStringStorage p) entry (ASCIIRef chars)
              /\ forall mhash,
                   createSymbolFromStringIDMayAllocate stringID entry mhash s
                   = mapStringMayAllocate (ASCIIRef chars) stringID
                       (match mhash with
                        | Some h => h
                        | None => hashString (ASCIIRef chars)
                        end) s)
  end.
Proof.
  intros Hp. unfold getStringFromStringID, getStringTableEntry.
  rewrite bind_assoc, (bind_Done _ _ _ _ _ (provider_run _ _ Hp)).
  destruct (getStringTable p !! toNat stringID) as [entry|] eqn:Hentry;
    [|reflexivity].
  rewrite bind_deref_Some.
  destruct (isUTF16 entry) eqn:Hutf; [reflexivity|].
  rewrite (bind_Done _ _ _ _ _ (provider_run _ _ Hp)).
  assert (entryString (getStringStorage p) entry
          = ASCIIRef <$> readBytes (getStringStorage p)
                           (toNat (getOffset entry))
                           (toNat (getLength entry))) as Hstr
    by (unfold entryString; by rewrite Hutf).
  destruct (readBytes (getStringStorage p) (toNat (getOffset entry))
              (toNat (getLength entry))) as [chars|] eqn:Hread;
    simpl in Hstr.
  - split.
    + intros Hout. by apply entryString_None in Hout; rewrite Hout in Hstr.
    + intros _. exists chars. rewrite bind_deref_Some.
      split; [reflexivity|].
      split; [by apply entryString_views|].
      intros mhash. by apply (createSymbol_unfold p).
  - split; [reflexivity|].
    intros Hin. apply entryString_is_Some in Hin as [str Hin]. congruence.
Qed.

(** X2. [detail::mapStringMayAllocate] on a string map of fewer than
    2^32 - 1 entries: when the symbol table gives the symbol [id] for the
    string, the map grows by one slot holding [id], the slots it had are
    untouched, and the result is the index of the new slot. *)
Theorem detail_mapString_appends str s id c t' :
  N.of_nat (length (stringIDMap_ s.2)) + 1 < 2 ^ 32 ->
  internCall (persistent s.2) (ASCIIRef str) (hashString (ASCIIRef str))
    (identifierTable s.1) id c t' ->
  exists index s',
    detail_mapStringMayAllocate str s = Done index s'
    /\ index = N.of_nat (length (stringIDMap_ s.2))
    /\ stringIDMap_ s'.2 = stringIDMap_ s.2 ++ [id]
    /\ stringIDMap_ s'.2 !! toNat index = Some id
    /\ (forall i, (i < length (stringIDMap_ s.2))%nat ->
                  stringIDMap_ s'.2 !! i = stringIDMap_ s.2 !! i)
    /\ s'.1 = set_identifierTable t' c s.1
    /\ functionMap_ s'.2 = functionMap_ s.2.
Proof.
  intros Hlen Hcall. unfold detail_mapStringMayAllocate.
  rewrite (bind_Done _ _ _ _ _ (modifyModule_run _ _)).
  rewrite (bind_Done _ _ _ _ _ (getModule_run _)).
  simpl. rewrite length_app. simpl.
  replace (wrap32 (N.of_nat (length (stringIDMap_ s.2) + 1) - 1))
    with (N.of_nat (length (stringIDMap_ s.2)))
    by (rewrite wrap32_small; lia).
  unfold mapStringMayAllocate2.
  erewrite bind_Done.
  2:{ apply mapStringMayAllocate_run; [exact Hcall|]. simpl.
      rewrite length_app. simpl. unfold toNat. lia. }
  rewrite (bind_Done _ _ _ _ _ (getModule_run _)). simpl.
  unfold toNat. rewrite Nat2N.id.
  assert (<[length (stringIDMap_ s.2) := id]>
            (stringIDMap_ s.2 ++ [SymbolID_default])
          = stringIDMap_ s.2 ++ [id]) as Hmap.
  { rewrite insert_app_r_alt by lia. by rewrite Nat.sub_diag. }
  rewrite Hmap, length_app. simpl.
  replace (wrap32 (N.of_nat (length (stringIDMap_ s.2) + 1) - 1))
    with (N.of_nat (length (stringIDMap_ s.2)))
    by (rewrite wrap32_small; lia).
  eexists _, _. split; [reflexivity|]. simpl. rewrite Nat2N.id.
  split; [done|]. split; [done|].
  split; [by rewrite lookup_app_r, Nat.sub_diag by lia|].
  split; [intros i Hi; by rewrite lookup_app_l|]. done.
Qed.
End StringFacts.

(** ** The two interning strategies *)

Section ModeFacts.
Context {E : Externals}.

Lemma respectsMode_bind {A B} (m : Method A) (k : A -> Method B) :
  respectsMode m -> (forall a, respectsMode (k a)) -> respectsMode (bind m k).
Proof.
  intros Hm Hk s. specialize (Hm s). unfold bind.
  destruct (m s) as [a s1|f]; [|done].
  destruct Hm as (Hper & calls1 & Hc1 & Ha1).
  specialize (Hk a s1). destruct (k a s1) as [b s2|f].
  - destruct Hk as (Hper2 & calls2 & Hc2 & Ha2).
    split; [congruence|]. exists (calls1 ++ calls2).
    split; [by rewrite Hc2, Hc1, app_assoc|].
    rewrite forallb_app, Ha1. by rewrite <- Hper.
  - intros Htrue. apply Hk. congruence.
Qed.

(** A step that returns without touching the state, or is undefined. *)
Lemma respectsMode_read {A} (m : Method A) :
  (forall s, (exists a, m s = Done a s) \/ m s = Stopped Undefined) ->
  respectsMode m.
Proof.
  intros Hm s. destruct (Hm s) as [[a ->]| ->]; [|done].
  split; [done|]. exists []. by rewrite app_nil_r.
Qed.

Lemma respectsMode_ret {A} (a : A) : respectsMode (ret a).
Proof. apply respectsMode_read. intros s. left. by exists a. Qed.

Lemma respectsMode_getModule : respectsMode getModule.
Proof. apply respectsMode_read. intros s. left. by eexists. Qed.

Lemma respectsMode_deref {A} (o : option A) : respectsMode (deref o).
Proof.
  apply respectsMode_read. intros s. destruct o as [a|]; [left|right]; eauto.
Qed.

Lemma respectsMode_provider : respectsMode provider.
Proof.
  apply respectsMode_bind; [apply respectsMode_getModule|].
  intros rm. apply respectsMode_deref.
Qed.

Lemma respectsMode_modifyModule g :
  (forall rm, persistent (g rm) = persistent rm) ->
  respectsMode (modifyModule g).
Proof.
  intros Hg s. simpl. split; [apply Hg|]. exists []. by rewrite app_nil_r.
Qed.

Lemma respectsMode_storeSymbol stringID id :
  respectsMode (storeSymbol stringID id).
Proof.
  apply respectsMode_bind; [apply respectsMode_getModule|].
  intros rm. destruct (decide _); [by apply respectsMode_modifyModule|].
  apply respectsMode_read. intros s. by right.
Qed.

Lemma respectsMode_callReserve n : respectsMode (callReserve n).
Proof.
  intros s. simpl. split; [done|]. by exists [CallReserve n].
Qed.

Lemma respectsMode_mapString str stringID hash :
  respectsMode (mapStringMayAllocate str stringID hash).
Proof.
  pose proof (respectsMode_storeSymbol stringID) as Hstore.
  intros [r rm]. unfold mapStringMayAllocate.
  rewrite (bind_Done _ _ _ _ _ (getModule_run _)). simpl.
  destruct (persistent rm) eqn:Hper.
  - unfold callRegisterLazyIdentifier.
    rewrite bind_assoc, (bind_Done _ _ _ _ _ (getRuntime_run _)). simpl.
    rewrite bind_assoc, (bind_Done _ _ _ _ _ (modifyRuntime_run _ _)). simpl.
    rewrite bind_ret.
    set (res := registerLazyIdentifier str hash (identifierTable r)).
    set (r1 := set_identifierTable _ _ r).
    specialize (Hstore res.1 (r1, rm)). unfold bind.
    destruct (storeSymbol stringID res.1 (r1, rm)) as [[] s2|f];
      [|intros _; apply Hstore; exact Hper].
    destruct Hstore as (Hper2 & calls & Hcalls & Hallowed). simpl in *.
    split; [congruence|]. exists (CallRegisterLazy str hash res.1 :: calls).
    rewrite Hcalls, <- app_assoc. split; [done|].
    simpl. by rewrite Hper in Hallowed.
  - unfold callGetSymbolHandle.
    rewrite !bind_assoc, (bind_Done _ _ _ _ _ (getRuntime_run _)). simpl.
    rewrite !bind_assoc, (bind_Done _ _ _ _ _ (modifyRuntime_run _ _)). simpl.
    rewrite bind_ret.
    set (res := getSymbolHandle str hash (identifierTable r)).
    set (r1 := set_identifierTable _ _ r).
    unfold callIgnoreAllocationFailure.
    destruct (ignoreAllocationFailure res.1) as [id|]; [|done].
    rewrite bind_ret.
    specialize (Hstore id (r1, rm)). unfold bind.
    destruct (storeSymbol stringID id (r1, rm)) as [[] s2|f]; [|done].
    destruct Hstore as (Hper2 & calls & Hcalls & Hallowed). simpl in *.
    split; [congruence|]. exists (CallGetSymbolHandle str hash res.1 :: calls).
    rewrite Hcalls, <- app_assoc. split; [done|].
    simpl. by rewrite Hper in Hallowed.
Qed.

Lemma respectsMode_createSymbol stringID entry mhash :
  respectsMode (createSymbolFromStringIDMayAllocate stringID entry mhash).
Proof.
  apply respectsMode_bind; [apply respectsMode_provider|].
  intros p. apply respectsMode_bind; [apply respectsMode_deref|].
  intros str. apply respectsMode_mapString.
Qed.

Lemma respectsMode_identifierRun trs n : forall strID trnID,
  respectsMode (identifierRun trs n strID trnID).
Proof.
  induction n as [|n IH]; intros strID trnID; simpl.
  - apply respectsMode_ret.
  - apply respectsMode_bind.
    { apply respectsMode_bind; [apply respectsMode_provider|].
      intros p. apply respectsMode_deref. }
    intros entry. apply respectsMode_bind; [apply respectsMode_deref|].
    intros tr. apply respectsMode_bind; [apply respectsMode_createSymbol|].
    intros _. apply IH.
Qed.

Lemma respectsMode_predefinedRun trs n : forall strID trnID,
  respectsMode (predefinedRun trs n strID trnID).
Proof.
  induction n as [|n IH]; intros strID trnID; simpl.
  - apply respectsMode_ret.
  - apply respectsMode_bind; [apply respectsMode_deref|].
    intros tr. apply respectsMode_bind.
    { apply respectsMode_bind; [apply respectsMode_storeSymbol|].
      intros _. apply respectsMode_ret. }
    intros _. apply IH.
Qed.

Lemma respectsMode_walkKinds trs kinds : forall strID trnID,
  respectsMode (walkKinds trs kinds strID trnID).
Proof.
  induction kinds as [|entry kinds IH]; intros strID trnID; simpl.
  - apply respectsMode_ret.
  - apply respectsMode_bind; [|intros ids; apply IH].
    destruct (kind entry).
    + apply respectsMode_ret.
    + apply respectsMode_identifierRun.
    + apply respectsMode_predefinedRun.
Qed.

Lemma respectsMode_import : respectsMode importStringIDMapMayAllocate.
Proof.
  apply respectsMode_bind; [apply respectsMode_provider|]. intros p.
  apply respectsMode_bind; [by apply respectsMode_modifyModule|]. intros _.
  apply respectsMode_bind; [apply respectsMode_callReserve|]. intros _.
  apply respectsMode_bind; [apply respectsMode_walkKinds|]. intros _.
  destruct (getStringCount p =? 0); [|apply respectsMode_ret].
  apply respectsMode_bind; [by apply respectsMode_modifyModule|]. intros _.
  apply respectsMode_bind; [apply respectsMode_mapString|]. intros _.
  apply respectsMode_ret.
Qed.

(** X3. The interning keeps to the binding's strategy, whatever the
    provider. A persistent binding registers its identifiers lazily: its
    interning makes no allocating lookup and never stops in
    [ignoreAllocationFailure] (when it does not return, an index was out of
    range). Any other binding makes no lazy registration. In both cases
    the trace of the symbol table is only extended. *)
Theorem interning_respects_mode s :
  (persistent s.2 = true ->
   (forall f, importStringIDMapMayAllocate s = Stopped f -> f = Undefined)
   /\ forall s',
        importStringIDMapMayAllocate s = Done tt s' ->
        exists calls,
          identCalls s'.1 = identCalls s.1 ++ calls
          /\ forall str hash res, CallGetSymbolHandle str hash res ∉ calls)
  /\ (persistent s.2 = false ->
      forall s',
        importStringIDMapMayAllocate s = Done tt s' ->
        exists calls,
          identCalls s'.1 = identCalls s.1 ++ calls
          /\ forall str hash id, CallRegisterLazy str hash id ∉ calls).
Proof.
  pose proof (respectsMode_import s) as Hmode. split.
  - intros Hper. split.
    + intros f Hrun. rewrite Hrun in Hmode. by apply Hmode.
    + intros s' Hrun. rewrite Hrun in Hmode.
      destruct Hmode as (_ & calls & Hcalls & Hallowed).
      exists calls. split; [done|]. intros str hash res Hin.
      rewrite forallb_forall in Hallowed.
      apply list_elem_of_In, Hallowed in Hin. simpl in Hin.
      by rewrite Hper in Hin.
  - intros Hper s' Hrun. rewrite Hrun in Hmode.
    destruct Hmode as (_ & calls & Hcalls & Hallowed).
    exists calls. split; [done|]. intros str hash id Hin.
    rewrite forallb_forall in Hallowed.
    apply list_elem_of_In, Hallowed in Hin. simpl in Hin.
    by rewrite Hper in Hin.
Qed.
End ModeFacts.

(** ** Initialising again *)

Section ReinitFacts.
Context {E : Externals}.

Lemma bind_arg {S A B} (m : M S A) (k : A -> M S B) s1 s2 :
  m s1 = m s2 -> bind m k s1 = bind m k s2.
Proof. unfold bind. by intros ->. Qed.

Lemma import_forgets_string_map r rm m :
  importStringIDMapMayAllocate (r, set_stringIDMap m rm)
  = importStringIDMapMayAllocate (r, rm).
Proof.
  unfold importStringIDMapMayAllocate, provider.
  rewrite !bind_assoc, !(bind_Done _ _ _ _ _ (getModule_run _)). simpl.
  destruct (bcProvider_ rm) as [p|]; [|reflexivity].
  rewrite !bind_deref_Some.
  by rewrite !(bind_Done _ _ _ _ _ (modifyModule_run _ _)).
Qed.

Lemma initialize_forgets r rm m q bytecode :
  initializeWithoutCJSModulesMayAllocate bytecode
    (r, set_stringIDMap m (set_bcProvider q rm))
  = initializeWithoutCJSModulesMayAllocate bytecode (r, rm).
Proof.
  unfold initializeWithoutCJSModulesMayAllocate.
  rewrite !(bind_Done _ _ _ _ _ (modifyModule_run _ _)). simpl.
  apply bind_arg.
  apply (import_forgets_string_map r (set_bcProvider (Some bytecode) rm) m).
Qed.

(** X4. Initialising a binding replaces its string map. For a binding
    without a provider, which is what the assertion at the head of
    [initializeWithoutCJSModulesMayAllocate] asks for, the outcome of that
    function does not depend on the string map the binding had. The
    outcome of [initializeLazyMayAllocate], which clears the provider
    before it initialises, depends neither on the string map nor on the
    provider the binding had: the placeholder name slot of a lazy child and
    its lazy provider leave no trace once the child's function is
    compiled. *)
Theorem initialization_replaces_tables bytecode s m q :
  initializeWithoutCJSModulesMayAllocate bytecode
    (s.1, set_stringIDMap m (set_bcProvider None s.2))
  = initializeWithoutCJSModulesMayAllocate bytecode
      (s.1, set_bcProvider None s.2)
  /\ initializeLazyMayAllocate bytecode
       (s.1, set_stringIDMap m (set_bcProvider q s.2))
     = initializeLazyMayAllocate bytecode s.
Proof.
  destruct s as [r rm]. simpl. split.
  - apply (initialize_forgets r (set_bcProvider None rm) m None).
  - unfold initializeLazyMayAllocate.
    rewrite !(bind_Done _ _ _ _ _ (modifyModule_run _ _)). simpl.
    apply bind_arg.
    apply (initialize_forgets r (set_bcProvider None rm) m None).
Qed.
End ReinitFacts.

(** ** When the interning returns *)

Section ReturnFacts.
Context {E : Externals}.



End ReturnFacts.

(** ** The weak pass *)

Section WeakPassFacts.
Context {E : Externals}.

Lemma markOwnedCodeBlocks_run r this blocks (acc : list RootEvent) :
  (forall cb, Some cb ∈ blocks -> is_Some (codeBlockHeap r !! cb)) ->
  markOwnedCodeBlocks r this blocks acc
  = Some (acc ++ map CodeBlockCaches (ownedBlocks r this blocks)).
Proof.
  revert acc. unfold ownedBlocks.
  induction blocks as [|[cb|] blocks IH]; intros acc Hlive; simpl.
  - by rewrite app_nil_r.
  - destruct (Hlive cb) as [blk Hblk]; [by left|].
    unfold getRuntimeModule. rewrite Hblk. simpl.
    rewrite IH by (intros cb' Hcb'; apply Hlive; by right).
    destruct (decide (cb_runtimeModule blk = this)) as [Hown|Hother].
    + rewrite decide_True by congruence. simpl. by rewrite <- app_assoc.
    + rewrite decide_False by congruence. done.
  - apply IH. intros cb' Hcb'. apply Hlive. by right.
Qed.

Lemma markLiteralClasses_recorded_cache entries
    (cache : gmap N (option HiddenClassPtr)) (acc : list RootEvent) :
  (forall key v, (key, v) ∈ entries -> cache !! key = Some v) ->
  (markLiteralClasses entries cache acc).1 = cache.
Proof.
  revert acc. induction entries as [|[k [clazz|]] entries IH];
    intros acc Hin; simpl.
  - done.
  - rewrite insert_id by (apply Hin; by left).
    apply IH. intros key v Hkv. apply Hin. by right.
  - apply IH. intros key v Hkv. apply Hin. by right.
Qed.

Lemma set_objectLiteralHiddenClasses_same rm :
  set_objectLiteralHiddenClasses (objectLiteralHiddenClasses_ rm) rm = rm.
Proof. by destruct rm. Qed.

(** X6. What the weak pass shows to a visitor that only looks. With every
    non-null slot of the function map pointing to a live record, the pass
    asks the records the binding owns, once per slot and in slot order, to
    mark their caches, and no record of another binding; then it shows every
    non-null value of the literal hidden-class cache as a weak slot. The
    binding is left as it was. *)
Theorem weak_pass_visits r this rm :
  (forall cb, Some cb ∈ functionMap_ rm -> is_Some (codeBlockHeap r !! cb)) ->
  markWeakRoots r this rm []
  = Some (rm,
          map CodeBlockCaches (ownedBlocks r this (functionMap_ rm))
          ++ map WeakHiddenClass
               (omap snd (map_to_list (objectLiteralHiddenClasses_ rm))))
  /\ (forall cb, CodeBlockCaches cb
                 ∈ map CodeBlockCaches (ownedBlocks r this (functionMap_ rm))
                 <-> Some cb ∈ functionMap_ rm
                     /\ getRuntimeModule r cb = Some this).
Proof.
  intros Hlive. split.
  - unfold markWeakRoots. rewrite markOwnedCodeBlocks_run by done. simpl.
    rewrite markLiteralClasses_recorded_cache
      by (intros key v Hkv; by apply elem_of_map_to_list).
    by rewrite markLiteralClasses_recorded, set_objectLiteralHiddenClasses_same.
  - intros cb. rewrite <- elem_of_ownedBlocks. split.
    + intros Hin. apply list_elem_of_fmap in Hin as (cb' & [= <-] & Hin). done.
    + intros Hin. apply list_elem_of_fmap. by exists cb.
Qed.
End WeakPassFacts.

Section WeakSlotFacts.
Context {E : Externals} {A : Type} {SA : SlotAcceptor A}.

Lemma markOwnedCodeBlocks_returns r this blocks (acc : A) :
  (forall cb, Some cb ∈ blocks -> is_Some (codeBlockHeap r !! cb)) ->
  is_Some (markOwnedCodeBlocks r this blocks acc).
Proof.
  revert acc. induction blocks as [|[cb|] blocks IH]; intros acc Hlive; simpl.
  - by eexists.
  - destruct (Hlive cb) as [blk Hblk]; [by left|].
    unfold getRuntimeModule. rewrite Hblk. simpl.
    apply IH. intros cb' Hcb'. apply Hlive. by right.
  - apply IH. intros cb' Hcb'. apply Hlive. by right.
Qed.

(** Every entry of the cache is visited at most once: its slot holds what
    the visitor made of its value. *)
Lemma markLiteralClasses_lookup entries : forall cache (acc : A) key,
  NoDup entries.*1 ->
  (forall clazz, (key, Some clazz) ∈ entries ->
     exists acc0,
       (markLiteralClasses entries cache acc).1 !! key
       = Some (acceptWeak clazz acc0).1)
  /\ ((forall clazz, (key, Some clazz) ∉ entries) ->
      (markLiteralClasses entries cache acc).1 !! key = cache !! key).
Proof.
  induction entries as [|[k [c|]] entries IH]; intros cache acc key Hnodup.
  - split; [|done]. intros clazz Hin. by apply elem_of_nil in Hin.
  - simpl in Hnodup. apply NoDup_cons in Hnodup as [Hfresh Hnodup]. simpl.
    destruct (decide (key = k)) as [->|Hne].
    + assert (forall clazz, (k, Some clazz) ∉ entries) as Hnot.
      { intros clazz Hin. apply Hfresh. apply list_elem_of_fmap.
        by exists (k, Some clazz). }
      destruct (IH (<[k:=(acceptWeak c acc).1]> cache) (acceptWeak c acc).2 k
                  Hnodup) as [_ Hkeep].
      split.
      * intros clazz Hin. apply elem_of_cons in Hin as [[= ->]|Hin];
          [|by apply Hnot in Hin].
        exists acc. rewrite Hkeep by done. apply lookup_insert_eq.
      * intros Hout. exfalso. apply (Hout c). by left.
    + destruct (IH (<[k:=(acceptWeak c acc).1]> cache) (acceptWeak c acc).2 key
                  Hnodup) as [Hin' Hkeep].
      split.
      * intros clazz Hin. apply elem_of_cons in Hin as [[= ? ?]|Hin]; [done|].
        by apply Hin'.
      * intros Hout. rewrite Hkeep, lookup_insert_ne; [done|done|].
        intros clazz Hin. apply (Hout clazz). by right.
  - simpl in Hnodup. apply NoDup_cons in Hnodup as [_ Hnodup]. simpl.
    destruct (IH cache acc key Hnodup) as [Hin' Hkeep]. split.
    + intros clazz Hin. apply elem_of_cons in Hin as [[= ? ?]|Hin].
      by apply Hin'.
    + intros Hout. apply Hkeep. intros clazz Hin. apply (Hout clazz). by right.
Qed.

(** X7. The weak pass and the literal hidden-class cache, for any visitor.
    The pass returns when every non-null slot of the function map points to
    a live record. It touches nothing of the binding but the cache; an
    entry holding a shape then holds what the visitor made of that shape
    (the shape, its new address, or null), a null entry and a missing key
    stay as they are: the pass never adds an entry. So a lookup in the
    cache after the pass finds only what the visitor returned for the shape
    found before, and misses where the visitor cleared the slot. *)
Theorem weak_pass_updates_cache {K : LiteralCacheKey} r this rm (acc : A) :
  (forall cb, Some cb ∈ functionMap_ rm -> is_Some (codeBlockHeap r !! cb)) ->
  exists rm' acc',
    markWeakRoots r this rm acc = Some (rm', acc')
    /\ rm' = set_objectLiteralHiddenClasses (objectLiteralHiddenClasses_ rm') rm
    /\ (forall key,
          match objectLiteralHiddenClasses_ rm !! key with
          | Some (Some clazz) =>
              exists acc0,
                objectLiteralHiddenClasses_ rm' !! key
                = Some (acceptWeak clazz acc0).1
          | other => objectLiteralHiddenClasses_ rm' !! key = other
          end)
    /\ (forall keyBufferIndex numLiterals,
          match findCachedLiteralHiddenClass keyBufferIndex numLiterals rm with
          | Some clazz =>
              exists acc0,
                findCachedLiteralHiddenClass keyBufferIndex numLiterals rm'
                = (acceptWeak clazz acc0).1
          | None =>
              findCachedLiteralHiddenClass keyBufferIndex numLiterals rm'
              = None
          end).
Proof.
  intros Hlive. unfold markWeakRoots.
  destruct (markOwnedCodeBlocks_returns r this (functionMap_ rm) acc Hlive)
    as [acc1 ->].
  eexists _, _. split; [reflexivity|]. simpl. split; [done|].
  assert (forall key,
            match objectLiteralHiddenClasses_ rm !! key with
            | Some (Some clazz) =>
                exists acc0,
                  (markLiteralClasses
                     (map_to_list (objectLiteralHiddenClasses_ rm))
                     (objectLiteralHiddenClasses_ rm) acc1).1 !! key
                  = Some (acceptWeak clazz acc0).1
            | other =>
                (markLiteralClasses
                   (map_to_list (objectLiteralHiddenClasses_ rm))
                   (objectLiteralHiddenClasses_ rm) acc1).1 !! key
                = other
            end) as Hcache.
  { intros key.
    destruct (markLiteralClasses_lookup
                (map_to_list (objectLiteralHiddenClasses_ rm))
                (objectLiteralHiddenClasses_ rm) acc1 key
                (NoDup_fst_map_to_list _)) as [Hin Hkeep].
    destruct (objectLiteralHiddenClasses_ rm !! key) as [[clazz|]|] eqn:Hkey.
    - apply Hin. by apply elem_of_map_to_list.
    - rewrite Hkeep; [done|]. intros clazz Hin'.
      apply elem_of_map_to_list in Hin'. congruence.
    - rewrite Hkeep; [done|]. intros clazz Hin'.
      apply elem_of_map_to_list in Hin'. congruence. }
  split; [exact Hcache|].
  intros keyBufferIndex numLiterals. unfold findCachedLiteralHiddenClass.
  destruct (canGenerateLiteralHiddenClassCacheKey keyBufferIndex numLiterals);
    [|done].
  simpl.
  specialize (Hcache (getLiteralHiddenClassCacheHashKey
                        keyBufferIndex numLiterals)).
  destruct (objectLiteralHiddenClasses_ rm !! _) as [[clazz|]|].
  - destruct Hcache as [acc0 Hnew]. exists acc0. rewrite Hnew.
    by destruct (acceptWeak clazz acc0).1.
  - by rewrite Hcache.
  - by rewrite Hcache.
Qed.
End WeakSlotFacts.

(** ** More on teardown *)

Section ScrubFacts.
Context {E : Externals}.

Lemma elem_of_scrubbed r this (fm : list (option CBPtr)) block :
  Some block ∈ scrubbed r this <$> fm
  <-> Some block ∈ fm /\ getRuntimeModule r block = Some this.
Proof.
  rewrite list_elem_of_fmap. split.
  - intros ([b|] & Hs & Hin); [|done]. simpl in Hs.
    destruct (decide _) as [Hown|]; [|done]. by injection Hs as ->.
  - intros [Hin Hown]. exists (Some block). split; [|done].
    simpl. by rewrite decide_True.
Qed.

Lemma getRuntimeModule_live r block owner :
  getRuntimeModule r block = Some owner -> is_Some (codeBlockHeap r !! block).
Proof.
  unfold getRuntimeModule. destruct (codeBlockHeap r !! block); [eauto|done].
Qed.

(** X8. [prepareForRuntimeShutdown] on a function map of fewer than 2^31
    slots whose non-null slots point to live records. It returns; the
    function map keeps its length, a slot that held a record of the
    binding still holds it, a slot that held a record of another binding
    is null, and a null slot stays null; nothing else of the binding and
    nothing of the runtime is touched. So a slot is non-null afterwards
    exactly when it held a record the binding owns, the owned records are
    the same, in the same order, and a second call changes nothing. *)
Theorem scrub_leaves_only_owned this r rm :
  N.of_nat (length (functionMap_ rm)) < 2 ^ 31 ->
  (forall block, Some block ∈ functionMap_ rm ->
                 is_Some (codeBlockHeap r !! block)) ->
  exists rm1,
    prepareForRuntimeShutdown this (r, rm) = Done tt (r, rm1)
    /\ rm1 = set_functionMap (functionMap_ rm1) rm
    /\ length (functionMap_ rm1) = length (functionMap_ rm)
    /\ (forall i block owner,
          functionMap_ rm !! i = Some (Some block) ->
          getRuntimeModule r block = Some owner ->
          functionMap_ rm1 !! i
          = Some (if decide (owner = this) then Some block else None))
    /\ (forall i, functionMap_ rm !! i = Some None ->
                  functionMap_ rm1 !! i = Some None)
    /\ (forall block,
          Some block ∈ functionMap_ rm1
          <-> Some block ∈ functionMap_ rm
              /\ getRuntimeModule r block = Some this)
    /\ ownedBlocks r this (functionMap_ rm1)
       = ownedBlocks r this (functionMap_ rm)
    /\ prepareForRuntimeShutdown this (r, rm1) = Done tt (r, rm1).
Proof.
  intros Hsize Hlive.
  exists (set_functionMap (scrubbed r this <$> functionMap_ rm) rm).
  split; [by apply prepareForRuntimeShutdown_run|]. simpl.
  split; [done|].
  split; [by rewrite length_fmap|].
  split.
  { intros i block owner Hslot Howner.
    rewrite list_lookup_fmap, Hslot. simpl. rewrite Howner.
    f_equal. by repeat case_decide; simplify_eq. }
  split.
  { intros i Hslot. by rewrite list_lookup_fmap, Hslot. }
  split; [intros block; apply elem_of_scrubbed|].
  split; [apply ownedBlocks_scrubbed|].
  assert (scrubbed r this <$> (scrubbed r this <$> functionMap_ rm)
          = scrubbed r this <$> functionMap_ rm) as Hidem.
  { rewrite <- list_fmap_compose.
    apply list_fmap_ext. intros i slot _. apply scrubbed_idem. }
  rewrite prepareForRuntimeShutdown_run; simpl.
  - by rewrite Hidem.
  - by rewrite length_fmap.
  - intros block Hin. apply elem_of_scrubbed in Hin as [Hin _]. by apply Hlive.
Qed.

(** The destructor on a binding found at [this]: the binding leaves the
    runtime's list, then the loop runs over its function map. *)
Lemma destroy_unfold this r rm :
  moduleHeap r !! this = Some rm ->
  destroy this r
  = deleteOwned this (functionMap_ rm)
      (set_runtimeModuleList
         (filter (fun m => m <> this) (runtimeModuleList r))
         (set_moduleHeap (<[this := rm]> (moduleHeap r)) r)).
Proof.
  intros Hthis. unfold destroy.
  erewrite bind_Done
    by (eapply (onModule_run this getModule r rm);
        [exact Hthis | apply getModule_run]).
  by rewrite bind_modify.
Qed.

Lemma deleteOwned_run_on this blocks r r0 :
  codeBlockHeap r0 = codeBlockHeap r ->
  (forall block, Some block ∈ blocks -> is_Some (codeBlockHeap r !! block)) ->
  NoDup (ownedBlocks r this blocks) ->
  exists heap',
    deleteOwned this blocks r0
    = Done (ownedBlocks r this blocks) (set_codeBlockHeap heap' r0)
    /\ forall x,
         heap' !! x
         = if decide (x ∈ ownedBlocks r this blocks) then None
           else codeBlockHeap r !! x.
Proof.
  intros Hheap Hlive Hnodup.
  assert (ownedBlocks r0 this blocks = ownedBlocks r this blocks) as Howned.
  { apply ownedBlocks_ext. intros block _. unfold getRuntimeModule.
    by rewrite Hheap. }
  destruct (deleteOwned_run this blocks r0) as (heap' & Hrun & Hlook).
  - intros block Hin. rewrite Hheap. by apply Hlive.
  - by rewrite Howned.
  - exists heap'. rewrite Howned in Hrun, Hlook. split; [done|].
    intros x. rewrite Hlook. by rewrite Hheap.
Qed.
(** X9. The destructor on a function map that was not scrubbed, every
    non-null slot pointing to a live record and the owned records being
    pairwise distinct: it returns having deleted, in slot order, the
    records the binding owns; a record borrowed from another binding is
    still there with its owner, and so is every record outside the map.
    The binding has left the runtime's list, and no binding was touched. *)
Theorem destroy_spares_borrowed this r rm :
  moduleHeap r !! this = Some rm ->
  (forall block, Some block ∈ functionMap_ rm ->
                 is_Some (codeBlockHeap r !! block)) ->
  NoDup (ownedBlocks r this (functionMap_ rm)) ->
  exists r2,
    destroy this r = Done (ownedBlocks r this (functionMap_ rm)) r2
    /\ (forall block,
          codeBlockHeap r2 !! block
          = if decide (block ∈ ownedBlocks r this (functionMap_ rm))
            then None else codeBlockHeap r !! block)
    /\ (forall block owner,
          getRuntimeModule r block = Some owner -> owner <> this ->
          getRuntimeModule r2 block = Some owner)
    /\ runtimeModuleList r2
       = filter (fun m => m <> this) (runtimeModuleList r)
    /\ moduleHeap r2 = moduleHeap r.
Proof.
  intros Hthis Hlive Hnodup. rewrite (destroy_unfold this r rm Hthis).
  set (r0 := set_runtimeModuleList _ _).
  destruct (deleteOwned_run_on this (functionMap_ rm) r r0 eq_refl Hlive Hnodup)
    as (heap' & Hrun & Hheap).
  eexists. split; [exact Hrun|]. simpl. split; [exact Hheap|].
  split; [|split; [done | by apply insert_id]].
  intros block owner Howner Hne. unfold getRuntimeModule. simpl.
  rewrite Hheap. rewrite decide_False; [exact Howner|].
  intros Hin. apply elem_of_ownedBlocks in Hin as [_ Hown]. congruence.
Qed.

(** X10. What scrubbing buys. Once [prepareForRuntimeShutdown] has run, the
    destructor depends on the records the binding owns and on nothing else:
    in any later runtime that still holds the scrubbed binding and its own
    records, whatever has become of the records of other bindings, the
    destructor returns having deleted the owned records, each once, and no
    other record. *)
Theorem destroy_after_scrub_needs_only_owned this r rm rm1 r' :
  N.of_nat (length (functionMap_ rm)) < 2 ^ 31 ->
  (forall block, Some block ∈ functionMap_ rm ->
                 is_Some (codeBlockHeap r !! block)) ->
  NoDup (ownedBlocks r this (functionMap_ rm)) ->
  prepareForRuntimeShutdown this (r, rm) = Done tt (r, rm1) ->
  moduleHeap r' !! this = Some rm1 ->
  (forall block, block ∈ ownedBlocks r this (functionMap_ rm) ->
                 codeBlockHeap r' !! block = codeBlockHeap r !! block) ->
  exists r2,
    destroy this r' = Done (ownedBlocks r this (functionMap_ rm)) r2
    /\ forall block,
         codeBlockHeap r2 !! block
         = if decide (block ∈ ownedBlocks r this (functionMap_ rm))
           then None else codeBlockHeap r' !! block.
Proof.
  intros Hsize Hlive Hnodup Hprep Hthis Hsame.
  rewrite prepareForRuntimeShutdown_run in Hprep by done.
  injection Hprep as <-.
  set (fm1 := scrubbed r this <$> functionMap_ rm).
  assert (forall block, Some block ∈ fm1 ->
            block ∈ ownedBlocks r this (functionMap_ rm)) as Hslots.
  { intros block Hin. apply elem_of_scrubbed in Hin.
    by apply elem_of_ownedBlocks. }
  assert (ownedBlocks r' this fm1 = ownedBlocks r this (functionMap_ rm))
    as Howned.
  { rewrite <- (ownedBlocks_scrubbed r this (functionMap_ rm)).
    apply ownedBlocks_ext. intros block Hin. unfold getRuntimeModule.
    by rewrite (Hsame block (Hslots block Hin)). }
  rewrite (destroy_unfold this r' _ Hthis). simpl.
  set (r0 := set_runtimeModuleList _ _).
  destruct (deleteOwned_run_on this fm1 r' r0 eq_refl) as (heap' & Hrun & Hheap).
  - intros block Hin. rewrite (Hsame block (Hslots block Hin)).
    apply elem_of_scrubbed in Hin as [Hin _]. by apply Hlive.
  - by rewrite Howned.
  - rewrite Howned in Hrun, Hheap. eexists. split; [exact Hrun|]. exact Hheap.
Qed.

Lemma deleteOwned_dangling this l1 b l2 : forall r,
  (forall block, Some block ∈ l1 -> is_Some (codeBlockHeap r !! block)) ->
  NoDup (ownedBlocks r this l1) ->
  codeBlockHeap r !! b = None ->
  deleteOwned this (l1 ++ Some b :: l2) r = Stopped Undefined.
Proof.
  induction l1 as [|[block|] l1 IH]; intros r Hlive Hnodup Hgone.
  - simpl. rewrite bind_gets. unfold id at 1, getRuntimeModule.
    by rewrite Hgone.
  - destruct (Hlive block) as [cb Hcb]; [by left|].
    assert (getRuntimeModule r block = Some (cb_runtimeModule cb)) as Howner
      by (unfold getRuntimeModule; by rewrite Hcb).
    simpl deleteOwned. rewrite bind_gets. unfold id at 1. rewrite Howner.
    rewrite bind_deref_Some.
    destruct (decide (cb_runtimeModule cb = this)) as [Hthis|Hother].
    + assert (ownedBlocks r this (Some block :: l1)
              = block :: ownedBlocks r this l1) as Hcons.
      { unfold ownedBlocks. simpl. rewrite decide_True by congruence. done. }
      rewrite Hcons in Hnodup. apply NoDup_cons in Hnodup as [Hfresh Hnodup].
      assert (forall x, Some x ∈ l1 -> x <> block) as Hdistinct.
      { intros x Hin ->. apply Hfresh. apply elem_of_ownedBlocks.
        split; [done|]. congruence. }
      unfold deleteCodeBlock. rewrite bind_modify.
      set (r1 := set_codeBlockHeap (delete block (codeBlockHeap r)) r).
      assert (forall x, Some x ∈ l1 ->
                getRuntimeModule r1 x = getRuntimeModule r x) as Hext.
      { intros x Hin. unfold getRuntimeModule, r1. simpl.
        rewrite lookup_delete_ne; [done|]. apply not_eq_sym. by apply Hdistinct. }
      apply bind_Stopped. apply IH.
      * intros x Hin. unfold r1. simpl.
        rewrite lookup_delete_ne by (apply not_eq_sym; by apply Hdistinct).
        apply Hlive. by right.
      * by rewrite (ownedBlocks_ext r r1).
      * unfold r1. simpl. rewrite lookup_delete_None. by right.
    + assert (ownedBlocks r this (Some block :: l1) = ownedBlocks r this l1)
        as Hcons.
      { unfold ownedBlocks. simpl. rewrite decide_False by congruence. done. }
      rewrite Hcons in Hnodup. apply IH; [|done|done].
      intros x Hin. apply Hlive. by right.
  - simpl. apply IH; [|done|done]. intros x Hin. apply Hlive. by right.
Qed.

(** X11. Why teardown scrubs first. The destructor reads the owner of every
    non-null slot: when it reaches a slot whose record has already been
    deleted (a record borrowed from a binding destroyed before this one),
    it reads a deleted record, which is undefined. The slots before that
    one are taken to be live, their owned records pairwise distinct. *)
Theorem destroy_reads_every_slot this r rm l1 b l2 :
  moduleHeap r !! this = Some rm ->
  functionMap_ rm = l1 ++ Some b :: l2 ->
  (forall block, Some block ∈ l1 -> is_Some (codeBlockHeap r !! block)) ->
  NoDup (ownedBlocks r this l1) ->
  codeBlockHeap r !! b = None ->
  destroy this r = Stopped Undefined.
Proof.
  intros Hthis Hfm Hlive Hnodup Hgone.
  rewrite (destroy_unfold this r rm Hthis), Hfm.
  apply deleteOwned_dangling; simpl; done.
Qed.
End ScrubFacts.

(** ** Materialising a function *)

Section SlowPathFacts.
Context {E : Externals}.
Variable getSymbolIDFromStringIDMayAllocate : N -> Method SymbolID.

Lemma set_moduleHeap_same r : set_moduleHeap (moduleHeap r) r = r.
Proof. by destruct r. Qed.

(** A method that only reads, called through a pointer. *)
Lemma onModule_read {A} this (m : Method A) r rm a :
  moduleHeap r !! this = Some rm ->
  m (r, rm) = Done a (r, rm) ->
  onModule this m r = Done a r.
Proof.
  intros Hthis Hm. rewrite (onModule_run this m r rm a _ Hthis Hm). simpl.
  by rewrite insert_id, set_moduleHeap_same.
Qed.

Lemma onModule_modify this g r rm :
  moduleHeap r !! this = Some rm ->
  onModule this (modifyModule g) r
  = Done tt (set_moduleHeap (<[this := g rm]> (moduleHeap r)) r).
Proof.
  intros Hthis.
  by rewrite (onModule_run this _ r rm tt _ Hthis (modifyModule_run g _)).
Qed.

Lemma onModule_stopped {A} this (m : Method A) r rm f :
  moduleHeap r !! this = Some rm ->
  m (r, rm) = Stopped f ->
  onModule this m r = Stopped f.
Proof. intros Hthis Hm. unfold onModule. by rewrite Hthis, Hm. Qed.

(** X12. The slow path of [getCodeBlock] for a function that is not lazy,
    on a binding with a provider. With the index inside the function map,
    it returns a new record, owned by the binding and bound to the index,
    which it has put into the slot of the index; no other slot, no other
    binding and no other record is touched, and the slots keep pointing to
    live records, the owned ones pairwise distinct, when they did. With the
    index past the end of the map the store is out of bounds. *)
Theorem slow_path_creates_record this index r rm p :
  moduleHeap r !! this = Some rm ->
  bcProvider_ rm = Some p ->
  isFunctionLazy p index = false ->
  ((toNat index < length (functionMap_ rm))%nat ->
   exists cb r',
     getCodeBlockSlowPath getSymbolIDFromStringIDMayAllocate this index r
     = Done (Some cb) r'
     /\ codeBlockHeap r !! cb = None
     /\ codeBlockHeap r'
        = <[cb := {| cb_runtimeModule := this; cb_functionID := index |}]>
            (codeBlockHeap r)
     /\ moduleHeap r'
        = <[this := set_functionMap
                      (<[toNat index := Some cb]> (functionMap_ rm)) rm]>
            (moduleHeap r)
     /\ runtimeModuleList r' = runtimeModuleList r
     /\ identCalls r' = identCalls r
     /\ ((forall block, Some block ∈ functionMap_ rm ->
                        is_Some (codeBlockHeap r !! block)) ->
         NoDup (ownedBlocks r this (functionMap_ rm)) ->
         (forall block,
            Some block ∈ <[toNat index := Some cb]> (functionMap_ rm) ->
            is_Some (codeBlockHeap r' !! block))
         /\ NoDup (ownedBlocks r' this
                     (<[toNat index := Some cb]> (functionMap_ rm)))))
  /\ ((length (functionMap_ rm) <= toNat index)%nat ->
      getCodeBlockSlowPath getSymbolIDFromStringIDMayAllocate this index r
      = Stopped Undefined).
Proof.
  intros Hthis Hp Hlazy.
  assert (onModule this provider r = Done p r) as Hprov
    by (apply (onModule_read this provider r rm); [done | by apply provider_run]).
  unfold getCodeBlockSlowPath. rewrite (bind_Done _ _ _ _ _ Hprov), Hlazy.
  set (cb := fresh (dom (codeBlockHeap r))).
  set (r1 := set_codeBlockHeap
               (<[cb := {| cb_runtimeModule := this; cb_functionID := index |}]>
                  (codeBlockHeap r)) r).
  assert (createCodeBlock this index r = Done cb r1) as Hcb by reflexivity.
  rewrite (bind_Done _ _ _ _ _ Hcb).
  assert (moduleHeap r1 !! this = Some rm) as Hthis1 by exact Hthis.
  split.
  - intros Hi.
    erewrite bind_Done.
    2:{ eapply (onModule_run this _ r1 rm); [exact Hthis1|].
        by apply storeFunction_run. }
    simpl.
    erewrite onModule_read.
    2:{ simpl. apply lookup_insert_eq. }
    2:{ apply loadFunction_run. simpl. by apply list_lookup_insert_eq. }
    exists cb. eexists. split; [reflexivity|]. simpl.
    split; [apply not_elem_of_dom, is_fresh|].
    split; [done|]. split; [done|]. split; [done|]. split; [done|].
    intros Hlive Hnodup.
    destruct (new_record_keeps_owned_distinct r this (functionMap_ rm)
                (toNat index) index Hi Hlive Hnodup)
      as (cb' & r' & Hcb' & _ & _ & Hlive' & Hnodup').
    injection Hcb' as <- <-. split.
    + exact Hlive'.
    + erewrite ownedBlocks_ext; [exact Hnodup'|]. done.
  - intros Hi. apply bind_Stopped.
    apply (onModule_stopped this _ r1 rm); [exact Hthis1|].
    unfold storeFunction. rewrite (bind_Done _ _ _ _ _ (getModule_run _)).
    simpl. by rewrite decide_False by lia.
Qed.
(** [createLazyModule] when the parent's lookup of the function's name
    returns and leaves the heap of bindings as it was. *)
Lemma createLazyModule_run domain parent functionID r rmP pbc name s' :
  moduleHeap r !! parent = Some rmP ->
  bcProvider_ rmP = Some pbc ->
  getSymbolIDFromStringIDMayAllocate (functionName pbc functionID)
    (lazyChildCreated domain pbc functionID r, rmP) = Done name s' ->
  moduleHeap s'.1 = moduleHeap (lazyChildCreated domain pbc functionID r) ->
  parent <> fresh (dom (moduleHeap r))
  /\ createLazyModule getSymbolIDFromStringIDMayAllocate domain parent
       functionID r
     = Done (fresh (dom (moduleHeap r)))
         (set_moduleHeap
            (<[fresh (dom (moduleHeap r)) :=
                 set_stringIDMap [name]
                   (newLazyChild domain pbc functionID r)]>
               (<[parent := s'.2]> (moduleHeap s'.1))) s'.1).
Proof.
  intros Hparent Hpbc Hname Hheap.
  pose proof (fresh_address r) as Hfresh.
  assert (parent <> fresh (dom (moduleHeap r))) as Hne
    by (intros ->; congruence).
  split; [exact Hne|].
  unfold createLazyModule.
  rewrite (bind_Done _ _ _ _ _ (newRuntimeModule_run _ _ _)).
  erewrite bind_Done.
  2:{ apply (onModule_read parent provider _ rmP).
      - unfold registered; simpl. by rewrite lookup_insert_ne.
      - by apply provider_run. }
  erewrite bind_Done.
  2:{ apply onModule_modify. unfold registered; simpl. apply lookup_insert_eq. }
  erewrite bind_Done by reflexivity.
  erewrite bind_Done.
  2:{ apply onModule_modify. simpl. apply lookup_insert_eq. }
  simpl. rewrite !insert_insert_eq.
  erewrite bind_Done.
  2:{ eapply (onModule_run parent _ _ rmP).
      - simpl. by rewrite lookup_insert_ne.
      - exact Hname. }
  erewrite bind_Done.
  2:{ apply onModule_modify. simpl. rewrite lookup_insert_ne by done.
      rewrite Hheap. unfold lazyChildCreated; simpl. apply lookup_insert_eq. }
  reflexivity.
Qed.
(** X13. [createLazyModule] on a parent with a provider, when the parent's
    lookup of the function's name returns and neither creates nor deletes
    bindings and function records. It returns a binding at a new address,
    in the given domain and not persistent, over the lazy provider of the
    function, with one new record, owned by it and bound to the function,
    in its only slot, and with the name as its only symbol: [getLazyName]
    on the child gives back the name that the parent looked up. All other
    bindings and records are as before. *)
Theorem lazy_module_created domain parent functionID r rmP pbc name s' :
  moduleHeap r !! parent = Some rmP ->
  bcProvider_ rmP = Some pbc ->
  getSymbolIDFromStringIDMayAllocate (functionName pbc functionID)
    (lazyChildCreated domain pbc functionID r, rmP) = Done name s' ->
  moduleHeap s'.1 = moduleHeap (lazyChildCreated domain pbc functionID r) ->
  codeBlockHeap s'.1
  = codeBlockHeap (lazyChildCreated domain pbc functionID r) ->
  exists RM r' child cb,
    createLazyModule getSymbolIDFromStringIDMayAllocate domain parent
      functionID r = Done RM r'
    /\ moduleHeap r !! RM = None
    /\ codeBlockHeap r !! cb = None
    /\ moduleHeap r' !! RM = Some child
    /\ domain_ child = domain
    /\ persistent child = false
    /\ bcProvider_ child = Some (createBCProviderLazy pbc functionID)
    /\ functionMap_ child = [Some cb]
    /\ stringIDMap_ child = [name]
    /\ codeBlockHeap r' !! cb
       = Some {| cb_runtimeModule := RM; cb_functionID := functionID |}
    /\ onModule RM getLazyName r' = Done name r'
    /\ moduleHeap r' !! parent = Some s'.2
    /\ (forall k, k <> RM -> k <> parent ->
                  moduleHeap r' !! k = moduleHeap r !! k)
    /\ (forall b, b <> cb -> codeBlockHeap r' !! b = codeBlockHeap r !! b).
Proof.
  intros Hparent Hpbc Hname Hheap Hblocks.
  destruct (createLazyModule_run domain parent functionID r rmP pbc name s'
              Hparent Hpbc Hname Hheap) as [Hne Hrun].
  eexists _, _, (set_stringIDMap [name] (newLazyChild domain pbc functionID r)),
    (fresh (dom (codeBlockHeap r))).
  split; [exact Hrun|].
  split; [apply fresh_address|].
  split; [apply not_elem_of_dom, is_fresh|].
  assert (forall (h : gmap RMPtr RuntimeModule) (x : Runtime),
            moduleHeap (set_moduleHeap h x) = h) as Hset by done.
  rewrite Hset.
  split; [apply lookup_insert_eq|].
  split; [done|]. split; [done|]. split; [done|]. split; [done|].
  split; [done|].
  split; [simpl; rewrite Hblocks; apply lookup_insert_eq|].
  split.
  { apply (onModule_read _ getLazyName _
             (set_stringIDMap [name] (newLazyChild domain pbc functionID r))).
    - rewrite Hset. apply lookup_insert_eq.
    - reflexivity. }
  split; [rewrite lookup_insert_ne by done; apply lookup_insert_eq|].
  split.
  - intros k Hk1 Hk2. rewrite !lookup_insert_ne by done.
    rewrite Hheap. unfold lazyChildCreated. rewrite Hset.
    by rewrite lookup_insert_ne.
  - intros b Hb. simpl. rewrite Hblocks. unfold lazyChildCreated; simpl.
    by rewrite lookup_insert_ne.
Qed.

(** X14. The slow path of [getCodeBlock] for a lazy function, under the
    same conditions on the lookup of the name and with the index inside
    the function map. It returns the record of a new lazy child and stores
    it in the slot of the index: the slot of the parent and slot 0 of the
    child hold the same record, which the child owns. The parent's teardown
    therefore drops it from the slot instead of deleting it. *)
Theorem slow_path_shares_lazy_record this index r rm p name s' :
  moduleHeap r !! this = Some rm ->
  bcProvider_ rm = Some p ->
  isFunctionLazy p index = true ->
  getSymbolIDFromStringIDMayAllocate (functionName p index)
    (lazyChildCreated (domain_ rm) p index r, rm) = Done name s' ->
  moduleHeap s'.1 = moduleHeap (lazyChildCreated (domain_ rm) p index r) ->
  codeBlockHeap s'.1
  = codeBlockHeap (lazyChildCreated (domain_ rm) p index r) ->
  (toNat index < length (functionMap_ s'.2))%nat ->
  exists RM r' child cb,
    getCodeBlockSlowPath getSymbolIDFromStringIDMayAllocate this index r
    = Done (Some cb) r'
    /\ moduleHeap r !! RM = None
    /\ codeBlockHeap r !! cb = None
    /\ moduleHeap r' !! RM = Some child
    /\ functionMap_ child = [Some cb]
    /\ moduleHeap r' !! this
       = Some (set_functionMap
                 (<[toNat index := Some cb]> (functionMap_ s'.2)) s'.2)
    /\ getRuntimeModule r' cb = Some RM
    /\ RM <> this
    /\ scrubbed r' this (Some cb) = None
    /\ scrubbed r' RM (Some cb) = Some cb.
Proof.
  intros Hthis Hp Hlazy Hname Hheap Hblocks Hi.
  destruct (createLazyModule_run (domain_ rm) this index r rm p name s'
              Hthis Hp Hname Hheap) as [Hne Hrun].
  set (RM := fresh (dom (moduleHeap r))) in *.
  set (cb := fresh (dom (codeBlockHeap r))).
  set (child := set_stringIDMap [name] (newLazyChild (domain_ rm) p index r))
    in *.
  unfold getCodeBlockSlowPath.
  erewrite bind_Done
    by (apply (onModule_read this provider r rm);
        [done | by apply provider_run]).
  rewrite Hlazy.
  erewrite bind_Done by (by apply (onModule_read this getModule r rm)).
  rewrite (bind_Done _ _ _ _ _ Hrun).
  assert (forall (h : gmap RMPtr RuntimeModule) (x : Runtime),
            moduleHeap (set_moduleHeap h x) = h) as Hset by done.
  erewrite bind_Done.
  2:{ apply (onModule_read RM (loadFunction 0) _ child).
      - rewrite Hset. apply lookup_insert_eq.
      - by apply loadFunction_run. }
  erewrite bind_Done.
  2:{ eapply (onModule_run this _ _ s'.2).
      - rewrite Hset. rewrite lookup_insert_ne by done. apply lookup_insert_eq.
      - by apply storeFunction_run. }
  erewrite onModule_read.
  2:{ rewrite Hset. apply lookup_insert_eq. }
  2:{ apply loadFunction_run. simpl. by apply list_lookup_insert_eq. }
  assert (getRuntimeModule s'.1 cb = Some RM) as Howner.
  { unfold getRuntimeModule. rewrite Hblocks. unfold lazyChildCreated; simpl.
    fold cb. by rewrite lookup_insert_eq. }
  exists RM. eexists. exists child, cb.
  split; [reflexivity|].
  split; [apply fresh_address|].
  split; [apply not_elem_of_dom, is_fresh|].
  rewrite Hset.
  split; [simpl; rewrite lookup_insert_ne by done; apply lookup_insert_eq|].
  split; [done|].
  split; [apply lookup_insert_eq|].
  split; [exact Howner|].
  split; [done|].
  unfold scrubbed.
  change (getRuntimeModule (set_moduleHeap _ _) cb)
    with (getRuntimeModule s'.1 cb).
  rewrite Howner. split.
  - rewrite decide_False; [done|]. intros [= Heq]. by apply Hne.
  - by rewrite decide_True.
Qed.
End SlowPathFacts.

(** ** A binding from construction to destruction *)

Section LifeCycleFacts.
Context {E : Externals}.

Lemma deleteOwned_nulls this n (r : Runtime) :
  deleteOwned this (replicate n None) r = Done [] r.
Proof. induction n as [|n IH]; [done|]. simpl. exact IH. Qed.

Lemma filter_out_last (this : RMPtr) (l : list RMPtr) :
  this ∉ l -> filter (fun m => m <> this) (l ++ [this]) = l.
Proof.
  intros Hnot. rewrite filter_app.
  rewrite (filter_cons_False (fun m => m <> this)) by (intros Hne; by apply Hne).
  rewrite filter_nil, app_nil_r.
  induction l as [|x l IH]; [done|].
  apply not_elem_of_cons in Hnot as [Hx Hl].
  rewrite filter_cons_True by done. by rewrite IH.
Qed.

(** X15. A binding that [create] has returned, destroyed at once, in a
    runtime whose list of bindings names live bindings only: the destructor
    deletes no function record, since every slot is still null, and takes
    the binding out of the runtime's list, which is back to what it was
    before [create]; the heap of records is untouched. The domain still
    lists the binding: only the runtime's registration is undone. *)
Theorem create_then_destroy domain bytecode flags r this r1 :
  (forall m, m ∈ runtimeModuleList r -> is_Some (moduleHeap r !! m)) ->
  create domain bytecode flags r = Done (CallValue this) r1 ->
  exists r2,
    destroy this r1 = Done [] r2
    /\ runtimeModuleList r2 = runtimeModuleList r
    /\ codeBlockHeap r2 = codeBlockHeap r
    /\ domainModules r2 = domainModules r ++ [(domain, this)].
Proof.
  intros Hreg Hcreate.
  assert (fresh (dom (moduleHeap r)) ∉ runtimeModuleList r) as Hnot.
  { intros Hin. apply Hreg in Hin as [rm Hrm].
    pose proof (fresh_address r). congruence. }
  destruct bytecode as [bytecode|].
  - destruct (interningOf domain flags bytecode r) as [[] s1|f] eqn:Hintern.
    2:{ rewrite (create_stopped _ _ _ _ _ Hintern) in Hcreate. done. }
    pose proof Hintern as Hframe. apply import_frame in Hframe
      as (_ & Hlist & Hdom & _ & Hblocks & _). simpl in Hlist, Hdom, Hblocks.
    rewrite (create_run _ _ _ _ _ Hintern) in Hcreate.
    destruct (importStatus domain bytecode r); try done.
    injection Hcreate as <- <-.
    erewrite destroy_unfold by (simpl; apply lookup_insert_eq).
    simpl. rewrite resize_nil, deleteOwned_nulls.
    eexists. split; [reflexivity|]. simpl.
    rewrite Hlist, Hdom, Hblocks. by rewrite filter_out_last.
  - rewrite create_without_bytecode in Hcreate. injection Hcreate as <- <-.
    erewrite destroy_unfold
      by (unfold registered; simpl; apply lookup_insert_eq).
    simpl. eexists. split; [reflexivity|]. simpl.
    by rewrite filter_out_last.
Qed.

(** X16. [initializeLazyMayAllocate] on a lazy child whose provider has
    functions, as [initializeFunctionMap] asserts, and a global function
    index at or past the function count (the interning having returned):
    the move of the record from slot 0 to the slot of that index is made
    past the end of the function map, which has the length of the function
    count. *)
Theorem lazy_child_index_outside (bytecode : BCProvider) (cb : CBPtr) s s1 :
  functionMap_ s.2 = [Some cb] ->
  getFunctionCount bytecode <> 0 ->
  getFunctionCount bytecode <= getGlobalFunctionIndex bytecode ->
  importStringIDMapMayAllocate
    (s.1, set_bcProvider (Some bytecode) (set_bcProvider None s.2))
  = Done tt s1 ->
  initializeWithoutCJSModulesMayAllocate bytecode
    (s.1, set_bcProvider None s.2)
  = Done tt
      (s1.1,
       set_functionMap
         (Some cb :: replicate (pred (toNat (getFunctionCount bytecode))) None)
         s1.2)
  /\ initializeLazyMayAllocate bytecode s = Stopped Undefined.
Proof.
  intros Hmap Hcount Hle Himport.
  pose proof (import_keeps_functionMap _ _ Himport) as Hfm.
  pose proof (import_keeps_bcProvider _ _ Himport) as Hbc.
  simpl in Hfm, Hbc. rewrite Hmap in Hfm.
  pose proof (initializeWithoutCJS_run bytecode
                (s.1, set_bcProvider None s.2) s1 Himport) as Hinit.
  rewrite Hfm in Hinit.
  assert (exists n, toNat (getFunctionCount bytecode) = S n) as [n Hn].
  { exists (pred (toNat (getFunctionCount bytecode))). unfold toNat. lia. }
  rewrite Hn in Hinit. simpl resize in Hinit. rewrite resize_nil in Hinit.
  rewrite Hn. simpl pred. split; [exact Hinit|].
  unfold initializeLazyMayAllocate.
  rewrite (bind_Done _ _ _ _ _ (modifyModule_run _ s)).
  rewrite (bind_Done _ _ _ _ _ Hinit).
  erewrite bind_Done by (apply provider_run; exact Hbc).
  assert ((getGlobalFunctionIndex bytecode =? 0) = false) as ->
    by (apply N.eqb_neq; lia).
  erewrite bind_Done by (by apply loadFunction_run).
  apply bind_Stopped. unfold storeFunction.
  rewrite (bind_Done _ _ _ _ _ (getModule_run _)). simpl.
  rewrite length_replicate.
  rewrite decide_False; [done|]. unfold toNat in *. lia.
Qed.
End LifeCycleFacts.

(** ** The further properties on the sample world *)

(** Every listed slot of a sample function map points to a live record. *)
Ltac slots_live :=
  let Hin := fresh "Hin" in
  let Heq := fresh "Heq" in
  intros ? Hin;
  repeat (apply elem_of_cons in Hin as [Heq|Hin];
          [first [discriminate Heq
                 | injection Heq as ->; eexists; reflexivity]|]);
  destruct (not_elem_of_nil _ Hin).

(** Entry 0 of the sample table reads "ab". *)
Lemma getStringFromStringID_reads_entry_sample :
  exists chars,
    getStringFromStringID 0 []
      (Sample.start 100 None 5, Sample.loaded true Sample.bytecode)
    = Done (true, chars)
        (Sample.start 100 None 5, Sample.loaded true Sample.bytecode)
    /\ chars = [97; 98].
Proof.
  destruct (getStringFromStringID_reads_entry Sample.bytecode 0 []
              (Sample.start 100 None 5, Sample.loaded true Sample.bytecode)
              eq_refl)
    as [_ Hin].
  destruct Hin as (chars & Hrun & Hview & _).
  - apply Nat.leb_le. reflexivity.
  - exists chars. split; [exact Hrun|]. exact (sample_entry_ab chars Hview).
Defined.

(** The first string mapped by a fresh persistent binding gets index 0. *)
Lemma detail_mapString_appends_sample :
  exists s',
    detail_mapStringMayAllocate [97]
      (Sample.start 100 None 5, Sample.loaded true Sample.bytecode)
    = Done 0 s'
    /\ stringIDMap_ s'.2 = [unsafeCreate 0].
Proof.
  edestruct (detail_mapString_appends [97]
               (Sample.start 100 None 5, Sample.loaded true Sample.bytecode))
    as (index & s' & Hrun & -> & Hmap & _).
  - reflexivity.
  - split; reflexivity.
  - exists s'. split; [exact Hrun | exact Hmap].
Defined.


(** The weak pass over the binding 0 of the family asks its record 10, and
    not the borrowed record 11, to mark its caches. *)
Lemma weak_pass_visits_sample :
  markWeakRoots Sample.family 0 Sample.parentModule []
  = Some (Sample.parentModule, [CodeBlockCaches 10]).
Proof.
  destruct (weak_pass_visits Sample.family 0 Sample.parentModule)
    as [Hrun _].
  - slots_live.
  - exact Hrun.
Defined.

(** The weak pass of the recording visitor over a binding with one cached
    shape. *)
Lemma weak_pass_updates_cache_sample :
  exists rm' acc',
    markWeakRoots (SA:=RecordingAcceptor) Sample.family 0
      Sample.cachingParent []
    = Some (rm', acc')
    /\ exists acc0,
         objectLiteralHiddenClasses_ rm' !! 3
         = Some (acceptWeak 9 acc0).1.
Proof.
  destruct (weak_pass_updates_cache (K:=Sample.keys) Sample.family 0
              Sample.cachingParent [])
    as (rm' & acc' & Hrun & _ & Hcache & _).
  - slots_live.
  - exists rm', acc'. split; [exact Hrun | exact (Hcache 3)].
Defined.

(** Scrubbing the binding 0 of the family, once and again: slot 0 keeps
    the record 10, slot 1 loses the child's record 11. *)
Lemma scrub_leaves_only_owned_sample :
  exists rm1,
    prepareForRuntimeShutdown 0 (Sample.family, Sample.parentModule)
    = Done tt (Sample.family, rm1)
    /\ functionMap_ rm1 !! 0%nat = Some (Some 10)
    /\ functionMap_ rm1 !! 1%nat = Some None
    /\ functionMap_ rm1 !! 2%nat = Some None
    /\ length (functionMap_ rm1) = 3%nat
    /\ prepareForRuntimeShutdown 0 (Sample.family, rm1)
       = Done tt (Sample.family, rm1).
Proof.
  destruct (scrub_leaves_only_owned 0 Sample.family Sample.parentModule)
    as (rm1 & Hrun & _ & Hlen & Hslot & Hnull & _ & _ & Hagain).
  - reflexivity.
  - slots_live.
  - exists rm1. split; [exact Hrun|].
    split; [exact (Hslot 0%nat 10 0 eq_refl eq_refl)|].
    split; [exact (Hslot 1%nat 11 5 eq_refl eq_refl)|].
    split; [exact (Hnull 2%nat eq_refl)|].
    split; [exact Hlen | exact Hagain].
Defined.

(** Destroying the binding 0 of the family without scrubbing it: record 10
    is deleted, the child's record 11 stays. *)
Lemma destroy_spares_borrowed_sample :
  exists r2,
    destroy 0 Sample.family = Done [10] r2
    /\ getRuntimeModule r2 11 = Some 5.
Proof.
  destruct (destroy_spares_borrowed 0 Sample.family Sample.parentModule)
    as (r2 & Hrun & _ & Hkept & _).
  - reflexivity.
  - slots_live.
  - exact (NoDup_singleton 10).
  - exists r2. split; [exact Hrun|].
    apply (Hkept 11 5); [reflexivity | discriminate].
Defined.

(** The scrubbed binding 0 is destroyed after the child and its record 11
    are gone. *)
Lemma destroy_after_scrub_needs_only_owned_sample :
  exists r2,
    destroy 0 Sample.survivors = Done [10] r2
    /\ codeBlockHeap r2 !! 10 = None.
Proof.
  destruct (destroy_after_scrub_needs_only_owned 0 Sample.family
              Sample.parentModule Sample.scrubbedParent Sample.survivors)
    as (r2 & Hrun & Hheap).
  - reflexivity.
  - slots_live.
  - exact (NoDup_singleton 10).
  - evaluate.
  - reflexivity.
  - intros block Hin.
    apply elem_of_cons in Hin as [->|Hin];
      [reflexivity | destruct (not_elem_of_nil _ Hin)].
  - exists r2. split; [exact Hrun | exact (Hheap 10)].
Defined.

(** The unscrubbed binding 0 is destroyed after the child and its record
    11 are gone. *)
Lemma destroy_reads_every_slot_sample :
  destroy 0 Sample.orphaned = Stopped Undefined.
Proof.
  apply (destroy_reads_every_slot 0 Sample.orphaned Sample.parentModule
           [Some 10] 11 [None]).
  - reflexivity.
  - reflexivity.
  - slots_live.
  - exact (NoDup_singleton 10).
  - reflexivity.
Defined.

(** Function 2 of the binding 0 of the family is materialised. *)
Lemma slow_path_creates_record_sample :
  exists cb r',
    getCodeBlockSlowPath Sample.lookupName 0 2 Sample.family
    = Done (Some cb) r'
    /\ codeBlockHeap r' !! cb
       = Some {| cb_runtimeModule := 0; cb_functionID := 2 |}.
Proof.
  destruct (slow_path_creates_record Sample.lookupName 0 2 Sample.family
              Sample.parentModule Sample.bytecode)
    as [Hin _].
  - reflexivity.
  - reflexivity.
  - reflexivity.
  - destruct Hin as (cb & r' & Hrun & _ & Hheap & _).
    + apply Nat.ltb_lt. reflexivity.
    + exists cb, r'. split; [exact Hrun|].
      rewrite Hheap. apply lookup_insert_eq.
Defined.

(** A lazy child for function 1 of the lone binding 0: it is named "foo",
    the symbol 0 of its parent. *)
Lemma lazy_module_created_sample :
  exists RM r',
    createLazyModule Sample.lookupName 1 0 1 Sample.household = Done RM r'
    /\ onModule RM getLazyName r' = Done (unsafeCreate 0) r'.
Proof.
  edestruct (lazy_module_created Sample.lookupName 1 0 1 Sample.household
               Sample.lazyParent Sample.bytecode)
    as (RM & r' & child & cb & Hrun & _ & _ & _ & _ & _ & _ & _ & _ & _
        & Hname & _).
  - reflexivity.
  - reflexivity.
  - reflexivity.
  - reflexivity.
  - reflexivity.
  - exists RM, r'. split; [exact Hrun | exact Hname].
Defined.

(** The lazy function 1 of the lone binding 0 is asked for: the record
    that comes back belongs to the child. *)
Lemma slow_path_shares_lazy_record_sample :
  exists RM r' cb,
    getCodeBlockSlowPath Sample.lookupName 0 1 Sample.household
    = Done (Some cb) r'
    /\ getRuntimeModule r' cb = Some RM
    /\ RM <> 0.
Proof.
  edestruct (slow_path_shares_lazy_record Sample.lookupName 0 1
               Sample.household Sample.lazyParent Sample.bytecode)
    as (RM & r' & child & cb & Hrun & _ & _ & _ & _ & _ & Howner & Hne & _).
  - reflexivity.
  - reflexivity.
  - reflexivity.
  - reflexivity.
  - reflexivity.
  - reflexivity.
  - apply Nat.ltb_lt. reflexivity.
  - exists RM, r', cb.
    split; [exact Hrun|]. split; [exact Howner | exact Hne].
Defined.

(** A binding over the sample provider, created and destroyed. *)
Lemma create_then_destroy_sample :
  exists this r1 r2,
    create 1 (Some Sample.bytecode) true (Sample.start 100 None 5)
    = Done (CallValue this) r1
    /\ destroy this r1 = Done [] r2
    /\ runtimeModuleList r2 = [].
Proof.
  edestruct (create_then_destroy 1 (Some Sample.bytecode) true
               (Sample.start 100 None 5))
    as (r2 & Hrun & Hlist & _).
  - intros m Hin. destruct (not_elem_of_nil _ Hin).
  - evaluate.
  - eexists _, _, r2. split; [reflexivity|].
    split; [exact Hrun | exact Hlist].
Defined.

(** A lazy child compiled to a provider of one function whose global
    function index is 3. *)
Lemma lazy_child_index_outside_sample :
  initializeLazyMayAllocate Sample.strayBytecode
    (Sample.start 100 None 5, Sample.lazyChild)
  = Stopped Undefined.
Proof.
  edestruct (lazy_child_index_outside Sample.strayBytecode 7
               (Sample.start 100 None 5, Sample.lazyChild))
    as [_ Hstop].
  - reflexivity.
  - discriminate.
  - discriminate.
  - evaluate.
  - exact Hstop.
Defined.
